(** * microsite-mcp-service: a shallow embedding of the AEM tool server

    The first part embeds the JavaScript sources, module by module:

    - [JsString]    the [String.prototype] methods and the regular
                    expressions the sources use;
    - [Credentials] [getAEMCredentials] (tools.js);
    - [Sanitize]    the site-name transform of [createSite];
    - [Escaping]    [escapeGlobValue], [escapeLikeValue], [escapeRegex];
    - [Json], [Redaction]  [replaceValuesInMetadata] on JSON trees;
    - [Heap]        the same function on a store of objects and arrays,
                    where references, sharing and mutation are visible;
    - [Remote]      the axios layer: a state-and-exception monad over the
                    trace of requests, console lines and delays;
    - [Microsite], [Tool], [Assets]  the microsite client, the
                    [aem-create-microsite] handler and the asset client;
    - [Adapter]     [parseRequestBody], [handleMcpRequest] and [main].

    The second part states and proves the properties, one module of facts
    per module of code.

    A JavaScript string is a [string]: each [ascii] stands for one UTF-16
    code unit in the range U+0000..U+00FF. *)

From Stdlib Require Import Ascii String NArith Bool.
From stdpp Require Import base list strings pretty.

Local Open Scope string_scope.
Local Open Scope list_scope.
Set Warnings "-register-all".

(** ** JavaScript strings *)

Module JsString.

(** [!!s] on a string that may be [undefined]: [undefined] and the empty
    string are falsy. *)
Definition truthy (o : option string) : bool :=
  match o with
  | Some s => negb (String.eqb s "")
  | None => false
  end.

(** [a || b] on strings that may be [undefined]. *)
Definition or_else (a b : option string) : option string :=
  if truthy a then a else b.

Definition code (c : ascii) : N := N_of_ascii c.

Definition in_range (lo hi : N) (c : ascii) : bool :=
  (lo <=? code c)%N && (code c <=? hi)%N.

Definition char_in (cls : list ascii) (c : ascii) : bool :=
  existsb (Ascii.eqb c) cls.

(** [String.prototype.toLowerCase] on U+0000..U+00FF: A-Z and the
    Latin-1 capitals U+00C0..U+00DE (U+00D7, the multiplication sign,
    apart) move up by 32. *)
Definition lower_char (c : ascii) : ascii :=
  if in_range 65 90 c then ascii_of_N (code c + 32)
  else if in_range 192 222 c && negb (code c =? 215)%N
       then ascii_of_N (code c + 32)
  else c.

Fixpoint toLowerCase (s : string) : string :=
  match s with
  | "" => ""
  | String c r => String (lower_char c) (toLowerCase r)
  end.

(** The [Canonicalize] step of a case-insensitive match without the [u]
    flag: a code unit is compared by its upper-case form when that form
    is one code unit.  On U+0000..U+00FF: a-z and U+00E0..U+00FE (U+00F7
    apart) move down by 32; U+00B5 and U+00FF have upper-case forms
    outside the range that no other code unit of the range shares, and
    U+00DF has a two-unit form, so the three stay as they are. *)
Definition canonicalize (c : ascii) : ascii :=
  if in_range 97 122 c then ascii_of_N (code c - 32)
  else if in_range 224 254 c && negb (code c =? 247)%N
       then ascii_of_N (code c - 32)
  else c.

(** [s.startsWith(p)] *)
Definition startsWith (s p : string) : bool := String.prefix p s.

(** [s.includes(sub)] *)
Fixpoint includes (s sub : string) : bool :=
  String.prefix sub s ||
  match s with
  | "" => false
  | String _ r => includes r sub
  end.

(** [arr.join(sep)] *)
Fixpoint join (sep : string) (l : list string) : string :=
  match l with
  | [] => ""
  | [x] => x
  | x :: r => x +:+ sep +:+ join sep r
  end.

(** [s.split('/')]: the pieces between the separators; never empty. *)
Fixpoint split_on (sep : ascii) (s : string) : list string :=
  match s with
  | "" => [""]
  | String c r =>
      if Ascii.eqb c sep then "" :: split_on sep r
      else match split_on sep r with
           | [] => [String c ""]
           | p :: ps => String c p :: ps
           end
  end.

(** [arr.pop()] read as a value: the last element. *)
Definition pop (l : list string) : option string := last l.

(** [arr.slice(0, -1)] *)
Definition slice_init (l : list string) : list string := removelast l.

(** [String.prototype.toUpperCase] of one code unit of U+0000..U+00FF:
    a-z and U+00E0..U+00FE (U+00F7 apart) move down by 32 and U+00DF
    becomes [SS]; the upper-case forms of U+00B5 and U+00FF lie outside
    the range and the two are left as they are. *)
Definition toUpperCase_char (c : ascii) : string :=
  if in_range 97 122 c then String (ascii_of_N (code c - 32)) ""
  else if in_range 224 254 c && negb (code c =? 247)%N
       then String (ascii_of_N (code c - 32)) ""
  else if (code c =? 223)%N then "SS"
  else String c "".

(** [s.charAt(0).toUpperCase() + s.slice(1)] *)
Definition capitalize (s : string) : string :=
  match s with
  | "" => ""
  | String c r => toUpperCase_char c +:+ r
  end.

(** *** Regular expressions

    A regular expression without groups is used through its matcher: on
    the rest of the input at the current position it gives the length of
    the match that starts there, if there is one. *)
Definition matcher := string -> option nat.

(** [/[...]/]: one code unit of the class. *)
Definition match_class (cls : ascii -> bool) : matcher := fun s =>
  match s with
  | String c _ => if cls c then Some 1 else None
  | "" => None
  end.

Fixpoint run_length (cls : ascii -> bool) (s : string) : nat :=
  match s with
  | String c r => if cls c then S (run_length cls r) else 0
  | "" => 0
  end.

(** [/[...]+/]: the longest non-empty run of the class. *)
Definition match_run (cls : ascii -> bool) : matcher := fun s =>
  match run_length cls s with
  | 0 => None
  | n => Some n
  end.

Fixpoint prefix_ci (lit s : string) : bool :=
  match lit, s with
  | "", _ => true
  | String a lit', String b s' =>
      Ascii.eqb (canonicalize a) (canonicalize b) && prefix_ci lit' s'
  | String _ _, "" => false
  end.

(** A literal pattern under the [i] flag. *)
Definition match_literal_ci (lit : string) : matcher := fun s =>
  if prefix_ci lit s then Some (String.length lit) else None.

(** [GetSubstitution] for a match without capture groups: [$$], [$&],
    [$`] and [$'] are expanded; [$1], [$<] and a lone [$] stay. *)
Fixpoint getSubstitution (matched before after tpl : string) : string :=
  match tpl with
  | "" => ""
  | String "$" (String "$" r) =>
      String "$" (getSubstitution matched before after r)
  | String "$" (String "&" r) =>
      matched +:+ getSubstitution matched before after r
  | String "$" (String "`" r) =>
      before +:+ getSubstitution matched before after r
  | String "$" (String "'" r) =>
      after +:+ getSubstitution matched before after r
  | String c r => String c (getSubstitution matched before after r)
  end.

Definition take_str (n : nat) (s : string) : string := String.substring 0 n s.
Definition drop_str (n : nat) (s : string) : string :=
  String.substring n (String.length s - n) s.

(** [s.replace(re, tpl)] for a global [re]: the input is scanned from the
    left; [before] is the input already passed and [skip] counts the
    code units of the current match still to pass.  An empty match is
    replaced and the scan moves on by one code unit. *)
Fixpoint replace_scan (m : matcher) (tpl : string)
         (before : string) (skip : nat) (s : string) : string :=
  match s with
  | "" =>
      match skip, m "" with
      | 0, Some 0 => getSubstitution "" before "" tpl
      | _, _ => ""
      end
  | String c r =>
      match skip with
      | S k => replace_scan m tpl (before +:+ String c "") k r
      | 0 =>
          match m s with
          | Some 0 =>
              getSubstitution "" before s tpl
              +:+ String c (replace_scan m tpl (before +:+ String c "") 0 r)
          | Some (S k) =>
              getSubstitution (take_str (S k) s) before (drop_str (S k) s) tpl
              +:+ replace_scan m tpl (before +:+ String c "") k r
          | None => String c (replace_scan m tpl (before +:+ String c "") 0 r)
          end
      end
  end.

Definition replace_g (m : matcher) (tpl s : string) : string :=
  replace_scan m tpl "" 0 s.

(** [\s] on U+0000..U+00FF: tab, line feed, vertical tab, form feed,
    carriage return, space and the no-break space U+00A0. *)
Definition is_space (c : ascii) : bool :=
  in_range 9 13 c || (code c =? 32)%N || (code c =? 160)%N.

End JsString.

(** ** Credential resolver: [getAEMCredentials] (tools.js) *)

Module Credentials.
Import JsString.

(** The fields of [params] the resolver reads. *)
Record cred_params := {
  p_authorUrl : option string;
  p_server : option string;
  p_token : option string;
  p_username : option string;
  p_password : option string
}.

(** [process.env] *)
Record environment := {
  AEM_AUTHOR_URL : option string;
  AEM_TOKEN : option string;
  AEM_USERNAME : option string;
  AEM_PASSWORD : option string;
  LOG_LEVEL : option string
}.

(** The [credentials] object: it receives either [username] and
    [password], or [token]. *)
Inductive credentials :=
| Basic (username password : string)
| Bearer (token : string).

Inductive auth_result :=
| AuthError (error : string)
| AuthOk (authorUrl : string) (creds : credentials).

Definition default_author_url : string :=
  "https://author-p18253-e46622.adobeaemcloud.com".

Definition get (o : option string) : string := default "" o.

Definition show_bool (b : bool) : string := if b then "true" else "false".

(** The local [envVars]: the names pushed when the variable is falsy. *)
Definition missing_env_vars (env : environment) : list string :=
  (if truthy (AEM_TOKEN env) then [] else ["AEM_TOKEN"]) ++
  (if truthy (AEM_USERNAME env) then [] else ["AEM_USERNAME"]) ++
  (if truthy (AEM_PASSWORD env) then [] else ["AEM_PASSWORD"]).

Definition auth_error_message (env : environment) : string :=
  "Authentication required. Please provide token or username/password as tool parameters, or set environment variables: "
  +:+ join ", " (missing_env_vars env)
  +:+ ". Current env vars status: AEM_TOKEN=" +:+ show_bool (truthy (AEM_TOKEN env))
  +:+ ", AEM_USERNAME=" +:+ show_bool (truthy (AEM_USERNAME env))
  +:+ ", AEM_PASSWORD=" +:+ show_bool (truthy (AEM_PASSWORD env)).

(** The [console.log] lines of debug mode do not enter the result and are
    left out. *)
Definition getAEMCredentials (env : environment) (params : cred_params)
  : auth_result :=
  let finalAuthorUrl :=
    get (or_else (p_authorUrl params)
           (or_else (p_server params)
              (or_else (AEM_AUTHOR_URL env) (Some default_author_url)))) in
  let finalToken := or_else (p_token params) (AEM_TOKEN env) in
  let finalUsername := or_else (p_username params) (AEM_USERNAME env) in
  let finalPassword := or_else (p_password params) (AEM_PASSWORD env) in
  let isAEMCloudService := includes finalAuthorUrl "adobeaemcloud.com" in
  if truthy finalUsername && truthy finalPassword
     && (isAEMCloudService || negb (truthy finalToken))
  then AuthOk finalAuthorUrl (Basic (get finalUsername) (get finalPassword))
  else if truthy finalToken
  then AuthOk finalAuthorUrl (Bearer (get finalToken))
  else AuthError (auth_error_message env).

End Credentials.

(** ** Site-name sanitization ([createSite], tool handler) *)

Module Sanitize.
Import JsString.

(** [[a-z0-9-]] *)
Definition is_name_char (c : ascii) : bool :=
  in_range 97 122 c || in_range 48 57 c || Ascii.eqb c "-".

(** [title.toLowerCase().replace(/\s+/g, '-')] *)
Definition derive_name (title : string) : string :=
  replace_g (match_run is_space) "-" (toLowerCase title).

(** [name.toLowerCase().replace(/\s+/g, '-').replace(/[^a-z0-9-]/g, '-')] *)
Definition sanitize (name : string) : string :=
  replace_g (match_class (fun c => negb (is_name_char c))) "-"
    (replace_g (match_run is_space) "-" (toLowerCase name)).

(** [^[a-z0-9-]+$] *)
Definition matches_name_pattern (s : string) : bool :=
  negb (String.eqb s "") && forallb is_name_char (list_ascii_of_string s).

(** [s.trim()] is not empty: some code unit of [s] is not white space. *)
Definition nonempty_after_trim (s : string) : bool :=
  existsb (fun c => negb (is_space c)) (list_ascii_of_string s).

End Sanitize.

(** ** Predicate escaping ([AEMAssetClient]) *)

Module Escaping.
Import JsString.

Definition backslash : ascii := "\".

(** [[\\*?\[\]{}]] *)
Definition glob_special : list ascii :=
  ["\"; "*"; "?"; "["; "]"; "{"; "}"]%char.

(** [[\\%_]] *)
Definition like_special : list ascii := ["\"; "%"; "_"]%char.

(** [[.*+?^${}()|[\]\\]] *)
Definition regex_special : list ascii :=
  ["."; "*"; "+"; "?"; "^"; "$"; "{"; "}"; "("; ")"; "|"; "["; "]"; "\"]%char.

(** The replacement [ '\\$&' ]: a backslash, then the match. *)
Definition escape_template : string := "\$&".

Definition escapeGlobValue (value : string) : string :=
  if String.eqb value "" then ""
  else replace_g (match_class (char_in glob_special)) escape_template value.

Definition escapeLikeValue (value : string) : string :=
  if String.eqb value "" then ""
  else replace_g (match_class (char_in like_special)) escape_template value.

Definition escapeRegex (value : string) : string :=
  if String.eqb value "" then ""
  else replace_g (match_class (char_in regex_special)) escape_template value.

(** [new RegExp(pattern, 'gi')] on the patterns [escapeRegex] produces: a
    backslash followed by a syntax character is that character, any other
    code unit that is not a syntax character is itself.  Patterns outside
    this fragment are not read. *)
Fixpoint literal_of_pattern (pattern : string) : option string :=
  match pattern with
  | "" => Some ""
  | String c r =>
      if Ascii.eqb c backslash then
        match r with
        | String d r' =>
            if char_in regex_special d
            then String d <$> literal_of_pattern r'
            else None
        | "" => None
        end
      else if char_in regex_special c then None
      else String c <$> literal_of_pattern r
  end.

(** The matcher of [new RegExp(pattern, 'gi')]; a pattern outside the
    fragment matches nowhere (none is built here, see
    [literal_of_escapeRegex]). *)
Definition RegExp_gi (pattern : string) : matcher :=
  match literal_of_pattern pattern with
  | Some lit => match_literal_ci lit
  | None => fun _ => None
  end.

(** [value.replace(new RegExp(this.escapeRegex(searchValue), 'gi'),
    replaceValue)] *)
Definition replace_value (searchValue replaceValue value : string) : string :=
  replace_g (RegExp_gi (escapeRegex searchValue)) replaceValue value.

End Escaping.

(** ** JSON values *)

Module Json.

(** A JSON value as [JSON.parse] gives it.  A number is carried by its
    [Number.prototype.toString] rendering.  The fields of an object are
    in property-enumeration order. *)
Inductive json :=
| JNull
| JBool (b : bool)
| JNum (repr : string)
| JStr (s : string)
| JArr (items : list json)
| JObj (fields : list (string * json)).

(** [!!v] *)
Definition truthy_json (v : json) : bool :=
  match v with
  | JNull => false
  | JBool b => b
  | JNum r => negb (String.eqb r "0")
  | JStr s => negb (String.eqb s "")
  | JArr _ | JObj _ => true
  end.

(** [o[k] = v] on the fields of an object: an own property keeps its
    place, a new one goes last. *)
Fixpoint obj_set {A} (k : string) (v : A) (o : list (string * A))
  : list (string * A) :=
  match o with
  | [] => [(k, v)]
  | (k', v') :: r =>
      if String.eqb k' k then (k', v) :: r else (k', v') :: obj_set k v r
  end.

(** [o[k]]; [None] is [undefined]. *)
Fixpoint obj_get {A} (k : string) (o : list (string * A)) : option A :=
  match o with
  | [] => None
  | (k', v) :: r => if String.eqb k' k then Some v else obj_get k r
  end.

(** [v[k]] for a name [k] that is neither an array index nor a built-in
    property ([dc:title] is the one read): only an object has it. *)
Definition get_prop (v : json) (k : string) : option json :=
  match v with
  | JObj fields => obj_get k fields
  | _ => None
  end.

Definition keys {A} (o : list (string * A)) : list string := o.*1.

(** The property names of every object of the value are distinct, as
    they are in a JavaScript object. *)
Fixpoint wf (v : json) : bool :=
  match v with
  | JObj fields =>
      bool_decide (NoDup (keys fields))
      && (fix all (l : list (string * json)) : bool :=
            match l with
            | [] => true
            | (_, x) :: r => wf x && all r
            end) fields
  | JArr items =>
      (fix all (l : list json) : bool :=
         match l with
         | [] => true
         | x :: r => wf x && all r
         end) items
  | _ => true
  end.

(** [Object.entries(arr)]: the elements under their indices, from [i]. *)
Fixpoint index_entries {A} (i : nat) (items : list A) : list (string * A) :=
  match items with
  | [] => []
  | x :: r => (pretty i, x) :: index_entries (S i) r
  end.

(** The nesting depth of a value. *)
Fixpoint depth (v : json) : nat :=
  match v with
  | JObj fields =>
      S ((fix mx (l : list (string * json)) : nat :=
            match l with
            | [] => 0
            | (_, x) :: r => Nat.max (depth x) (mx r)
            end) fields)
  | JArr items =>
      S ((fix mx (l : list json) : nat :=
            match l with
            | [] => 0
            | x :: r => Nat.max (depth x) (mx r)
            end) items)
  | _ => 0
  end.

End Json.

(** ** Search-and-replace on metadata: [replaceValuesInMetadata] *)

Module Redaction.
Import JsString Escaping Json.

Section Replace.
Variables searchValue replaceValue : string.

(** The callback of [value.map]: a string element is rewritten, any
    other element is returned as it is. *)
Definition replace_item (item : json) : json :=
  match item with
  | JStr s => JStr (replace_value searchValue replaceValue s)
  | _ => item
  end.

(** [replaceValuesInMetadata(metadata, searchValue, replaceValue)] on a
    JSON tree.  [loop] is the [for ... of Object.entries(metadata)]
    with the object [replaced] built so far. *)
Fixpoint replaceValuesInMetadata (metadata : json) : json :=
  match metadata with
  | JObj fields =>
      JObj ((fix loop (entries : list (string * json))
                      (replaced : list (string * json)) :=
               match entries with
               | [] => replaced
               | (key, value) :: rest =>
                   loop rest
                     (obj_set key
                        match value with
                        | JStr s =>
                            JStr (replace_value searchValue replaceValue s)
                        | JArr items => JArr (map replace_item items)
                        | JObj _ => replaceValuesInMetadata value
                        | _ => value
                        end replaced)
               end) fields [])
  | JArr items =>
      JObj ((fix loop (i : nat) (elems : list json)
                      (replaced : list (string * json)) :=
               match elems with
               | [] => replaced
               | value :: rest =>
                   loop (S i) rest
                     (obj_set (pretty i)
                        match value with
                        | JStr s =>
                            JStr (replace_value searchValue replaceValue s)
                        | JArr items => JArr (map replace_item items)
                        | JObj _ => replaceValuesInMetadata value
                        | _ => value
                        end replaced)
               end) 0 items [])
  | _ => metadata
  end.

(** The claim's reading, every string leaf at any depth:
    objects and arrays are both entered. *)
Fixpoint rewrite_every_leaf (v : json) : json :=
  match v with
  | JStr s => JStr (replace_value searchValue replaceValue s)
  | JArr items => JArr (map rewrite_every_leaf items)
  | JObj fields =>
      JObj (map (fun kv => (kv.1, rewrite_every_leaf kv.2)) fields)
  | _ => v
  end.

(** The reading the code supports: an object is entered through its
    object-valued properties; of an array-valued property only the
    elements that are strings are rewritten. *)
Fixpoint rewrite_object_leaves (v : json) : json :=
  match v with
  | JObj fields =>
      JObj (map (fun kv =>
                   (kv.1,
                    match kv.2 with
                    | JStr s =>
                        JStr (replace_value searchValue replaceValue s)
                    | JArr items => JArr (map replace_item items)
                    | JObj _ => rewrite_object_leaves kv.2
                    | x => x
                    end)) fields)
  | _ => v
  end.

End Replace.

(** A global, case-insensitive replacement of the non-empty [sv] by
    [rv], read from the left: where [sv] matches, [rv] is written and the
    scan resumes after the match; elsewhere the code unit is copied. *)
Inductive ci_replaced (sv rv : string) : string -> string -> Prop :=
| ci_done : ci_replaced sv rv "" ""
| ci_hit m rest out :
    String.length m = String.length sv ->
    prefix_ci sv m = true ->
    ci_replaced sv rv rest out ->
    ci_replaced sv rv (m +:+ rest) (rv +:+ out)
| ci_copy c rest out :
    prefix_ci sv (String c rest) = false ->
    ci_replaced sv rv rest out ->
    ci_replaced sv rv (String c rest) (String c out).

Definition has_dollar (s : string) : bool :=
  existsb (Ascii.eqb "$") (list_ascii_of_string s).

End Redaction.

(** ** [replaceValuesInMetadata] on the store

    Objects and arrays live in a store and are passed by reference; this
    is the level at which sharing and mutation are visible. *)

Module Heap.
Import JsString Escaping Json.

Definition loc := nat.

Inductive val :=
| VUndefined
| VNull
| VBool (b : bool)
| VNum (repr : string)
| VStr (s : string)
| VRef (l : loc).

Inductive cell :=
| CObj (fields : list (string * val))
| CArr (items : list val).

Abbreviation heap := (list cell).

(** A new object or array takes the next free location. *)
Definition alloc (c : cell) (h : heap) : loc * heap := (length h, h ++ [c]).

(** [Object.entries(x)] for the object or array in a cell. *)
Definition entries_of (c : cell) : list (string * val) :=
  match c with
  | CObj fields => fields
  | CArr items => index_entries 0 items
  end.

(** [o[key] = v] for the object at [o]. *)
Definition set_prop (o : loc) (key : string) (v : val) (h : heap) : heap :=
  match h !! o with
  | Some (CObj fields) => <[o := CObj (obj_set key v fields)]> h
  | _ => h
  end.

Section Replace.
Variables searchValue replaceValue : string.

Definition replace_item (item : val) : val :=
  match item with
  | VStr s => VStr (replace_value searchValue replaceValue s)
  | _ => item
  end.

(** The [for ... of] loop; [self] is the recursive call and [replaced]
    the location of the object under construction. *)
Fixpoint loop (self : heap -> val -> option (heap * val))
         (replaced : loc) (entries : list (string * val)) (h : heap)
  : option heap :=
  match entries with
  | [] => Some h
  | (key, value) :: rest =>
      match value with
      | VStr s =>
          loop self replaced rest
            (set_prop replaced key
               (VStr (replace_value searchValue replaceValue s)) h)
      | VRef a =>
          match h !! a with
          | Some (CArr items) =>
              let '(arr, h1) := alloc (CArr (map replace_item items)) h in
              loop self replaced rest (set_prop replaced key (VRef arr) h1)
          | Some (CObj _) =>
              match self h value with
              | Some (h1, v) =>
                  loop self replaced rest (set_prop replaced key v h1)
              | None => None
              end
          | None => None
          end
      | _ => loop self replaced rest (set_prop replaced key value h)
      end
  end.

(** [fuel] bounds the depth of recursion; [None] stands for running
    out of it or for a dangling reference. *)
Fixpoint replaceValuesInMetadata (fuel : nat) (h : heap) (metadata : val)
  : option (heap * val) :=
  match fuel with
  | 0 => None
  | S n =>
      match metadata with
      | VRef l =>
          match h !! l with
          | Some c =>
              let '(replaced, h1) := alloc (CObj []) h in
              match loop (replaceValuesInMetadata n) replaced
                      (entries_of c) h1 with
              | Some h2 => Some (h2, VRef replaced)
              | None => None
              end
          | None => None
          end
      | _ => Some (h, metadata)
      end
  end.

End Replace.

(** The value [v] in store [h] stands for the JSON tree [j], and every
    object and array of it lies at a location in [P]. *)
Fixpoint represents_in (P : loc -> Prop) (h : heap) (j : json) (v : val)
         {struct j} : Prop :=
  match j with
  | JNull => v = VNull
  | JBool b => v = VBool b
  | JNum r => v = VNum r
  | JStr s => v = VStr s
  | JArr js =>
      exists l items, v = VRef l /\ P l /\ h !! l = Some (CArr items) /\
        (fix all (js : list json) (vs : list val) : Prop :=
           match js, vs with
           | [], [] => True
           | j :: js', x :: vs' => represents_in P h j x /\ all js' vs'
           | _, _ => False
           end) js items
  | JObj jfields =>
      exists l fields, v = VRef l /\ P l /\ h !! l = Some (CObj fields) /\
        (fix all (js : list (string * json)) (vs : list (string * val)) : Prop :=
           match js, vs with
           | [], [] => True
           | (k, j) :: js', (k', x) :: vs' =>
               k = k' /\ represents_in P h j x /\ all js' vs'
           | _, _ => False
           end) jfields fields
  end.

Definition represents (h : heap) (j : json) (v : val) : Prop :=
  represents_in (fun _ => True) h j v.

(** [JSON.parse] builds a tree in the store, children first. *)
Fixpoint store (j : json) (h : heap) : val * heap :=
  match j with
  | JNull => (VNull, h)
  | JBool b => (VBool b, h)
  | JNum r => (VNum r, h)
  | JStr s => (VStr s, h)
  | JArr js =>
      let '(vs, h1) :=
        (fix go (js : list json) (h : heap) : list val * heap :=
           match js with
           | [] => ([], h)
           | j :: r =>
               let '(v, h1) := store j h in
               let '(vs, h2) := go r h1 in (v :: vs, h2)
           end) js h in
      let '(l, h2) := alloc (CArr vs) h1 in (VRef l, h2)
  | JObj fs =>
      let '(vs, h1) :=
        (fix go (fs : list (string * json)) (h : heap)
           : list (string * val) * heap :=
           match fs with
           | [] => ([], h)
           | (k, j) :: r =>
               let '(v, h1) := store j h in
               let '(vs, h2) := go r h1 in ((k, v) :: vs, h2)
           end) fs h in
      let '(l, h2) := alloc (CObj vs) h1 in (VRef l, h2)
  end.

(** Every object and array reachable from [v] within [fuel] steps. *)
Fixpoint reachable (fuel : nat) (h : heap) (v : val) : list loc :=
  match fuel with
  | 0 => []
  | S n =>
      match v with
      | VRef l =>
          l :: match h !! l with
               | Some (CObj fields) =>
                   flat_map (fun kv => reachable n h kv.2) fields
               | Some (CArr items) => flat_map (reachable n h) items
               | None => []
               end
      | _ => []
      end
  end.

(** The claim's reading of a fresh result: no object or array of the
    result at any level is one of the [n] cells that existed before. *)
Definition all_fresh (fuel n : nat) (h : heap) (v : val) : bool :=
  forallb (fun l => Nat.leb n l) (reachable fuel h v).

(** What the code gives: the object is new, an array-valued property
    is a new array, an object-valued property is again such an object.
    Nothing is said of what the elements of the arrays refer to. *)
Inductive fresh_object (n : nat) (h : heap) : loc -> Prop :=
| FreshObject l fields :
    n <= l ->
    h !! l = Some (CObj fields) ->
    (forall k a, In (k, VRef a) fields ->
       n <= a /\
       ((exists items, h !! a = Some (CArr items)) \/ fresh_object n h a)) ->
    fresh_object n h l.

End Heap.

(** ** The axios layer

    A computation runs against a remote repository and leaves a trace of
    what it did: the requests it sent with the replies it got, the lines
    it wrote to the console and the delays it waited for. *)

Module Remote.
Import JsString Json Credentials.

Inductive method := GET | POST | DELETE | HEAD.

(** The [validateStatus] option of a request. *)
Inductive validate :=
| ValidateDefault       (* 200 <= status < 300 *)
| ValidateBelow500      (* status < 500 *)
| ValidateBelow400Or412 (* status < 400 || status === 412 *)
| Validate200Or404.     (* status === 200 || status === 404 *)

(** A form body is kept as the pairs appended to the [URLSearchParams];
    its [toString()] is the runtime's serialization of them. *)
Inductive body :=
| NoBody
| Form (fields : list (string * string))
| JsonBody (j : json).

Record request := {
  rq_method : method;
  rq_path : string;
  rq_query : list (string * string);
  rq_body : body;
  rq_validate : validate
}.

(** What comes back: a status with a body, or no response at all
    (refused connection, time-out of the 30 s budget, ...). *)
Inductive reply :=
| Status (code : nat) (data : json)
| NoResponse (message : string).

Record response := { status : nat; data : json }.

(** A thrown value: [name], [message] and, for an axios error raised on
    a reply, [response]. *)
Record js_error := {
  err_name : string;
  message : string;
  err_response : option response
}.

(** [new Error(msg)] *)
Definition Error (msg : string) : js_error :=
  {| err_name := "Error"; message := msg; err_response := None |}.

Definition TypeError (msg : string) : js_error :=
  {| err_name := "TypeError"; message := msg; err_response := None |}.

(** [error.response && error.response.status === code] *)
Definition has_status (e : js_error) (code : nat) : bool :=
  match err_response e with
  | Some r => Nat.eqb (status r) code
  | None => false
  end.

Inductive event :=
| Request (rq : request) (rp : reply)
| ConsoleLog (line : string)
| ConsoleWarn (line : string)
| Sleep (ms : nat).

(** The repository answers a request knowing all that happened before. *)
Definition remote := list event -> request -> reply.

Inductive outcome (A : Type) :=
| Ok (a : A)
| Throw (e : js_error).
Arguments Ok {A} a.
Arguments Throw {A} e.

Definition M (A : Type) : Type := remote -> list event -> outcome A * list event.

Definition ret {A} (a : A) : M A := fun _ t => (Ok a, t).

Definition bind {A B} (m : M A) (k : A -> M B) : M B := fun r t =>
  match m r t with
  | (Ok a, t') => k a r t'
  | (Throw e, t') => (Throw e, t')
  end.

Definition throw {A} (e : js_error) : M A := fun _ t => (Throw e, t).

(** [try { m } catch (e) { handler e }] *)
Definition try_catch {A} (m : M A) (handler : js_error -> M A) : M A :=
  fun r t =>
    match m r t with
    | (Ok a, t') => (Ok a, t')
    | (Throw e, t') => handler e r t'
    end.

Definition emit (e : event) : M unit := fun _ t => (Ok tt, t ++ [e]).

Definition console_log (line : string) : M unit := emit (ConsoleLog line).
Definition console_warn (line : string) : M unit := emit (ConsoleWarn line).

(** [await new Promise(resolve => setTimeout(resolve, ms))] *)
Definition sleep (ms : nat) : M unit := emit (Sleep ms).

Definition valid (v : validate) (s : nat) : bool :=
  match v with
  | ValidateDefault => Nat.leb 200 s && Nat.ltb s 300
  | ValidateBelow500 => Nat.ltb s 500
  | ValidateBelow400Or412 => Nat.ltb s 400 || Nat.eqb s 412
  | Validate200Or404 => Nat.eqb s 200 || Nat.eqb s 404
  end.

(** One call on [axiosInstance]: the reply is recorded; a status that
    [validateStatus] refuses, or no response, is thrown. *)
Definition axios (rq : request) : M response := fun r t =>
  let rp := r t rq in
  let t' := t ++ [Request rq rp] in
  match rp with
  | Status s d =>
      if valid (rq_validate rq) s
      then (Ok {| status := s; data := d |}, t')
      else (Throw {| err_name := "AxiosError";
                     message := "Request failed with status code " +:+ pretty s;
                     err_response := Some {| status := s; data := d |} |}, t')
  | NoResponse msg =>
      (Throw {| err_name := "AxiosError"; message := msg;
                err_response := None |}, t')
  end.

Definition run {A} (m : M A) (r : remote) : outcome A * list event := m r [].

(** [AEMClientBase]: the constructor drops one trailing slash of the
    URL; the credentials go into the defaults of the axios instance. *)
Record client := { authorUrl : string; credentials : Credentials.credentials }.

Fixpoint drop_trailing_slash (s : string) : string :=
  match s with
  | "" => ""
  | String c "" => if Ascii.eqb c "/" then "" else s
  | String c r => String c (drop_trailing_slash r)
  end.

Definition new_client (url : string) (creds : Credentials.credentials) : client :=
  {| authorUrl := drop_trailing_slash url; credentials := creds |}.

End Remote.

Notation "x <- m ;; k" := (Remote.bind m (fun x => k))
  (at level 100, m at next level, right associativity).
Notation "m ;;; k" := (Remote.bind m (fun _ => k))
  (at level 100, right associativity).

(** ** [AEMMicrositeClient] (aem-microsite-client.js) *)

Module Microsite.
Import JsString Json Credentials Sanitize Remote.

Record site_config := {
  sc_siteName : option string;
  sc_siteTitle : option string;
  sc_templatePath : option string;
  sc_parentPath : option string;
  sc_language : option string;
  sc_country : option string
}.

Record site_result := {
  sr_success : bool;
  sr_sitePath : string;
  sr_siteName : string;
  sr_siteTitle : string;
  sr_authorUrl : string;
  sr_message : string
}.

Definition standard_template : string :=
  "/conf/site-templates/settings/wcm/templates/standard-template".

Definition post_form (path : string) (fields : list (string * string)) : request :=
  {| rq_method := POST; rq_path := path; rq_query := [];
     rq_body := Form fields; rq_validate := ValidateDefault |}.

Definition createSite (this : client) (siteConfig : site_config) : M site_result :=
  try_catch
    (let siteTitle := sc_siteTitle siteConfig in
     let templatePath := default standard_template (sc_templatePath siteConfig) in
     let parentPath := default "/content" (sc_parentPath siteConfig) in
     let language := default "en" (sc_language siteConfig) in
     let country := default "US" (sc_country siteConfig) in
     if negb (truthy siteTitle) then throw (Error "siteTitle is required")
     else
       let siteName :=
         if truthy (sc_siteName siteConfig) then get (sc_siteName siteConfig)
         else derive_name (get siteTitle) in
       let sanitizedSiteName := sanitize siteName in
       let sitePath := parentPath +:+ "/" +:+ sanitizedSiteName in
       _ <- axios (post_form sitePath
               [("jcr:primaryType", "cq:Page");
                ("jcr:content/jcr:primaryType", "cq:PageContent");
                ("jcr:content/jcr:title", get siteTitle);
                ("jcr:content/cq:template", templatePath);
                ("jcr:content/sling:resourceType", "core/wcm/components/page/v3/page");
                ("jcr:content/language", language);
                ("jcr:content/country", country)]) ;;
       ret {| sr_success := true;
              sr_sitePath := sitePath;
              sr_siteName := sanitizedSiteName;
              sr_siteTitle := get siteTitle;
              sr_authorUrl := authorUrl this +:+ "/editor.html" +:+ sitePath +:+ ".html";
              sr_message := "Site created successfully" |})
    (fun error => throw (Error ("Failed to create site: " +:+ message error))).

Record page_config := {
  pc_sitePath : string;
  pc_pageName : string;
  pc_pageTitle : string;
  pc_templatePath : option string
}.

Record page_result := {
  pagePath : string;
  pageName : string;
  pageTitle : string;
  url : string
}.

Definition page_form (pageTitle templatePath : string) : list (string * string) :=
  [("jcr:primaryType", "cq:Page");
   ("jcr:content/jcr:primaryType", "cq:PageContent");
   ("jcr:content/jcr:title", pageTitle);
   ("jcr:content/cq:template", templatePath);
   ("jcr:content/sling:resourceType", "core/wcm/components/page/v3/page");
   ("jcr:content/root/jcr:primaryType", "nt:unstructured");
   ("jcr:content/root/layout", "responsiveGrid");
   ("jcr:content/root/sling:resourceType", "core/wcm/components/container/v1/container");
   ("jcr:content/root/container/jcr:primaryType", "nt:unstructured");
   ("jcr:content/root/container/sling:resourceType", "core/wcm/components/container/v1/container");
   ("jcr:content/root/container/title/jcr:primaryType", "nt:unstructured");
   ("jcr:content/root/container/title/sling:resourceType", "core/wcm/components/title/v3/title");
   ("jcr:content/root/container/teaser/jcr:primaryType", "nt:unstructured");
   ("jcr:content/root/container/teaser/sling:resourceType", "core/wcm/components/teaser/v2/teaser");
   ("jcr:content/root/container/teaser/actionsEnabled", "true");
   ("jcr:content/root/container/teaser/altValueFromDAM", "false");
   ("jcr:content/root/container/teaser/descriptionFromPage", "false");
   ("jcr:content/root/container/teaser/disableLazyLoading", "true");
   ("jcr:content/root/container/teaser/fileReference", "/content/dam/site-templates/Image@2x.png");
   ("jcr:content/root/container/teaser/imageFromPageImage", "false");
   ("jcr:content/root/container/teaser/isDecorative", "false");
   ("jcr:content/root/container/teaser/jcr:description",
    "<p>Lorem ipsum dolor sit amet, consectetur adipiscing elit, sed do eiusmod tempor incididunt ut labore et dolore magna aliqua.</p>");
   ("jcr:content/root/container/teaser/jcr:title", "This is a Teaser");
   ("jcr:content/root/container/teaser/pretitle", "Teaser");
   ("jcr:content/root/container/teaser/textIsRich", "true")].

Definition createPage (this : client) (pageConfig : page_config) : M page_result :=
  try_catch
    (let sitePath := pc_sitePath pageConfig in
     let pageName := pc_pageName pageConfig in
     let pageTitle := pc_pageTitle pageConfig in
     let templatePath :=
       default "/conf/site-templates/settings/wcm/templates/page-template"
         (pc_templatePath pageConfig) in
     let pagePath := sitePath +:+ "/" +:+ pageName in
     _ <- axios (post_form pagePath (page_form pageTitle templatePath)) ;;
     ret {| pagePath := pagePath;
            pageName := pageName;
            pageTitle := pageTitle;
            url := authorUrl this +:+ "/editor.html" +:+ pagePath +:+ ".html" |})
    (fun error => throw (Error ("Failed to create page: " +:+ message error))).

Definition delete_request (path : string) (v : validate) : request :=
  {| rq_method := DELETE; rq_path := path; rq_query := [];
     rq_body := NoBody; rq_validate := v |}.

(** The value [deleteSite] returns is not read by any caller. *)
Definition deleteSite (this : client) (sitePath : string) : M unit :=
  try_catch
    (_ <- axios (delete_request sitePath ValidateDefault) ;; ret tt)
    (fun error => throw (Error ("Failed to delete site: " +:+ message error))).

Record microsite_config := {
  mc_siteName : option string;
  mc_siteTitle : option string;
  mc_templatePath : option string;
  mc_parentPath : option string;
  mc_pages : option (list string)
}.

Record microsite_result := {
  mr_site : site_result;        (* ...siteResult, [message] apart *)
  mr_pages : list page_result;
  mr_message : string
}.

Definition default_pages : list string := ["main"; "about"; "contact"].

(** The [for (const pageName of pages)] loop with its [try]/[catch]. *)
Fixpoint create_pages (this : client) (sitePath : string)
         (pages : list string) (createdPages : list page_result)
  : M (list page_result) :=
  match pages with
  | [] => ret createdPages
  | pageName :: rest =>
      created <-
        try_catch
          (let pageTitle := capitalize pageName in
           pageResult <- createPage this
             {| pc_sitePath := sitePath; pc_pageName := pageName;
                pc_pageTitle := pageTitle; pc_templatePath := None |} ;;
           ret (createdPages ++ [pageResult]))
          (fun pageError =>
             console_warn ("Could not create page " +:+ pageName +:+ ": "
                           +:+ message pageError) ;;;
             ret createdPages) ;;
      create_pages this sitePath rest created
  end.

Definition createMicrosite (this : client) (micrositeConfig : microsite_config)
  : M microsite_result :=
  try_catch
    (let siteTitle := mc_siteTitle micrositeConfig in
     let templatePath := mc_templatePath micrositeConfig in
     let parentPath := default "/content" (mc_parentPath micrositeConfig) in
     let pages := default default_pages (mc_pages micrositeConfig) in
     let siteName :=
       if negb (truthy (mc_siteName micrositeConfig)) && truthy siteTitle
       then Some (derive_name (get siteTitle))
       else mc_siteName micrositeConfig in
     siteResult <- createSite this
       {| sc_siteName := siteName; sc_siteTitle := siteTitle;
          sc_templatePath := templatePath; sc_parentPath := Some parentPath;
          sc_language := None; sc_country := None |} ;;
     createdPages <- create_pages this (sr_sitePath siteResult) pages [] ;;
     ret {| mr_site := siteResult;
            mr_pages := createdPages;
            mr_message :=
              "Microsite created with " +:+ pretty (length createdPages)
              +:+ " pages (structure similar to /content/demo/main.html)" |})
    (fun error => throw (Error ("Failed to create microsite: " +:+ message error))).

End Microsite.

(** ** The [aem-create-microsite] tool (tools.js) *)

Module Tool.
Import JsString Json Credentials Sanitize Remote Microsite.

Inductive template_type := standard | basic.

(** The arguments of one invocation; [siteTitle] is the one the schema
    requires. *)
Record invocation := {
  siteName : option string;
  siteTitle : string;
  i_authorUrl : option string;
  username : option string;
  password : option string;
  token : option string;
  templateType : option template_type;
  pages : option (list string);
  parentPath : option string;
  overwrite : option bool
}.

(** What the handler returns; the text it renders from these is left
    out. *)
Inductive tool_reply :=
| AuthRequired (error : string)
| MicrositeCreated (result : microsite_result)
| MicrositeFailed (message : string) (siteExists : bool).

Definition template_path (t : template_type) : string :=
  match t with
  | standard => "/conf/site-templates/settings/wcm/templates/standard-template"
  | basic => "/conf/site-templates/settings/wcm/templates/basic-template"
  end.

(** [finalSiteName]: [siteName], or the name derived from a non-empty
    title when [siteName] is falsy. *)
Definition final_site_name (inv : invocation) : option string :=
  if negb (truthy (siteName inv)) && truthy (Some (siteTitle inv))
  then Some (derive_name (siteTitle inv))
  else siteName inv.

(** [sitePath]; [None] when [finalSiteName] is [undefined] and
    [finalSiteName.toLowerCase()] throws. *)
Definition site_path (inv : invocation) : option string :=
  match final_site_name inv with
  | Some n => Some (default "/content" (parentPath inv) +:+ "/" +:+ sanitize n)
  | None => None
  end.

(** The [if (overwrite) { ... }] block: [deleteSite], on failure the
    direct DELETE, and the delay when [deleted] is set. *)
Definition overwrite_existing (aemClient : client) (sitePath : string) : M unit :=
  deleted <-
    try_catch
      (_ <- deleteSite aemClient sitePath ;;
       console_log ("Deleted existing site at " +:+ sitePath) ;;;
       ret true)
      (fun deleteError =>
         try_catch
           (deleteResponse <- axios (delete_request sitePath ValidateBelow500) ;;
            if Nat.eqb (status deleteResponse) 200
               || Nat.eqb (status deleteResponse) 204
            then
              console_log ("Deleted conflicting node at " +:+ sitePath
                           +:+ " via direct DELETE") ;;;
              ret true
            else if Nat.eqb (status deleteResponse) 404
            then
              console_log ("No node found at " +:+ sitePath
                           +:+ ", proceeding with creation") ;;;
              ret true
            else
              console_warn ("DELETE returned status "
                            +:+ pretty (status deleteResponse)
                            +:+ " for " +:+ sitePath) ;;;
              ret false)
           (fun directDeleteError =>
              let isNotFound :=
                includes (message deleteError) "404"
                || includes (message deleteError) "not found"
                || has_status directDeleteError 404 in
              if negb isNotFound
              then
                console_warn ("Warning: Could not delete existing node at "
                              +:+ sitePath) ;;;
                console_warn ("  deleteSite error: " +:+ message deleteError) ;;;
                console_warn ("  direct DELETE error: "
                              +:+ message directDeleteError) ;;;
                ret false
              else ret true)) ;;
  if deleted : bool then sleep 500 else ret tt.

Definition create_microsite_tool (env : environment) (inv : invocation)
  : M tool_reply :=
  let parentPath' := default "/content" (parentPath inv) in
  try_catch
    (match getAEMCredentials env
             {| p_authorUrl := i_authorUrl inv; p_server := None;
                p_token := token inv; p_username := username inv;
                p_password := password inv |} with
     | AuthError error => ret (AuthRequired error)
     | AuthOk url creds =>
         let templatePath := template_path (default standard (templateType inv)) in
         let aemClient := new_client url creds in
         match site_path inv with
         | None =>
             throw (TypeError
               "Cannot read properties of undefined (reading 'toLowerCase')")
         | Some sitePath =>
             (if default false (overwrite inv)
              then overwrite_existing aemClient sitePath
              else ret tt) ;;;
             result <- createMicrosite aemClient
               {| mc_siteName := siteName inv;
                  mc_siteTitle := Some (siteTitle inv);
                  mc_templatePath := Some templatePath;
                  mc_parentPath := Some parentPath';
                  mc_pages := Some (default default_pages (pages inv)) |} ;;
             ret (MicrositeCreated result)
         end
     end)
    (fun error =>
       let siteExists :=
         truthy (Some (message error))
         && (includes (message error) "already exists"
             || includes (message error) "409"
             || includes (message error) "Site already exists") in
       ret (MicrositeFailed (message error) siteExists)).

End Tool.

(** ** [AEMAssetClient] (aem-asset-client.js) *)

Module Assets.
Import JsString Json Credentials Remote.

Definition get_request (path : string) : request :=
  {| rq_method := GET; rq_path := path; rq_query := [];
     rq_body := NoBody; rq_validate := ValidateDefault |}.

Definition head_request (path : string) : request :=
  {| rq_method := HEAD; rq_path := path; rq_query := [];
     rq_body := NoBody; rq_validate := ValidateDefault |}.

(** [assetPath.split('/').pop()] *)
Definition basename (path : string) : string :=
  default "" (pop (split_on "/" path)).

(** *** [searchAssets]: the body of [for (const hit of response.data.hits)] *)

Record asset_result := {
  ar_path : string;
  ar_name : string;
  ar_title : json;
  ar_metadata : json;
  ar_url : string
}.

(** [searchValue !== undefined && searchValue !== null && searchValue !== ''] *)
Definition supplied (searchValue : option string) : bool := truthy searchValue.

(** [x || {}] *)
Definition or_empty_object (x : json) : json :=
  if truthy_json x then x else JObj [].

(** [assetMetadata['dc:title'] || assetName] *)
Definition title_or_name (assetMetadata : json) (assetName : string) : json :=
  match get_prop assetMetadata "dc:title" with
  | Some t => if truthy_json t then t else JStr assetName
  | None => JStr assetName
  end.

(** The search-and-replace step on one result; [replaceValue || ''] is
    what is passed on. *)
Definition apply_replace (searchValue replaceValue : option string)
           (assetTitle assetMetadata : json) : json * json :=
  if supplied searchValue then
    let assetMetadata' :=
      Redaction.replaceValuesInMetadata (get searchValue)
        (get (or_else replaceValue (Some ""))) assetMetadata in
    match get_prop assetMetadata' "dc:title" with
    | Some t =>
        if truthy_json t then (t, assetMetadata')
        else (assetTitle, assetMetadata')
    | None => (assetTitle, assetMetadata')
    end
  else (assetTitle, assetMetadata).

Definition process_hit (this : client) (searchValue replaceValue : option string)
           (assetPath : string) : M asset_result :=
  let assetName := basename assetPath in
  fetched <-
    try_catch
      (metadataResponse <-
         axios (get_request (assetPath +:+ "/jcr:content/metadata.json")) ;;
       let assetMetadata := or_empty_object (data metadataResponse) in
       ret (title_or_name assetMetadata assetName, assetMetadata))
      (fun metadataError =>
         (if has_status metadataError 401
          then console_warn ("Warning: Could not fetch metadata for "
                             +:+ assetPath +:+ " due to authentication error")
          else ret tt) ;;;
         ret (JStr assetName, JObj [])) ;;
  let '(assetTitle, assetMetadata) :=
    apply_replace searchValue replaceValue fetched.1 fetched.2 in
  ret {| ar_path := assetPath;
         ar_name := assetName;
         ar_title := assetTitle;
         ar_metadata := assetMetadata;
         ar_url := authorUrl this +:+ assetPath |}.

(** *** [renameAsset] *)

Definition asset_root : string := "/content/dam/".

Record rename_result := {
  rn_success : bool;
  rn_oldPath : string;
  rn_newPath : string;
  rn_newName : string;
  rn_message : string
}.

Definition nonempty (s : string) : bool := negb (String.eqb s "").

Definition quote : string := String (ascii_of_N 34) "".

Definition renameAsset (this : client) (assetPath newName : string)
  : M rename_result :=
  try_catch
    (if negb (nonempty assetPath) || negb (nonempty newName)
     then throw (Error "Asset path and new name are required")
     else if negb (startsWith assetPath asset_root)
     then throw (Error "Asset path must start with /content/dam/")
     else
       let sanitizedName := basename newName in
       let pathParts := split_on "/" assetPath in
       let parentPath := join "/" (slice_init pathParts) in
       let newPath := parentPath +:+ "/" +:+ sanitizedName in
       try_catch
         (_ <- axios (head_request assetPath) ;; ret tt)
         (fun error =>
            if has_status error 404
            then throw (Error ("Asset not found at path: " +:+ assetPath))
            else throw error) ;;;
       try_catch
         (_ <- axios (head_request newPath) ;;
          throw (Error ("Asset already exists at target path: " +:+ newPath)))
         (fun error =>
            if has_status error 404 then ret tt
            else if nonempty (message error)
                    && includes (message error) "already exists"
            then throw error
            else ret tt) ;;;
       _ <- axios {| rq_method := POST; rq_path := assetPath;
                    rq_query := [(":operation", "move"); (":dest", newPath)];
                    rq_body := JsonBody (JObj []);
                    rq_validate := ValidateDefault |} ;;
       ret {| rn_success := true;
              rn_oldPath := assetPath;
              rn_newPath := newPath;
              rn_newName := sanitizedName;
              rn_message := "Asset renamed from " +:+ quote +:+ basename assetPath
                            +:+ quote +:+ " to " +:+ quote +:+ sanitizedName
                            +:+ quote |})
    (fun error => throw (Error ("Failed to rename asset: " +:+ message error))).

(** *** [updateAssetMetadata] *)

(** [String(v)]; inside an array's rendering [null] is empty. *)
Fixpoint to_string (v : json) : string :=
  match v with
  | JNull => "null"
  | JBool b => show_bool b
  | JNum r => r
  | JStr s => s
  | JArr items =>
      join ","
        ((fix each (l : list json) : list string :=
            match l with
            | [] => []
            | x :: r =>
                match x with
                | JNull => ""
                | _ => to_string x
                end :: each r
            end) items)
  | JObj _ => "[object Object]"
  end.

Fixpoint chars_of (s : string) : list json :=
  match s with
  | "" => []
  | String c r => JStr (String c "") :: chars_of r
  end.

(** The own enumerable properties that [{...x}] copies. *)
Definition spread_entries (x : json) : list (string * json) :=
  match x with
  | JObj fields => fields
  | JArr items => index_entries 0 items
  | JStr s => index_entries 0 (chars_of s)
  | _ => []
  end.

Definition assign (target : list (string * json)) (source : list (string * json))
  : list (string * json) :=
  fold_left (fun o kv => obj_set kv.1 kv.2 o) source target.

(** [{ ...existingMetadata, ...metadata }] *)
Definition shallow_merge (existingMetadata : json) (metadata : list (string * json))
  : list (string * json) :=
  assign (assign [] (spread_entries existingMetadata)) metadata.

(** The pairs appended to [formData], property by property: [null] is
    passed over, an array gives one pair per element under the same
    key, any other value its [toString()]. *)
Definition form_pairs (updatedMetadata : list (string * json)) : list (string * string) :=
  flat_map (fun kv =>
              match kv.2 with
              | JNull => []
              | JArr items => map (fun item => (kv.1, to_string item)) items
              | value => [(kv.1, to_string value)]
              end) updatedMetadata.

Record update_result := {
  up_success : bool;
  up_assetPath : string;
  up_metadata : list (string * json);
  up_message : string
}.

Definition updateAssetMetadata (this : client) (assetPath : string)
           (metadata : list (string * json)) (merge : option bool)
  : M update_result :=
  let merge := default true merge in
  try_catch
    (if negb (nonempty assetPath) || Nat.eqb (length (keys metadata)) 0
     then throw (Error "Asset path and metadata are required")
     else if negb (startsWith assetPath asset_root)
     then throw (Error "Asset path must start with /content/dam/")
     else
       try_catch
         (_ <- axios (head_request assetPath) ;; ret tt)
         (fun error =>
            if has_status error 404
            then throw (Error ("Asset not found at path: " +:+ assetPath))
            else throw error) ;;;
       existingMetadata <-
         (if merge then
            try_catch
              (metadataResponse <-
                 axios (get_request (assetPath +:+ "/jcr:content/metadata.json")) ;;
               ret (or_empty_object (data metadataResponse)))
              (fun error =>
                 match err_response error with
                 | Some r => if negb (Nat.eqb (status r) 404)
                             then throw error else ret (JObj [])
                 | None => ret (JObj [])
                 end)
          else ret (JObj [])) ;;
       let updatedMetadata :=
         if merge then shallow_merge existingMetadata metadata else metadata in
       let metadataPath := assetPath +:+ "/jcr:content/metadata" in
       _ <- axios {| rq_method := POST; rq_path := metadataPath;
                    rq_query := [];
                    rq_body := Form (form_pairs updatedMetadata);
                    rq_validate := ValidateBelow400Or412 |} ;;
       ret {| up_success := true;
              up_assetPath := assetPath;
              up_metadata := updatedMetadata;
              up_message := "Metadata updated for asset: " +:+ basename assetPath |})
    (fun error =>
       throw (Error ("Failed to update asset metadata: " +:+ message error))).

End Assets.

(** ** Protocol adapter (index.js) *)

Module Adapter.
Import JsString Json Remote.

Record ow_params := {
  __ow_method : option string;
  __ow_body : option json;               (* a string, or a parsed value *)
  __ow_headers : option (list (string * string));
  mcp_session_id : option string;          (* params['mcp-session-id'] *)
  param_LOG_LEVEL : option string          (* params.LOG_LEVEL *)
}.

Record compatible_request := {
  req_method : string;
  req_headers : list (string * option string);
  req_body : option json
}.

(** The body of a result: a text, or the value given to
    [JSON.stringify]; a member that is [undefined] is not listed. *)
Inductive result_body :=
| Text (s : string)
| Stringified (v : json).

Record http_result := {
  statusCode : nat;
  headers : list (string * string);
  body : result_body
}.

Definition E (A : Type) : Type := outcome A.

Definition ebind {A B} (m : E A) (k : A -> E B) : E B :=
  match m with
  | Ok a => k a
  | Throw e => Throw e
  end.

Definition etry {A} (m : E A) (handler : js_error -> E A) : E A :=
  match m with
  | Ok a => Ok a
  | Throw e => handler e
  end.

Definition ReferenceError (name : string) : js_error :=
  {| err_name := "ReferenceError"; message := name +:+ " is not defined";
     err_response := None |}.

(** Reading the identifier [x] where the bindings [scope] are visible. *)
Definition resolve (scope : list string) (x : string) : E unit :=
  if bool_decide (x ∈ scope) then Ok tt else Throw (ReferenceError x).

(** [s.toUpperCase()] and [s.toLowerCase()] of the method name. *)
Fixpoint toUpperCase (s : string) : string :=
  match s with
  | "" => ""
  | String c r => toUpperCase_char c +:+ toUpperCase r
  end.

Definition cors_headers : list (string * string) :=
  [("Access-Control-Allow-Origin", "*");
   ("Access-Control-Allow-Methods", "GET, POST, OPTIONS, DELETE");
   ("Access-Control-Allow-Headers",
    "Content-Type, Accept, Authorization, x-api-key, mcp-session-id, Last-Event-ID");
   ("Access-Control-Expose-Headers", "Content-Type, mcp-session-id, Last-Event-ID");
   ("Access-Control-Max-Age", "86400")].

(** The JSON-RPC error envelope [{ jsonrpc, error: { code, message,
    data }, id: null }]. *)
Definition error_envelope (code : string) (msg : string) (data : option json) : json :=
  JObj [("jsonrpc", JStr "2.0");
        ("error", JObj ([("code", JNum code); ("message", JStr msg)]
                        ++ match data with
                           | Some d => [("data", d)]
                           | None => []
                           end));
        ("id", JNull)].

Section Runtime.
(** What the adapter takes from its runtime and from the SDK:
    - [base64_utf8 s] is [Buffer.from(s, 'base64').toString('utf8')];
    - [JSON_parse] gives the value or the message of the [SyntaxError];
    - [stack_of] is [error.stack];
    - [create_server] is [createMcpServer()];
    - [exchange] is [server.connect(transport)] followed by
      [transport.handleRequest(req, res, req.body)], with what the
      response shim has captured when the exchange is over;
    - [create_logger] is [Core.Logger(...)];
    - [timestamp] is [new Date().toISOString()];
    - [env_LOG_LEVEL] is [process.env.LOG_LEVEL]. *)
Variable base64_utf8 : string -> string.
Variable JSON_parse : string -> json + string.
Variable stack_of : js_error -> string.
Variable create_server : E unit.
Variable exchange : compatible_request -> E http_result.
Variable create_logger : E unit.
Variable timestamp : string.
Variable env_LOG_LEVEL : option string.

Definition parse (s : string) : E json :=
  match JSON_parse s with
  | inl v => Ok v
  | inr msg => Throw {| err_name := "SyntaxError"; message := msg;
                        err_response := None |}
  end.

Definition parseRequestBody (params : ow_params) : E (option json) :=
  match __ow_body params with
  | None => Ok None
  | Some b =>
      if negb (truthy_json b) then Ok None
      else
        etry
          (match b with
           | JStr s =>
               etry (ebind (parse (base64_utf8 s)) (fun v => Ok (Some v)))
                    (fun e => ebind (parse s) (fun v => Ok (Some v)))
           | _ => Ok (Some b)
           end)
          (fun error =>
             Throw (Error ("Failed to parse request body: " +:+ message error)))
  end.

Definition createCompatibleRequest (params : ow_params) : E compatible_request :=
  ebind (parseRequestBody params) (fun body =>
  let ow_headers := default [] (__ow_headers params) in
  Ok {| req_method := toUpperCase (default "GET"
                        (if truthy (__ow_method params)
                         then __ow_method params else None));
        req_headers :=
          fold_left (fun o kv => obj_set kv.1 (Some kv.2) o) ow_headers
            [("content-type", Some "application/json");
             ("accept", Some "application/json, text/event-stream");
             ("mcp-session-id",
              or_else (mcp_session_id params)
                      (obj_get "mcp-session-id" ow_headers))];
        req_body := body |}).

(** The bindings visible in the [catch] block of [handleMcpRequest]:
    its own parameter, the parameter and the [let] and [const] of
    the function body, and the module's.  [req] and [res] are
    declared by [const] inside the [try] block and end with it. *)
Definition catch_scope : list string :=
  ["error"; "params"; "server"; "transport";
   "Core"; "McpServer"; "StreamableHTTPServerTransport";
   "registerTools"; "registerResources"; "registerPrompts";
   "logger"; "createMcpServer"; "parseRequestBody";
   "createCompatibleRequest"; "createCompatibleResponse";
   "handleHealthCheck"; "handleOptionsRequest"; "handleMcpRequest";
   "main"; "module"; "require"; "process"; "console"; "JSON"].

Definition handleMcpRequest (params : ow_params) : E http_result :=
  ebind create_server (fun _ =>
  etry
    (ebind (createCompatibleRequest params) (fun req => exchange req))
    (fun error =>
       (* errorDetails reads [req.body] *)
       ebind (resolve catch_scope "req") (fun _ =>
       Ok {| statusCode := 500;
             headers := [("Access-Control-Allow-Origin", "*");
                         ("Content-Type", "application/json")];
             body := Stringified
               (error_envelope "-32603"
                  ("Internal server error: " +:+ message error)
                  (if bool_decide (env_LOG_LEVEL = Some "debug")
                   then Some (JObj [("stack", JStr (stack_of error));
                                    ("name", JStr (err_name error))])
                   else None)) |}))).

Definition handleHealthCheck : http_result :=
  {| statusCode := 200;
     headers := cors_headers ++ [("Content-Type", "application/json")];
     body := Stringified
       (JObj [("status", JStr "healthy");
              ("server", JStr "my-mcp-server");
              ("version", JStr "1.0.0");
              ("description",
               JStr "Adobe I/O Runtime MCP Server using official TypeScript SDK v1.17.4");
              ("timestamp", JStr timestamp);
              ("transport", JStr "StreamableHTTP");
              ("sdk", JStr "@modelcontextprotocol/sdk")]) |}.

Definition handleOptionsRequest : http_result :=
  {| statusCode := 200; headers := cors_headers; body := Text "" |}.

Definition quote : string := String (ascii_of_N 39) "".

(** The [try] block of [main]. *)
Definition route (params : ow_params) : E http_result :=
  match create_logger with
  | Throw loggerError =>
      Ok {| statusCode := 500;
            headers := [("Content-Type", "application/json")];
            body := Stringified
              (JObj [("error",
                      JStr ("Logger creation error: "
                            +:+ message loggerError))]) |}
  | Ok _ =>
      match toLowerCase <$> __ow_method params with
      | Some "get" => Ok handleHealthCheck
      | Some "options" => Ok handleOptionsRequest
      | Some "post" => handleMcpRequest params
      | _ =>
          Ok {| statusCode := 405;
                headers := [("Access-Control-Allow-Origin", "*");
                            ("Content-Type", "application/json")];
                body := Stringified
                  (error_envelope "-32000"
                     ("Method " +:+ quote
                      +:+ default "undefined" (__ow_method params)
                      +:+ quote
                      +:+ " not allowed. Supported: GET, POST, OPTIONS")
                     None) |}
      end
  end.

Definition main (params : ow_params) : http_result :=
  match route params with
  | Ok r => r
  | Throw error =>
      {| statusCode := 500;
         headers := [("Access-Control-Allow-Origin", "*");
                     ("Content-Type", "application/json")];
         body := Stringified
           (error_envelope "-32603"
              ("Unhandled server error: " +:+ message error) None) |}
  end.

(** The members of the error of a JSON-RPC envelope. *)
Definition envelope_error (b : result_body) : option json :=
  match b with
  | Stringified v => get_prop v "error"
  | Text _ => None
  end.

Definition error_code (b : result_body) : option json :=
  match envelope_error b with
  | Some e => get_prop e "code"
  | None => None
  end.

Definition error_data (b : result_body) : option json :=
  match envelope_error b with
  | Some e => get_prop e "data"
  | None => None
  end.

(** The error data carries a stack trace. *)
Definition has_stack (b : result_body) : bool :=
  match error_data b with
  | Some d => bool_decide (is_Some (get_prop d "stack"))
  | None => false
  end.

(** The [try] block of [handleMcpRequest] throws: the body does not
    parse, or the exchange raises. *)
Definition exchange_fails (params : ow_params) : Prop :=
  exists e,
  ebind (createCompatibleRequest params) (fun req => exchange req) = Throw e.

End Runtime.

End Adapter.

(** ** [AEMMicrositeClient]: reading, probing and scaffolding *)

Module MicrositeMore.
Import JsString Json Credentials Sanitize Remote Microsite Assets.

(** *** [listSites] *)

Record site_entry := {
  se_name : string;
  se_path : string;
  se_title : json
}.

(** [value['jcr:content']?.['jcr:title'] || key] for an object [value]. *)
Definition site_title (value : json) (key : string) : json :=
  match get_prop value "jcr:content" with
  | Some content =>
      match get_prop content "jcr:title" with
      | Some title => if truthy_json title then title else JStr key
      | None => JStr key
      end
  | None => JStr key
  end.

(** The [for ... of Object.entries(response.data)] loop.  Reading a
    property of [null] throws. *)
Fixpoint list_sites_loop (parentPath : string) (entries : list (string * json))
         (sites : list site_entry) : M (list site_entry) :=
  match entries with
  | [] => ret sites
  | (key, value) :: rest =>
      if String.eqb key "jcr:primaryType"
      then list_sites_loop parentPath rest sites
      else
        match value with
        | JNull =>
            throw (TypeError
              "Cannot read properties of null (reading 'jcr:primaryType')")
        | _ =>
            match get_prop value "jcr:primaryType" with
            | Some (JStr "cq:Page") =>
                list_sites_loop parentPath rest
                  (sites ++ [ {| se_name := key;
                                 se_path := parentPath +:+ "/" +:+ key;
                                 se_title := site_title value key |} ])
            | _ => list_sites_loop parentPath rest sites
            end
        end
  end.

Definition listSites (this : client) (parentPath : option string)
  : M (list site_entry) :=
  let parentPath := default "/content" parentPath in
  try_catch
    (response <- axios (get_request (parentPath +:+ ".1.json")) ;;
     if truthy_json (data response)
     then list_sites_loop parentPath (spread_entries (data response)) []
     else ret [])
    (fun error => throw (Error ("Failed to list sites: " +:+ message error))).

(** *** [verifyPageCreated] *)

Definition probe_request (pagePath : string) : request :=
  {| rq_method := GET; rq_path := pagePath +:+ ".json"; rq_query := [];
     rq_body := NoBody; rq_validate := Validate200Or404 |}.

(** The test of one probe: status 200, a body, the page type and a
    [jcr:content]. *)
Definition page_with_content (response : response) : bool :=
  Nat.eqb (status response) 200
  && truthy_json (data response)
  && match get_prop (data response) "jcr:primaryType" with
     | Some (JStr "cq:Page") =>
         match get_prop (data response) "jcr:content" with
         | Some content => truthy_json content
         | None => false
         end
     | _ => false
     end.

(** The [for (let i = 0; i < maxRetries; i++)] loop, by the number of
    rounds still to run ([maxRetries - i]). *)
Fixpoint verify_rounds (pagePath : string) (delayMs : nat) (remaining : nat)
  : M bool :=
  match remaining with
  | 0 => ret false
  | S later =>
      found <-
        try_catch
          (response <- axios (probe_request pagePath) ;;
           ret (page_with_content response))
          (fun error => ret false) ;;
      if found : bool then ret true
      else
        (match later with
         | 0 => ret tt
         | S _ => sleep delayMs
         end) ;;;
        verify_rounds pagePath delayMs later
  end.

Definition verifyPageCreated (this : client) (pagePath : string)
           (maxRetries delayMs : option nat) : M bool :=
  verify_rounds pagePath (default 1000 delayMs) (default 5 maxRetries).

(** *** [createContentFragment] *)

(** [title.toLowerCase().replace(/\s+/g, '-').replace(/[^a-z0-9-]/g, '')] *)
Definition fragment_name (fragmentTitle : string) : string :=
  replace_g (match_class (fun c => negb (is_name_char c))) ""
    (replace_g (match_run is_space) "-" (toLowerCase fragmentTitle)).

Record fragment_config := {
  fc_fragmentTitle : option string;
  fc_fragmentPath : option string;
  fc_modelPath : option string;
  fc_fields : option (list (string * json))
}.

Record fragment_result := {
  fr_success : bool;
  fr_fragmentTitle : string;
  fr_fullPath : string;
  fr_message : string
}.

Definition createContentFragment (this : client) (fragmentConfig : fragment_config)
  : M fragment_result :=
  try_catch
    (let fragmentTitle := fc_fragmentTitle fragmentConfig in
     let fragmentPath := fc_fragmentPath fragmentConfig in
     let modelPath := fc_modelPath fragmentConfig in
     let fields := default [] (fc_fields fragmentConfig) in
     if negb (truthy fragmentTitle) || negb (truthy fragmentPath)
        || negb (truthy modelPath)
     then throw (Error "fragmentTitle, fragmentPath, and modelPath are required")
     else
       let fragmentName := fragment_name (get fragmentTitle) in
       let fullPath := get fragmentPath +:+ "/" +:+ fragmentName in
       _ <- axios (post_form fullPath
               ([("jcr:primaryType", "dam:Asset");
                 ("jcr:content/contentFragment", "true");
                 ("jcr:content/jcr:title", get fragmentTitle);
                 ("jcr:content/cq:model", get modelPath);
                 ("jcr:content/data/cq:model", get modelPath)]
                ++ map (fun kv => ("jcr:content/data/master/" +:+ kv.1,
                                   to_string kv.2)) fields)) ;;
       ret {| fr_success := true;
              fr_fragmentTitle := get fragmentTitle;
              fr_fullPath := fullPath;
              fr_message := "Content Fragment created successfully" |})
    (fun error =>
       throw (Error ("Failed to create content fragment: " +:+ message error))).

(** *** [createComponent] and what it calls *)

Record dialog_property := {
  dp_name : string;
  dp_type : string;
  dp_label : string;
  dp_required : bool
}.

Definition createDialogField (this : client) (itemsPath : string)
           (property : dialog_property) (index : nat) : M unit :=
  try_catch
    (let fieldPath := itemsPath +:+ "/field" +:+ pretty index in
     _ <- axios (post_form fieldPath
             ([("jcr:primaryType", "nt:unstructured");
               ("sling:resourceType",
                "granite/ui/components/coral/foundation/form/" +:+ dp_type property);
               ("fieldLabel", dp_label property);
               ("name", "./" +:+ dp_name property)]
              ++ if dp_required property then [("required", "true")] else [])) ;;
     ret tt)
    (fun error =>
       throw (Error ("Failed to create dialog field: " +:+ message error))).

(** The [for (let i = 0; i < properties.length; i++)] loop, from [i]. *)
Fixpoint create_fields (this : client) (itemsPath : string)
         (properties : list dialog_property) (i : nat) : M unit :=
  match properties with
  | [] => ret tt
  | prop :: rest =>
      createDialogField this itemsPath prop i ;;;
      create_fields this itemsPath rest (S i)
  end.

Definition createComponentDialog (this : client) (componentPath : string)
           (properties : list dialog_property) : M unit :=
  try_catch
    (let dialogPath := componentPath +:+ "/cq:dialog" in
     _ <- axios (post_form dialogPath
             [("jcr:primaryType", "nt:unstructured");
              ("sling:resourceType", "cq/gui/components/authoring/dialog")]) ;;
     let itemsPath := dialogPath +:+ "/content/items" in
     _ <- axios (post_form itemsPath [("jcr:primaryType", "nt:unstructured")]) ;;
     create_fields this itemsPath properties 0)
    (fun error => throw (Error ("Failed to create dialog: " +:+ message error))).

Definition dquote : string := String (ascii_of_N 34) "".
Definition newline : string := String (ascii_of_N 10) "".

Definition generateHTLTemplate (componentName : string)
           (properties : list dialog_property) : string :=
  let template :=
    "<div class=" +:+ dquote +:+ componentName +:+ dquote
    +:+ " data-sly-use.model=" +:+ dquote +:+ componentName +:+ ".js" +:+ dquote
    +:+ ">" +:+ newline in
  let template := template +:+ ("    <h2>${properties.jcr:title}</h2>" +:+ newline) in
  let template :=
    match properties with
    | [] => template
    | _ =>
        fold_left
          (fun template prop =>
             template +:+ ("    <div class=" +:+ dquote +:+ dp_name prop
                           +:+ dquote +:+ ">${properties." +:+ dp_name prop
                           +:+ "}</div>" +:+ newline))
          properties
          (template +:+ ("    <!-- Component Properties -->" +:+ newline))
    end in
  template +:+ "</div>".

Definition createFile (this : client) (filePath content : string) : M unit :=
  try_catch
    (_ <- axios (post_form filePath
             [("jcr:primaryType", "nt:file");
              ("jcr:content/jcr:primaryType", "nt:resource");
              ("jcr:content/jcr:data", content);
              ("jcr:content/jcr:mimeType", "text/html")]) ;;
     ret tt)
    (fun error => throw (Error ("Failed to create file: " +:+ message error))).

Record component_config := {
  cc_componentName : option string;
  cc_componentTitle : option string;
  cc_componentPath : option string;
  cc_componentGroup : option string;
  cc_properties : option (list dialog_property)
}.

Record component_result := {
  cr_success : bool;
  cr_componentName : string;
  cr_componentTitle : string;
  cr_fullPath : string;
  cr_message : string
}.

Definition createComponent (this : client) (componentConfig : component_config)
  : M component_result :=
  try_catch
    (let componentName := cc_componentName componentConfig in
     let componentTitle := cc_componentTitle componentConfig in
     let componentPath := cc_componentPath componentConfig in
     let componentGroup :=
       default "Custom Components" (cc_componentGroup componentConfig) in
     let properties := default [] (cc_properties componentConfig) in
     if negb (truthy componentName) || negb (truthy componentTitle)
        || negb (truthy componentPath)
     then throw (Error "componentName, componentTitle, and componentPath are required")
     else
       let sanitizedName := derive_name (get componentName) in
       let fullPath := get componentPath +:+ "/" +:+ sanitizedName in
       _ <- axios (post_form fullPath
               [("jcr:primaryType", "cq:Component");
                ("jcr:title", get componentTitle);
                ("componentGroup", componentGroup);
                ("jcr:description", get componentTitle +:+ " component")]) ;;
       (match properties with
        | [] => ret tt
        | _ => createComponentDialog this fullPath properties
        end) ;;;
       createFile this (fullPath +:+ "/" +:+ sanitizedName +:+ ".html")
         (generateHTLTemplate (get componentName) properties) ;;;
       ret {| cr_success := true;
              cr_componentName := sanitizedName;
              cr_componentTitle := get componentTitle;
              cr_fullPath := fullPath;
              cr_message :=
                "Component created successfully with dialog and HTL template" |})
    (fun error => throw (Error ("Failed to create component: " +:+ message error))).

End MicrositeMore.

(** ** [AEMAssetClient.searchAssets] *)

Module AssetSearch.
Import JsString Json Credentials Escaping Remote Assets.

(** [limit] and [offset] are numbers, carried by their [toString()]. *)
Record search_config := {
  q_query : option string;
  q_filename : option string;
  q_title : option string;
  q_damPath : option string;
  q_limit : option string;
  q_offset : option string;
  q_searchValue : option string;
  q_replaceValue : option string
}.

Record search_result := {
  sr_success : bool;
  sr_query : string + (option string * option string);
  sr_damPath : string;
  sr_total : json;
  sr_results : list asset_result;
  sr_count : nat;
  sr_limit : string;
  sr_offset : string;
  sr_message : string
}.

Definition like_property (prefix property value : string) : list (string * string) :=
  [(prefix, "jcr:content/metadata/" +:+ property);
   (prefix +:+ ".operation", "like");
   (prefix +:+ ".value", "%" +:+ escapeLikeValue value +:+ "%")].

(** The pairs appended to [params]. *)
Definition search_params (searchConfig : search_config) : list (string * string) :=
  let damPath := default "/content/dam" (q_damPath searchConfig) in
  let limit := default "50" (q_limit searchConfig) in
  let offset := default "0" (q_offset searchConfig) in
  [("type", "dam:Asset"); ("path", damPath)]
  ++ (if truthy (q_query searchConfig) then
        let query := get (q_query searchConfig) in
        [("1_group.or", "true");
         ("1_group.1_nodename", "*" +:+ escapeGlobValue query +:+ "*")]
        ++ like_property "1_group.2_property" "dc:title" query
        ++ like_property "1_group.3_property" "dc:description" query
        ++ like_property "1_group.4_property" "dc:subject" query
        ++ like_property "1_group.5_property" "product:brand" query
        ++ like_property "1_group.6_property" "product:sku" query
      else [])
  ++ (if truthy (q_filename searchConfig) then
        [("2_nodename",
          "*" +:+ escapeGlobValue (get (q_filename searchConfig)) +:+ "*")]
      else [])
  ++ (if truthy (q_title searchConfig) then
        like_property "3_property" "dc:title" (get (q_title searchConfig))
      else [])
  ++ [("p.limit", limit); ("p.offset", offset);
      ("orderby", "@jcr:content/jcr:lastModified"); ("orderby.sort", "desc")].

(** The request on [/bin/querybuilder.json?<params>]: the pairs are kept
    beside the path. *)
Definition querybuilder_request (searchConfig : search_config) : request :=
  {| rq_method := GET; rq_path := "/bin/querybuilder.json";
     rq_query := search_params searchConfig;
     rq_body := NoBody; rq_validate := ValidateDefault |}.

(** [hit.path] followed by [assetPath.split('/')]: the path has to be a
    string.  The messages are those of V8. *)
Definition path_of_hit (hit : json) : M string :=
  match hit with
  | JNull => throw (TypeError "Cannot read properties of null (reading 'path')")
  | _ =>
      match get_prop hit "path" with
      | Some (JStr assetPath) => ret assetPath
      | Some JNull =>
          throw (TypeError "Cannot read properties of null (reading 'split')")
      | None =>
          throw (TypeError "Cannot read properties of undefined (reading 'split')")
      | Some _ => throw (TypeError "assetPath.split is not a function")
      end
  end.

(** What [for (const hit of hits)] goes through: the elements of an
    array, the characters of a string; nothing else is iterable. *)
Definition iterate (hits : json) : M (list json) :=
  match hits with
  | JArr items => ret items
  | JStr s => ret (chars_of s)
  | _ => throw (TypeError "response.data.hits is not iterable")
  end.

Fixpoint search_hits (this : client) (searchValue replaceValue : option string)
         (hits : list json) (results : list asset_result)
  : M (list asset_result) :=
  match hits with
  | [] => ret results
  | hit :: rest =>
      assetPath <- path_of_hit hit ;;
      result <- process_hit this searchValue replaceValue assetPath ;;
      search_hits this searchValue replaceValue rest (results ++ [result])
  end.

(** [response.data && response.data.hits], when truthy. *)
Definition hits_of (d : json) : option json :=
  if truthy_json d then
    match get_prop d "hits" with
    | Some hits => if truthy_json hits then Some hits else None
    | None => None
    end
  else None.

(** [response.data?.total || 0] *)
Definition total_of (d : json) : json :=
  match get_prop d "total" with
  | Some total => if truthy_json total then total else JNum "0"
  | None => JNum "0"
  end.

(** [this.credentials.token], as a condition. *)
Definition uses_token (this : client) : bool :=
  match Remote.credentials this with
  | Bearer token => nonempty token
  | Basic _ _ => false
  end.

Definition lf : string := String (ascii_of_N 10) "".

Section Runtime.
(** [params_toString] is [URLSearchParams.prototype.toString];
    [light_bulb] is the character U+1F4A1 of the message, two code units
    outside U+0000..U+00FF. *)
Variable params_toString : list (string * string) -> string.
Variable light_bulb : string.

(** The message thrown on status 401. *)
Definition unauthorized_message (this : client) (searchConfig : search_config)
  : string :=
  let authMethod := if uses_token this then "Bearer token" else "username/password" in
  let queryBuilderUrl :=
    "/bin/querybuilder.json?" +:+ params_toString (search_params searchConfig) in
  let errorMessage :=
    "Failed to search assets: Request failed with status code 401" +:+ lf +:+ lf in
  let errorMessage :=
    errorMessage +:+ ("Authentication Method: " +:+ authMethod +:+ lf) in
  let errorMessage :=
    errorMessage +:+ ("Request URL: " +:+ authorUrl this +:+ queryBuilderUrl
                      +:+ lf +:+ lf) in
  let errorMessage :=
    if uses_token this then
      errorMessage
      +:+ ("Possible causes:" +:+ lf)
      +:+ ("- Bearer token has expired (tokens typically expire after 24 hours)" +:+ lf)
      +:+ ("- Token does not have required permissions/scopes" +:+ lf)
      +:+ ("- AEM Cloud Service may require username/password authentication for QueryBuilder API" +:+ lf)
      +:+ ("- Invalid or malformed token" +:+ lf +:+ lf)
      +:+ (light_bulb +:+ " Try using username/password authentication instead:" +:+ lf)
      +:+ ("   Set AEM_USERNAME and AEM_PASSWORD environment variables, or pass them as tool parameters." +:+ lf)
    else
      errorMessage
      +:+ ("Possible causes:" +:+ lf)
      +:+ ("- Invalid username or password" +:+ lf)
      +:+ ("- Account does not have required permissions" +:+ lf)
      +:+ ("- AEM instance is not accessible" +:+ lf) in
  errorMessage +:+ (lf +:+ "Network connectivity issues" +:+ lf).

Definition searchAssets (this : client) (searchConfig : search_config)
  : M search_result :=
  try_catch
    (let query := q_query searchConfig in
     let damPath := default "/content/dam" (q_damPath searchConfig) in
     let limit := default "50" (q_limit searchConfig) in
     let offset := default "0" (q_offset searchConfig) in
     let searchValue := q_searchValue searchConfig in
     let replaceValue := q_replaceValue searchConfig in
     response <-
       try_catch
         (axios (querybuilder_request searchConfig))
         (fun error =>
            if has_status error 401
            then throw (Error (unauthorized_message this searchConfig))
            else throw error) ;;
     results <-
       match hits_of (data response) with
       | Some hits =>
           items <- iterate hits ;;
           search_hits this searchValue replaceValue items []
       | None => ret []
       end ;;
     ret {| sr_success := true;
            sr_query := if truthy query then inl (get query)
                        else inr (q_filename searchConfig, q_title searchConfig);
            sr_damPath := damPath;
            sr_total := total_of (data response);
            sr_results := results;
            sr_count := length results;
            sr_limit := limit;
            sr_offset := offset;
            sr_message := "Found " +:+ pretty (length results) +:+ " asset(s)" |})
    (fun error => throw (Error ("Failed to search assets: " +:+ message error))).

End Runtime.

End AssetSearch.

(** ** The other tool handlers (tools.js)

    As for [aem-create-microsite], a handler's result is kept as data;
    the text rendered from it is left out. *)

Module Tools.
Import JsString Json Credentials Remote Microsite MicrositeMore Assets AssetSearch.

(** *** [aem-delete-site] *)

Inductive delete_reply :=
| DeletionCancelled
| DeleteAuthRequired (error : string)
| SiteDeleted (message : string)
| DeleteFailed (message : string).

(** [deleteSite] returns the message [Site deleted: <sitePath>]. *)
Definition delete_site_tool (env : environment) (sitePath : string)
           (authorUrl username password token : option string) (confirm : bool)
  : M delete_reply :=
  try_catch
    (if negb confirm then ret DeletionCancelled
     else
       match getAEMCredentials env
               {| p_authorUrl := authorUrl; p_server := None; p_token := token;
                  p_username := username; p_password := password |} with
       | AuthError error => ret (DeleteAuthRequired error)
       | AuthOk url creds =>
           let aemClient := new_client url creds in
           deleteSite aemClient sitePath ;;;
           ret (SiteDeleted ("Site deleted: " +:+ sitePath))
       end)
    (fun error => ret (DeleteFailed (message error))).

(** *** [aem-search-assets] *)

Record search_invocation := {
  s_query : option string;
  s_filename : option string;
  s_title : option string;
  s_damPath : option string;
  s_limit : option string;
  s_offset : option string;
  s_searchValue : option string;
  s_replaceValue : option string;
  s_authorUrl : option string;
  s_server : option string;
  s_username : option string;
  s_password : option string;
  s_token : option string
}.

(** [tokenHint]: the advice to switch to a user name and a password is
    added to the text. *)
Inductive search_reply :=
| SearchParameterRequired
| SearchAuthRequired (error : string)
| ReplaceValueRequired
| SearchDone (result : search_result)
| SearchFailed (message : string) (tokenHint : bool).

Section Runtime.
Variable params_toString : list (string * string) -> string.
Variable light_bulb : string.

Definition search_assets_tool (env : environment) (inv : search_invocation)
  : M search_reply :=
  try_catch
    (if negb (truthy (s_query inv)) && negb (truthy (s_filename inv))
        && negb (truthy (s_title inv))
     then ret SearchParameterRequired
     else
       match getAEMCredentials env
               {| p_authorUrl := or_else (s_authorUrl inv) (s_server inv);
                  p_server := None; p_token := s_token inv;
                  p_username := s_username inv;
                  p_password := s_password inv |} with
       | AuthError error => ret (SearchAuthRequired error)
       | AuthOk url creds =>
           if supplied (s_searchValue inv)
              && negb (bool_decide (is_Some (s_replaceValue inv)))
           then ret ReplaceValueRequired
           else
             let aemClient := new_client url creds in
             result <- searchAssets params_toString light_bulb aemClient
               {| q_query := s_query inv;
                  q_filename := s_filename inv;
                  q_title := s_title inv;
                  q_damPath := or_else (s_damPath inv) (Some "/content/dam");
                  q_limit := s_limit inv;
                  q_offset := s_offset inv;
                  q_searchValue := s_searchValue inv;
                  q_replaceValue := s_replaceValue inv |} ;;
             ret (SearchDone result)
       end)
    (fun error =>
       let isAuthError :=
         nonempty (message error) && includes (message error) "401" in
       let hasUsernamePassword :=
         truthy (AEM_USERNAME env) && truthy (AEM_PASSWORD env) in
       let isUsingToken := truthy (or_else (s_token inv) (AEM_TOKEN env)) in
       ret (SearchFailed (message error)
              (isAuthError && isUsingToken && hasUsernamePassword))).

End Runtime.

End Tools.

(** ** The request shim of the adapter: its [get] method *)

Module RequestShim.
Import JsString Json Adapter.

(** [req.get(name)]: [this.headers[name.toLowerCase()]]; a header that
    is missing and one that is [undefined] read the same. *)
Definition get (req : compatible_request) (name : string) : option string :=
  default None (obj_get (toLowerCase name) (req_headers req)).

End RequestShim.

(** ** The response shim of the adapter: [createCompatibleResponse] *)

Module ResponseShim.
Import JsString Json Remote Adapter.

(** The variables the closure holds. *)
Record shim := {
  sh_statusCode : nat;
  sh_headers : list (string * string);
  sh_body : string;
  sh_headersSent : bool
}.

Definition createCompatibleResponse : shim :=
  {| sh_statusCode := 200;
     sh_headers := cors_headers;
     sh_body := "";
     sh_headersSent := false |}.

(** The calls that change the variables; a chunk is [undefined]
    ([None]), a string ([JStr]) or another value. *)
Inductive call :=
| status (code : nat)
| setHeader (name value : string)
| writeHead (code : nat) (headerObj : option (list (string * string)))
| write (chunk : option json)
| end_ (chunk : option json)
| json_ (obj : json)
| send (data : option json).

Section Runtime.
Variable JSON_stringify : json -> string.

(** [typeof chunk === 'string' ? chunk : JSON.stringify(chunk)] *)
Definition render (chunk : json) : string :=
  match chunk with
  | JStr s => s
  | _ => JSON_stringify chunk
  end.

(** [if (chunk)] *)
Definition given (chunk : option json) : option json :=
  match chunk with
  | Some c => if truthy_json c then Some c else None
  | None => None
  end.

Definition step (s : shim) (c : call) : shim :=
  match c with
  | status code =>
      {| sh_statusCode := code; sh_headers := sh_headers s;
         sh_body := sh_body s; sh_headersSent := sh_headersSent s |}
  | setHeader name value =>
      {| sh_statusCode := sh_statusCode s;
         sh_headers := obj_set name value (sh_headers s);
         sh_body := sh_body s; sh_headersSent := sh_headersSent s |}
  | writeHead code headerObj =>
      {| sh_statusCode := code;
         sh_headers :=
           fold_left (fun o kv => obj_set kv.1 kv.2 o) (default [] headerObj)
             (fold_left (fun o kv => obj_set kv.1 kv.2 o) (sh_headers s) []);
         sh_body := sh_body s; sh_headersSent := true |}
  | write chunk =>
      {| sh_statusCode := sh_statusCode s; sh_headers := sh_headers s;
         sh_body := match given chunk with
                    | Some c => sh_body s +:+ render c
                    | None => sh_body s
                    end;
         sh_headersSent := sh_headersSent s |}
  | end_ chunk =>
      {| sh_statusCode := sh_statusCode s; sh_headers := sh_headers s;
         sh_body := match given chunk with
                    | Some c => sh_body s +:+ render c
                    | None => sh_body s
                    end;
         sh_headersSent := true |}
  | json_ obj =>
      {| sh_statusCode := sh_statusCode s;
         sh_headers := obj_set "Content-Type" "application/json" (sh_headers s);
         sh_body := JSON_stringify obj;
         sh_headersSent := true |}
  | send data =>
      {| sh_statusCode := sh_statusCode s; sh_headers := sh_headers s;
         sh_body := match given data with
                    | Some d => render d
                    | None => sh_body s
                    end;
         sh_headersSent := true |}
  end.

Definition steps (calls : list call) (s : shim) : shim := fold_left step calls s.

Definition getHeader (s : shim) (name : string) : option string :=
  obj_get name (sh_headers s).

Definition getResult (s : shim) : http_result :=
  {| statusCode := sh_statusCode s;
     headers := sh_headers s;
     body := Text (sh_body s) |}.

End Runtime.

End ResponseShim.

(** * Properties *)

(** [simpl] unfolds an append whose first argument starts with a
    constructor. *)
#[local] Arguments String.append !_ _ / : simpl nomatch.

(** ** Facts about the string operations *)

Module JsStringFacts.
Import JsString.

(** A case per code unit. *)
Ltac each_char c :=
  destruct c as [[|] [|] [|] [|] [|] [|] [|] [|]]; vm_compute; try reflexivity;
  try discriminate; auto.

(** [expand g s]: every code unit [c] of [s] replaced by [g c]. *)
Fixpoint expand (g : ascii -> string) (s : string) : string :=
  match s with
  | "" => ""
  | String c r => g c +:+ expand g r
  end.

Lemma append_nil_r (s : string) : s +:+ "" = s.
Proof. induction s; simpl; congruence. Qed.

Lemma append_assoc (a b c : string) : (a +:+ b) +:+ c = a +:+ (b +:+ c).
Proof. induction a; simpl; congruence. Qed.

Lemma length_append (a b : string) :
  String.length (a +:+ b) = String.length a + String.length b.
Proof. induction a; simpl; congruence. Qed.

(** A template without [$] is copied as it is. *)
Lemma getSubstitution_plain (m b a tpl : string) :
  forallb (fun c => negb (Ascii.eqb "$" c)) (list_ascii_of_string tpl) = true ->
  getSubstitution m b a tpl = tpl.
Proof.
  induction tpl as [|c r IH]; simpl; [reflexivity|].
  intros H. apply andb_true_iff in H as [Hc Hr].
  destruct (Ascii.eqb_spec "$" c) as [<-|Hne]; [discriminate|].
  specialize (IH Hr).
  assert (getSubstitution m b a (String c r) = String c (getSubstitution m b a r)) as E.
  { simpl. each_char c; exfalso; apply Hne; reflexivity. }
  simpl in E. rewrite E, IH. reflexivity.
Qed.

(** A class of single code units is replaced unit by unit. *)
Lemma replace_scan_class (cls : ascii -> bool) (tpl : string)
      (f : string -> string) (s before : string) :
  (forall m b a, getSubstitution m b a tpl = f m) ->
  replace_scan (match_class cls) tpl before 0 s
  = expand (fun c => if cls c then f (String c "") else String c "") s.
Proof.
  intros Hf. revert before.
  induction s as [|c r IH]; intros before; [reflexivity|].
  simpl. destruct (cls c) eqn:Hc.
  - rewrite Hf, IH. destruct r; reflexivity.
  - rewrite IH. reflexivity.
Qed.

Lemma expand_id (g : ascii -> string) (s : string) :
  (forall c, In c (list_ascii_of_string s) -> g c = String c "") ->
  expand g s = s.
Proof.
  induction s as [|c r IH]; simpl; [reflexivity|].
  intros H. rewrite (H c) by (left; reflexivity). simpl.
  rewrite IH; [reflexivity|]. intros d Hd. apply H. right. exact Hd.
Qed.

(** Where no code unit is in the class, a run never starts. *)
Lemma replace_scan_run_none (cls : ascii -> bool) (tpl s before : string) :
  forallb (fun c => negb (cls c)) (list_ascii_of_string s) = true ->
  replace_scan (match_run cls) tpl before 0 s = s.
Proof.
  revert before. induction s as [|c r IH]; intros before H.
  - reflexivity.
  - simpl in H. apply andb_true_iff in H as [Hc Hr].
    apply negb_true_iff in Hc.
    simpl. unfold match_run. simpl. rewrite Hc. rewrite IH by exact Hr.
    reflexivity.
Qed.

(** Replacing runs by a hyphen leaves a non-empty string non-empty. *)
Lemma replace_run_nonempty (cls : ascii -> bool) (s : string) :
  s <> "" -> replace_g (match_run cls) "-" s <> "".
Proof.
  destruct s as [|c r]; [congruence|]. intros _.
  unfold replace_g. simpl. unfold match_run. simpl.
  destruct (cls c); simpl; discriminate.
Qed.

End JsStringFacts.

(** ** Sanitization *)

Module SanitizeFacts.
Import JsString JsStringFacts Sanitize.

Definition hyphenate (c : ascii) : string :=
  if negb (is_name_char c) then "-" else String c "".

Lemma sanitize_expand (s : string) :
  sanitize s = expand hyphenate (replace_g (match_run is_space) "-" (toLowerCase s)).
Proof.
  unfold sanitize, replace_g.
  apply (replace_scan_class _ "-" (fun _ => "-")). reflexivity.
Qed.

Lemma name_char_lower (c : ascii) : is_name_char c = true -> lower_char c = c.
Proof. each_char c. Qed.

Lemma name_char_not_space (c : ascii) : is_name_char c = true -> is_space c = false.
Proof. each_char c. Qed.

Lemma hyphenate_name_char (c : ascii) :
  forallb is_name_char (list_ascii_of_string (hyphenate c)) = true.
Proof. each_char c. Qed.

Lemma forallb_append (p : ascii -> bool) (a b : string) :
  forallb p (list_ascii_of_string (a +:+ b))
  = forallb p (list_ascii_of_string a) && forallb p (list_ascii_of_string b).
Proof. induction a; simpl; [reflexivity|]. rewrite IHa, andb_assoc. reflexivity. Qed.

(** Every code unit of a sanitized name is in [[a-z0-9-]]. *)
Lemma sanitize_name_chars (s : string) :
  forallb is_name_char (list_ascii_of_string (sanitize s)) = true.
Proof.
  rewrite sanitize_expand.
  generalize (replace_g (match_run is_space) "-" (toLowerCase s)).
  induction s0 as [|c r IH]; simpl; [reflexivity|].
  rewrite forallb_append, hyphenate_name_char, IH. reflexivity.
Qed.

(** On a name over [[a-z0-9-]] the three steps change nothing. *)
Lemma sanitize_fixed (s : string) :
  forallb is_name_char (list_ascii_of_string s) = true -> sanitize s = s.
Proof.
  intros H. rewrite sanitize_expand.
  assert (toLowerCase s = s) as ->.
  { induction s as [|c r IH]; simpl in *; [reflexivity|].
    apply andb_true_iff in H as [Hc Hr].
    rewrite name_char_lower, IH by assumption. reflexivity. }
  unfold replace_g. rewrite replace_scan_run_none.
  - apply expand_id. intros c Hc. unfold hyphenate.
    rewrite forallb_forall in H. rewrite (H c Hc). reflexivity.
  - rewrite forallb_forall in *. intros c Hc.
    rewrite name_char_not_space; [reflexivity|]. apply H, Hc.
Qed.

Lemma sanitize_nonempty (s : string) : s <> "" -> sanitize s <> "".
Proof.
  intros H. rewrite sanitize_expand.
  assert (toLowerCase s <> "") as Hl by (destruct s; simpl; congruence).
  pose proof (replace_run_nonempty is_space _ Hl) as Hr.
  destruct (replace_g (match_run is_space) "-" (toLowerCase s)) as [|c r];
    [congruence|].
  simpl. unfold hyphenate. destruct (negb (is_name_char c)); discriminate.
Qed.

(** C3. For every string [s], sanitizing twice is sanitizing once; and
    for every [s] that is not empty after trimming, [sanitize s] matches
    [^[a-z0-9-]+$]. *)
Theorem sanitize_idempotent_and_name_pattern :
  (forall s, sanitize (sanitize s) = sanitize s) /\
  (forall s, nonempty_after_trim s = true ->
             matches_name_pattern (sanitize s) = true).
Proof.
  split.
  - intros s. apply sanitize_fixed, sanitize_name_chars.
  - intros s H. unfold matches_name_pattern.
    rewrite sanitize_name_chars, andb_true_r.
    apply negb_true_iff. apply String.eqb_neq.
    apply sanitize_nonempty. destruct s; [discriminate|congruence].
Qed.

Lemma sanitize_idempotent_and_name_pattern_witness :
  sanitize (sanitize "My Awesome Site!") = sanitize "My Awesome Site!" /\
  nonempty_after_trim " Test Site " = true /\
  matches_name_pattern (sanitize " Test Site ") = true.
Proof.
  split; [|split].
  - apply (proj1 sanitize_idempotent_and_name_pattern).
  - reflexivity.
  - apply (proj2 sanitize_idempotent_and_name_pattern). reflexivity.
Defined.

(** The examples of the specification. *)
Example sanitize_awesome : sanitize "My Awesome Site!" = "my-awesome-site-".
Proof. reflexivity. Qed.

Example derive_test_site : sanitize (derive_name "Test Site") = "test-site".
Proof. reflexivity. Qed.

End SanitizeFacts.

(** ** Predicate escaping *)

Module EscapingFacts.
Import JsString JsStringFacts Escaping.

(** A backslash before the code units of [special], the others as they
    are. *)
Definition backslash_before (special : list ascii) (s : string) : string :=
  expand (fun c => if bool_decide (c ∈ special)
                   then String "\" (String c "") else String c "") s.

Lemma char_in_elem_of (cls : list ascii) (c : ascii) :
  char_in cls c = bool_decide (c ∈ cls).
Proof.
  unfold char_in. induction cls as [|d r IH]; cbn [existsb].
  - symmetry. apply bool_decide_eq_false_2. inversion 1.
  - rewrite IH. destruct (Ascii.eqb_spec c d) as [->|Hne]; cbn [orb].
    + symmetry. apply bool_decide_eq_true_2. left.
    + destruct (decide (c ∈ r)) as [Hin|Hnin].
      * rewrite !bool_decide_eq_true_2; [reflexivity|by right|done].
      * rewrite !bool_decide_eq_false_2; [reflexivity| |done].
        intros Hc. apply elem_of_cons in Hc as [?|?]; congruence.
Qed.

Lemma escape_template_subst (m b a : string) :
  getSubstitution m b a escape_template = String "\" m.
Proof. unfold escape_template. simpl. rewrite append_nil_r. reflexivity. Qed.

Lemma replace_escape (special : list ascii) (s : string) :
  replace_g (match_class (char_in special)) escape_template s
  = backslash_before special s.
Proof.
  unfold replace_g, backslash_before.
  rewrite (replace_scan_class _ _ (fun m => String "\" m))
    by apply escape_template_subst.
  induction s as [|c r IH]; simpl; [reflexivity|].
  rewrite IH, char_in_elem_of. reflexivity.
Qed.

Lemma escapeGlobValue_spec (s : string) :
  escapeGlobValue s = backslash_before glob_special s.
Proof.
  unfold escapeGlobValue. destruct (String.eqb_spec s "") as [->|_];
    [reflexivity|apply replace_escape].
Qed.

Lemma escapeLikeValue_spec (s : string) :
  escapeLikeValue s = backslash_before like_special s.
Proof.
  unfold escapeLikeValue. destruct (String.eqb_spec s "") as [->|_];
    [reflexivity|apply replace_escape].
Qed.

Lemma escapeRegex_spec (s : string) :
  escapeRegex s = backslash_before regex_special s.
Proof.
  unfold escapeRegex. destruct (String.eqb_spec s "") as [->|_];
    [reflexivity|apply replace_escape].
Qed.

(** C6. The glob escaper puts a backslash before exactly the code units
    \ * ? [ ] { } and the LIKE escaper before exactly \ % _; every other
    code unit is copied.  ["50%_off"] LIKE-escaped has its wildcards
    escaped and is untouched by the glob escaper; ["a[1].png"]
    glob-escaped has its brackets escaped and is untouched by the LIKE
    escaper. *)
Theorem escapers_have_independent_alphabets :
  (forall s, escapeGlobValue s
             = backslash_before ["\"; "*"; "?"; "["; "]"; "{"; "}"]%char s) /\
  (forall s, escapeLikeValue s
             = backslash_before ["\"; "%"; "_"]%char s) /\
  escapeLikeValue "50%_off" = "50\%\_off" /\
  escapeGlobValue "a[1].png" = "a\[1\].png" /\
  escapeGlobValue "50%_off" = "50%_off" /\
  escapeLikeValue "a[1].png" = "a[1].png".
Proof.
  split; [exact escapeGlobValue_spec|].
  split; [exact escapeLikeValue_spec|].
  repeat split; reflexivity.
Qed.

#[local] Arguments char_in : simpl never.

(** The pattern built from an escaped value reads back as the value. *)
Lemma literal_of_escapeRegex (s : string) :
  literal_of_pattern (escapeRegex s) = Some s.
Proof.
  rewrite escapeRegex_spec. unfold backslash_before.
  induction s as [|c r IH]; [reflexivity|].
  cbn [expand]. rewrite <- char_in_elem_of.
  destruct (char_in regex_special c) eqn:Hc.
  - simpl. change (Ascii.eqb "\" backslash) with true. cbv iota.
    rewrite Hc, IH. reflexivity.
  - simpl. rewrite Hc.
    destruct (Ascii.eqb_spec c backslash) as [->|_]; [discriminate Hc|].
    rewrite IH. reflexivity.
Qed.

Lemma RegExp_gi_escapeRegex (s : string) :
  RegExp_gi (escapeRegex s) = match_literal_ci s.
Proof. unfold RegExp_gi. rewrite literal_of_escapeRegex. reflexivity. Qed.

End EscapingFacts.

(** ** Credential resolver *)

Module CredentialsFacts.
Import JsString Credentials.

Section Resolve.
Variables (env : environment) (params : cred_params).

Definition endpoint : string :=
  get (or_else (p_authorUrl params)
         (or_else (p_server params)
            (or_else (AEM_AUTHOR_URL env) (Some default_author_url)))).
Definition token_available : bool :=
  truthy (or_else (p_token params) (AEM_TOKEN env)).
Definition username_present : bool :=
  truthy (or_else (p_username params) (AEM_USERNAME env)).
Definition password_present : bool :=
  truthy (or_else (p_password params) (AEM_PASSWORD env)).
Definition managed_cloud : bool := includes endpoint "adobeaemcloud.com".

(** The first branch of the resolver is taken. *)
Definition basic_selected : bool :=
  username_present && password_present
  && (managed_cloud || negb token_available).

Lemma missing_env_vars_exact (v : string) :
  In v (missing_env_vars env) <->
  (v = "AEM_TOKEN" /\ truthy (AEM_TOKEN env) = false) \/
  (v = "AEM_USERNAME" /\ truthy (AEM_USERNAME env) = false) \/
  (v = "AEM_PASSWORD" /\ truthy (AEM_PASSWORD env) = false).
Proof.
  unfold missing_env_vars.
  destruct (truthy (AEM_TOKEN env)), (truthy (AEM_USERNAME env)),
    (truthy (AEM_PASSWORD env)); simpl; intuition congruence.
Qed.


End Resolve.

Definition no_env : environment :=
  {| AEM_AUTHOR_URL := None; AEM_TOKEN := None; AEM_USERNAME := None;
     AEM_PASSWORD := None; LOG_LEVEL := None |}.

Definition admin_params : cred_params :=
  {| p_authorUrl := None; p_server := None; p_token := Some "t0k";
     p_username := Some "admin"; p_password := Some "secret" |}.

Definition token_params : cred_params :=
  {| p_authorUrl := Some "http://localhost:4502"; p_server := None;
     p_token := Some "t0k"; p_username := Some "admin"; p_password := None |}.

Definition no_params : cred_params :=
  {| p_authorUrl := None; p_server := None; p_token := None;
     p_username := Some "admin"; p_password := None |}.


End CredentialsFacts.

(** ** Search-and-replace on JSON trees *)

Module RedactionFacts.
Import JsString JsStringFacts Escaping EscapingFacts Json Redaction.

(** *** The scan of a literal, case-insensitive pattern *)

Lemma prefix_ci_length (lit s : string) :
  prefix_ci lit s = true -> String.length lit <= String.length s.
Proof.
  revert s. induction lit as [|a l IH]; intros [|b s] H; simpl in *;
    try lia; try discriminate.
  apply andb_true_iff in H as [_ H]. apply IH in H. lia.
Qed.

Lemma prefix_ci_app (lit m rest : string) :
  String.length m = String.length lit ->
  prefix_ci lit (m +:+ rest) = prefix_ci lit m.
Proof.
  revert m. induction lit as [|a l IH]; intros [|b m] H; simpl in *;
    try discriminate; try reflexivity.
  rewrite IH by lia. reflexivity.
Qed.

(** Passing the [k] code units left of a match. *)
Lemma replace_scan_skip (mt : matcher) (tpl : string) (k : nat) :
  forall r before, k <= String.length r ->
    exists m rest before',
      r = m +:+ rest /\ String.length m = k /\
      replace_scan mt tpl before k r = replace_scan mt tpl before' 0 rest.
Proof.
  induction k as [|k IH]; intros r before Hk.
  - exists "", r, before. auto.
  - destruct r as [|c r]; simpl in Hk; [lia|].
    destruct (IH r (before +:+ String c "") ltac:(lia))
      as (m & rest & b' & -> & Hm & E).
    exists (String c m), rest, b'. simpl. auto.
Qed.

Definition plain (tpl : string) : Prop :=
  forallb (fun c => negb (Ascii.eqb "$" c)) (list_ascii_of_string tpl) = true.

Lemma replace_scan_literal (lit tpl : string) (n : nat) :
  lit <> "" -> plain tpl ->
  forall s before, String.length s <= n ->
    ci_replaced lit tpl s
      (replace_scan (match_literal_ci lit) tpl before 0 s).
Proof.
  intros Hlit Hplain. induction n as [|n IH]; intros s before Hn.
  - destruct s; simpl in Hn; [|lia].
    destruct lit; [congruence|]. simpl. constructor.
  - destruct s as [|c r].
    + destruct lit; [congruence|]. simpl. constructor.
    + cbn [replace_scan]. unfold match_literal_ci at 1.
      destruct (prefix_ci lit (String c r)) eqn:Hp.
      * destruct lit as [|a l]; [congruence|]. cbn [String.length].
        rewrite getSubstitution_plain by exact Hplain.
        pose proof (prefix_ci_length _ _ Hp) as Hlen. simpl in Hlen, Hn.
        destruct (replace_scan_skip (match_literal_ci (String a l)) tpl
                    (String.length l) r (before +:+ String c "") ltac:(lia))
          as (m & rest & b' & -> & Hm & ->).
        change (String c (m +:+ rest)) with (String c m +:+ rest).
        apply ci_hit.
        -- simpl. lia.
        -- rewrite <- Hp.
           change (String c (m +:+ rest)) with (String c m +:+ rest).
           symmetry. apply prefix_ci_app. simpl. lia.
        -- apply IH. rewrite length_append in Hn. lia.
      * apply ci_copy; [exact Hp|]. apply IH. simpl in Hn. lia.
Qed.

(** For a non-empty [searchValue] and a [replaceValue] without [$],
    [replace_value] is the global case-insensitive replacement. *)
Lemma replace_value_ci_replaced (sv rv s : string) :
  sv <> "" -> has_dollar rv = false ->
  ci_replaced sv rv s (replace_value sv rv s).
Proof.
  intros Hsv Hrv. unfold replace_value, replace_g.
  rewrite RegExp_gi_escapeRegex.
  apply (replace_scan_literal sv rv (String.length s)); [exact Hsv| |lia].
  unfold plain. unfold has_dollar in Hrv.
  induction (list_ascii_of_string rv) as [|c l IH]; simpl in *; [reflexivity|].
  apply orb_false_iff in Hrv as [-> Hl]. simpl. apply IH, Hl.
Qed.

(** *** The loop over the entries *)

Lemma obj_set_fresh {A} (k : string) (v : A) (o : list (string * A)) :
  k ∉ keys o -> obj_set k v o = o ++ [(k, v)].
Proof.
  unfold keys. induction o as [|[k' v'] o IH]; simpl; intros H; [reflexivity|].
  apply not_elem_of_cons in H as [Hne Hnin].
  destruct (String.eqb_spec k' k) as [->|_]; [congruence|].
  rewrite IH by exact Hnin. reflexivity.
Qed.

(** Assigning distinct new names one after the other appends them. *)
Lemma assign_distinct {A B} (f : B -> A) (entries : list (string * B))
      (replaced : list (string * A)) :
  NoDup (keys replaced ++ keys entries) ->
  fold_left (fun o kv => obj_set kv.1 (f kv.2) o) entries replaced
  = replaced ++ map (fun kv => (kv.1, f kv.2)) entries.
Proof.
  revert replaced. induction entries as [|[k v] r IH]; intros replaced H; simpl.
  - rewrite app_nil_r. reflexivity.
  - simpl in H. apply NoDup_app in H as (Hr & Hdis & Hkr).
    apply NoDup_cons in Hkr as [Hk Hrr].
    rewrite obj_set_fresh.
    + rewrite IH.
      * rewrite <- app_assoc. reflexivity.
      * unfold keys in *. rewrite fmap_app. simpl. rewrite <- app_assoc. simpl.
        apply NoDup_app. split; [exact Hr|]. split.
        -- intros x Hx. specialize (Hdis x Hx). exact Hdis.
        -- apply NoDup_cons. split; assumption.
    + intros Hin. apply (Hdis k Hin). left.
Qed.

Section Replace.
Variables searchValue replaceValue : string.

Local Abbreviation rvm := (replaceValuesInMetadata searchValue replaceValue).

(** The value stored for one property. *)
Definition replaced_value (value : json) : json :=
  match value with
  | JStr s => JStr (replace_value searchValue replaceValue s)
  | JArr items => JArr (map (replace_item searchValue replaceValue) items)
  | JObj _ => rvm value
  | _ => value
  end.

Lemma rvm_object (fields : list (string * json)) :
  rvm (JObj fields)
  = JObj (fold_left (fun o kv => obj_set kv.1 (replaced_value kv.2) o) fields []).
Proof.
  cbn [replaceValuesInMetadata]. f_equal.
  generalize (@nil (string * json)).
  induction fields as [|[k v] r IH]; intros acc; [reflexivity|].
  cbn [fold_left fst snd]. rewrite <- IH. reflexivity.
Qed.

Lemma rvm_object_distinct (fields : list (string * json)) :
  NoDup (keys fields) ->
  rvm (JObj fields) = JObj (map (fun kv => (kv.1, replaced_value kv.2)) fields).
Proof.
  intros H. rewrite rvm_object, assign_distinct; [reflexivity|exact H].
Qed.

(** The fields of a well-formed object. *)
Lemma wf_object (fields : list (string * json)) :
  wf (JObj fields) = true ->
  NoDup (keys fields) /\ Forall (fun kv => wf kv.2 = true) fields.
Proof.
  cbn [wf]. intros H. apply andb_true_iff in H as [Hd Hall].
  split; [apply bool_decide_eq_true in Hd; exact Hd|].
  clear Hd. induction fields as [|[k v] r IH]; constructor.
  - apply andb_true_iff in Hall as [Hv _]. exact Hv.
  - apply IH. apply andb_true_iff in Hall as [_ Hr]. exact Hr.
Qed.

(** On a well-formed object the code computes the object-leaf
    rewriting. *)
Lemma rvm_rewrite_object_leaves (n : nat) :
  forall fields, depth (JObj fields) <= n -> wf (JObj fields) = true ->
    rvm (JObj fields)
    = rewrite_object_leaves searchValue replaceValue (JObj fields).
Proof.
  induction n as [|n IH]; intros fields Hd Hwf.
  - cbn [depth] in Hd. lia.
  - apply wf_object in Hwf as [Hnd Hall].
    rewrite rvm_object_distinct by exact Hnd.
    cbn [rewrite_object_leaves]. f_equal.
    cbn [depth] in Hd. apply le_S_n in Hd.
    clear Hnd. induction fields as [|[k v] r IHr]; [reflexivity|].
    apply Forall_cons in Hall as [Hv Hr].
    cbn [map fst snd]. f_equal.
    + f_equal. destruct v; try reflexivity.
      cbn [replaced_value]. apply IH; [lia|exact Hv].
    + apply IHr; [lia|exact Hr].
Qed.

End Replace.

End RedactionFacts.

(** ** Search-and-replace in [searchAssets] *)

Module SearchFacts.
Import JsString Json Credentials Redaction RedactionFacts Remote Assets.

(** The metadata the loop body holds after its fetch: the body of a
    2xx reply, or the empty object. *)
Definition fetched_metadata (rem : remote) (t : list event) (assetPath : string)
  : json :=
  match rem t (get_request (assetPath +:+ "/jcr:content/metadata.json")) with
  | Status s d => if valid ValidateDefault s then or_empty_object d else JObj []
  | NoResponse _ => JObj []
  end.

Lemma process_hit_replaces (this : client) (searchValue replaceValue : option string)
      (assetPath : string) (rem : remote) (t : list event) :
  supplied searchValue = true ->
  exists r t',
    process_hit this searchValue replaceValue assetPath rem t = (Ok r, t') /\
    ar_metadata r
    = replaceValuesInMetadata (get searchValue)
        (get (or_else replaceValue (Some ""))) (fetched_metadata rem t assetPath) /\
    forall title,
      get_prop (ar_metadata r) "dc:title" = Some title ->
      truthy_json title = true -> ar_title r = title.
Proof.
  intros Hs. unfold process_hit, fetched_metadata, bind, try_catch, axios, ret.
  destruct (rem t (get_request (assetPath +:+ "/jcr:content/metadata.json")))
    as [s d|msg].
  - destruct (valid ValidateDefault s) eqn:Hv.
    + cbn [rq_validate get_request]. rewrite Hv. cbn [fst snd data].
      unfold apply_replace. rewrite Hs.
      destruct (get_prop _ "dc:title") as [ttl|] eqn:Ht.
      * destruct (truthy_json ttl) eqn:Htt; eexists _, _;
          (split; [reflexivity|]); cbn [ar_metadata ar_title];
          (split; [reflexivity|]); intros title E; rewrite Ht in E;
          injection E as <-; congruence.
      * eexists _, _. split; [reflexivity|]. cbn [ar_metadata ar_title].
        split; [reflexivity|]. rewrite Ht. discriminate.
    + cbn [rq_validate get_request]. rewrite Hv.
      unfold console_warn, emit.
      destruct (has_status _ 401); cbn [fst snd];
        unfold apply_replace; rewrite Hs;
        eexists _, _; (split; [reflexivity|]); cbn [ar_metadata ar_title];
        (split; [reflexivity|]); discriminate.
  - unfold console_warn, emit. cbn [has_status err_response fst snd].
    unfold apply_replace. rewrite Hs.
    eexists _, _. split; [reflexivity|]. cbn [ar_metadata ar_title].
    split; [reflexivity|]. discriminate.
Qed.

Definition tagged_metadata : json :=
  JObj [("dc:title", JStr "Ford Focus");
        ("tags", JArr [JStr "ford"; JObj [("name", JStr "Ford")]])].



Definition search_client : client :=
  new_client "http://localhost:4502/" (Credentials.Basic "admin" "admin").

(** A repository that answers every request with one metadata node. *)
Definition ford_remote : remote := fun _ _ =>
  Status 200 (JObj [("dc:title", JStr "Ford Focus, ford van")]).


(** Two behaviours the amended statement leaves aside. *)

(** [replaceValue] is read as a replacement pattern: [$&] is the match. *)
Example dollar_ampersand_is_the_match :
  Escaping.replace_value "ford" "[$&]" "Ford Focus, ford van"
  = "[Ford] Focus, [ford] van".
Proof. reflexivity. Qed.

Definition ford_title_remote : remote := fun _ _ =>
  Status 200 (JObj [("dc:title", JStr "Ford")]).

(** A title the replacement empties is falsy: the result keeps the title
    read before the replacement. *)
Example emptied_title_is_not_refreshed :
  exists r t',
    process_hit search_client (Some "ford") None "/content/dam/a.png"
      ford_title_remote [] = (Ok r, t') /\
    ar_metadata r = JObj [("dc:title", JStr "")] /\
    ar_title r = JStr "Ford".
Proof. eexists _, _. repeat split. Qed.

End SearchFacts.

(** ** [replaceValuesInMetadata] on the store: frame and freshness *)

Module HeapFacts.
Import JsString Escaping Json Heap.

(** [h'] is [h] with further cells after it. *)
Definition extends (h h' : heap) : Prop := exists ext, h' = h ++ ext.

Lemma extends_refl (h : heap) : extends h h.
Proof. exists []. rewrite app_nil_r. reflexivity. Qed.

Lemma extends_trans (h1 h2 h3 : heap) :
  extends h1 h2 -> extends h2 h3 -> extends h1 h3.
Proof. intros [e1 ->] [e2 ->]. exists (e1 ++ e2). symmetry. apply app_assoc. Qed.

Lemma extends_lookup (h h' : heap) (l : loc) (c : cell) :
  extends h h' -> h !! l = Some c -> h' !! l = Some c.
Proof. intros [e ->] H. apply lookup_app_l_Some. exact H. Qed.

(** Writing a property of an object beyond [h0] keeps [h0]. *)
Lemma extends_set_prop (h0 h : heap) (o : loc) (k : string) (v : val) :
  length h0 <= o -> extends h0 h -> extends h0 (set_prop o k v h).
Proof.
  intros Ho [e ->]. unfold set_prop.
  destruct ((h0 ++ e) !! o) as [[fields|items]|]; try (eexists; reflexivity).
  rewrite insert_app_r_alt by exact Ho. eexists. reflexivity.
Qed.

Lemma set_prop_other (o l : loc) (k : string) (v : val) (h : heap) :
  l <> o -> set_prop o k v h !! l = h !! l.
Proof.
  intros Hne. unfold set_prop. destruct (h !! o) as [[?|?]|]; try reflexivity.
  apply list_lookup_insert_ne. congruence.
Qed.

Lemma set_prop_same (o : loc) (k : string) (v : val) (h : heap)
      (fields : list (string * val)) :
  h !! o = Some (CObj fields) ->
  set_prop o k v h !! o = Some (CObj (obj_set k v fields)).
Proof.
  intros H. unfold set_prop. rewrite H.
  apply list_lookup_insert_eq. apply lookup_lt_Some in H. exact H.
Qed.

Lemma in_obj_set {A} (k k' : string) (v x : A) (o : list (string * A)) :
  In (k', x) (obj_set k v o) -> (k' = k /\ x = v) \/ In (k', x) o.
Proof.
  induction o as [|[k0 v0] o IH]; simpl.
  - intros [E|[]]. injection E as <- <-. auto.
  - destruct (String.eqb_spec k0 k) as [->|Hne]; simpl.
    + intros [E|H]; [injection E as <- <-; auto|auto].
    + intros [E|H]; [auto|]. destruct (IH H); auto.
Qed.

(** *** Fresh objects stay fresh while the store grows *)

(** The cells from [m] on are kept. *)
Definition stable_from (m : nat) (h h' : heap) : Prop :=
  forall l c, m <= l -> h !! l = Some c -> h' !! l = Some c.

Lemma stable_from_extends (m : nat) (h h' : heap) :
  extends h h' -> stable_from m h h'.
Proof. intros He l c _ H. eapply extends_lookup; eassumption. Qed.

Lemma stable_from_set_prop (m : nat) (o : loc) (k : string) (v : val) (h : heap) :
  o < m -> stable_from m h (set_prop o k v h).
Proof. intros Ho l c Hl H. rewrite set_prop_other by lia. exact H. Qed.

Lemma fresh_object_stable (m : nat) (h h' : heap) (l : loc) :
  fresh_object m h l -> stable_from m h h' -> fresh_object m h' l.
Proof.
  intros Hf Hs. revert l Hf. fix IH 2.
  intros l [l' fields Hl Hc Hfields].
  apply (FreshObject m h' l' fields Hl (Hs _ _ Hl Hc)).
  intros k a Hin. destruct (Hfields k a Hin) as [Ha [[items Harr]|Hobj]].
  - split; [exact Ha|]. left. exists items. apply Hs; assumption.
  - split; [exact Ha|]. right. apply IH, Hobj.
Qed.

Lemma fresh_object_weaken (n m : nat) (h : heap) (l : loc) :
  n <= m -> fresh_object m h l -> fresh_object n h l.
Proof.
  intros Hnm. revert l. fix IH 2.
  intros l [l' fields Hl Hc Hfields].
  apply (FreshObject n h l' fields ltac:(lia) Hc).
  intros k a Hin. destruct (Hfields k a Hin) as [Ha [Harr|Hobj]].
  - split; [lia|]. left. exact Harr.
  - split; [lia|]. right. apply IH, Hobj.
Qed.

(** *** The loop keeps the old store and builds a fresh object *)

Section Replace.
Variables searchValue replaceValue : string.

Local Abbreviation rvm := (replaceValuesInMetadata searchValue replaceValue).
Local Abbreviation rloop := (loop searchValue replaceValue).

(** What a call promises: the store it was given is a prefix of the
    store it returns, and for an object or array it returns the next
    free location, holding a fresh object. *)
Definition call_spec (self : heap -> val -> option (heap * val)) : Prop :=
  forall h v h' v', self h v = Some (h', v') ->
    extends h h' /\
    (forall l, v = VRef l ->
       v' = VRef (length h) /\ fresh_object (length h) h' (length h)) /\
    ((forall l, v <> VRef l) -> h' = h /\ v' = v).

(** The object under construction at [replaced]. *)
Definition built (replaced : loc) (h : heap) : Prop :=
  exists fields, h !! replaced = Some (CObj fields) /\
    forall k a, In (k, VRef a) fields ->
      replaced < a /\
      ((exists items, h !! a = Some (CArr items)) \/
       fresh_object (S replaced) h a).

Definition value_ok (replaced : loc) (h : heap) (v : val) : Prop :=
  forall a, v = VRef a ->
    replaced < a /\
    ((exists items, h !! a = Some (CArr items)) \/
     fresh_object (S replaced) h a).

Lemma built_set_prop (replaced : loc) (h h1 : heap) (key : string) (v : val) :
  built replaced h -> extends h h1 -> value_ok replaced h1 v ->
  built replaced (set_prop replaced key v h1).
Proof.
  intros (fields & Hc & Hf) He Hv.
  pose proof (extends_lookup _ _ _ _ He Hc) as Hc1.
  exists (obj_set key v fields). split; [apply set_prop_same, Hc1|].
  assert (stable_from (S replaced) h1 (set_prop replaced key v h1)) as Hs2
      by (apply stable_from_set_prop; lia).
  assert (forall a, replaced < a ->
            (exists items, h1 !! a = Some (CArr items)) \/
            fresh_object (S replaced) h1 a ->
            (exists items, set_prop replaced key v h1 !! a = Some (CArr items)) \/
            fresh_object (S replaced) (set_prop replaced key v h1) a) as Hmove.
  { intros a Ha [[items Hi]|Hfo].
    - left. exists items. apply Hs2; [lia|exact Hi].
    - right. eapply fresh_object_stable; eassumption. }
  intros k a Hin. apply in_obj_set in Hin as [[-> <-]|Hin].
  - destruct (Hv a eq_refl) as [Ha Hok]. split; [exact Ha|]. apply Hmove; assumption.
  - destruct (Hf k a Hin) as [Ha Hok]. split; [exact Ha|]. apply Hmove; [exact Ha|].
    destruct Hok as [[items Hi]|Hfo].
    + left. exists items. eapply extends_lookup; eassumption.
    + right. eapply fresh_object_stable; [exact Hfo|].
      apply stable_from_extends, He.
Qed.

Lemma loop_spec (self : heap -> val -> option (heap * val)) (h0 : heap) :
  call_spec self ->
  forall entries h h',
    extends h0 h -> built (length h0) h ->
    rloop self (length h0) entries h = Some h' ->
    extends h0 h' /\ built (length h0) h'.
Proof.
  intros Hself. induction entries as [|[key value] rest IH]; intros h h' He Hb Hrun.
  - injection Hrun as <-. auto.
  - assert (length h0 < length h) as Hlt.
    { destruct Hb as (fields & Hc & _). apply lookup_lt_Some in Hc. exact Hc. }
    assert (forall v, value_ok (length h0) h v ->
              rloop self (length h0) rest (set_prop (length h0) key v h) = Some h' ->
              extends h0 h' /\ built (length h0) h') as Hplain.
    { intros v Hv Hr. eapply IH; [| |exact Hr].
      - apply extends_set_prop; [lia|exact He].
      - apply (built_set_prop _ h); [exact Hb|apply extends_refl|exact Hv]. }
    cbn [loop] in Hrun.
    destruct value as [| |b|r|s|a];
      try (refine (Hplain _ _ Hrun); intros a' E; discriminate E).
    destruct (h !! a) as [[fields|items]|] eqn:Ha; [| |discriminate].
    + destruct (self h (VRef a)) as [[h1 v]|] eqn:Hcall; [|discriminate].
      destruct (Hself _ _ _ _ Hcall) as (He1 & Hres & _).
      destruct (Hres a eq_refl) as [-> Hfo].
      eapply IH; [| |exact Hrun].
      * apply extends_set_prop; [lia|]. eapply extends_trans; eassumption.
      * apply (built_set_prop _ h); [exact Hb|exact He1|].
        intros a' E. injection E as <-. split; [exact Hlt|]. right.
        eapply fresh_object_weaken; [|exact Hfo]. lia.
    + cbn [alloc] in Hrun.
      eapply IH; [| |exact Hrun].
      * apply extends_set_prop; [lia|].
        eapply extends_trans; [exact He|]. eexists. reflexivity.
      * apply (built_set_prop _ h); [exact Hb|eexists; reflexivity|].
        intros a' E. injection E as <-. split; [exact Hlt|]. left.
        eexists. apply list_lookup_middle. reflexivity.
Qed.

Lemma rvm_call_spec (fuel : nat) : call_spec (rvm fuel).
Proof.
  induction fuel as [|n IH]; intros h v h' v' Hrun; [discriminate|].
  cbn [replaceValuesInMetadata] in Hrun.
  destruct v as [| |b|r|s|l];
    try (injection Hrun as <- <-; split; [apply extends_refl|];
         split; [intros l E; discriminate E|auto]).
  destruct (h !! l) as [c|] eqn:Hl; [|discriminate].
  cbn [alloc] in Hrun.
  destruct (rloop (rvm n) (length h) (entries_of c) (h ++ [CObj []]))
    as [h2|] eqn:Hloop; [|discriminate].
  injection Hrun as <- <-.
  destruct (loop_spec (rvm n) h IH _ _ _ ltac:(eexists; reflexivity)
              ltac:(exists []; split;
                    [apply list_lookup_middle; reflexivity|intros k a []])
              Hloop) as [He (fields & Hc & Hf)].
  split; [exact He|]. split.
  - intros l' _. split; [reflexivity|].
    apply (FreshObject _ _ _ fields (le_n _) Hc).
    intros k a Hin. destruct (Hf k a Hin) as [Ha [Harr|Hobj]].
    + split; [lia|]. left. exact Harr.
    + split; [lia|]. right. eapply fresh_object_weaken; [|exact Hobj]. lia.
  - intros Hn. exfalso. apply (Hn l). reflexivity.
Qed.

End Replace.

End HeapFacts.

(** ** The store-level function computes the tree-level one *)

Module HeapRefinement.
Import JsString Escaping Json Heap HeapFacts.

(** Induction on a JSON value with the hypothesis for every element and
    every property value. *)
Lemma json_nested_ind (P : json -> Prop) :
  P JNull -> (forall b, P (JBool b)) -> (forall r, P (JNum r)) ->
  (forall s, P (JStr s)) ->
  (forall items, Forall P items -> P (JArr items)) ->
  (forall fields, Forall (fun kv => P kv.2) fields -> P (JObj fields)) ->
  forall j, P j.
Proof.
  intros Hnull Hbool Hnum Hstr Harr Hobj.
  fix IH 1. intros [| b | r | s | items | fields];
    [exact Hnull|apply Hbool|apply Hnum|apply Hstr| |].
  - apply Harr.
    induction items as [|x rest IHr]; constructor; [apply IH|exact IHr].
  - apply Hobj.
    induction fields as [|[k x] rest IHr]; constructor; [apply IH|exact IHr].
Qed.

(** Property by property, name for name. *)
Definition field_rel (R : json -> val -> Prop) (jf : string * json)
           (f : string * val) : Prop :=
  jf.1 = f.1 /\ R jf.2 f.2.

Lemma represents_in_arr (P : loc -> Prop) (h : heap) (js : list json) (v : val) :
  represents_in P h (JArr js) v <->
  exists l items, v = VRef l /\ P l /\ h !! l = Some (CArr items) /\
                  Forall2 (represents_in P h) js items.
Proof.
  cbn [represents_in].
  assert (forall items,
            (fix all (js : list json) (vs : list val) : Prop :=
               match js, vs with
               | [], [] => True
               | j :: js', x :: vs' => represents_in P h j x /\ all js' vs'
               | _, _ => False
               end) js items
            <-> Forall2 (represents_in P h) js items) as Hall.
  { induction js as [|j js IH]; intros [|x items].
    - split; [constructor|auto].
    - split; [contradiction|inversion 1].
    - split; [contradiction|inversion 1].
    - split.
      + intros [Hj Hrest]. constructor; [exact Hj|apply IH, Hrest].
      + inversion 1; subst. split; [assumption|apply IH; assumption]. }
  split; intros (l & items & ? & ? & ? & H); exists l, items;
    repeat split; try assumption; apply Hall, H.
Qed.

Lemma represents_in_obj (P : loc -> Prop) (h : heap)
      (jfs : list (string * json)) (v : val) :
  represents_in P h (JObj jfs) v <->
  exists l fields, v = VRef l /\ P l /\ h !! l = Some (CObj fields) /\
                   Forall2 (field_rel (represents_in P h)) jfs fields.
Proof.
  cbn [represents_in].
  assert (forall fields,
            (fix all (js : list (string * json)) (vs : list (string * val)) : Prop :=
               match js, vs with
               | [], [] => True
               | (k, j) :: js', (k', x) :: vs' =>
                   k = k' /\ represents_in P h j x /\ all js' vs'
               | _, _ => False
               end) jfs fields
            <-> Forall2 (field_rel (represents_in P h)) jfs fields) as Hall.
  { induction jfs as [|[k j] js IH]; intros [|[k' x] fields].
    - split; [constructor|auto].
    - split; [contradiction|inversion 1].
    - split; [contradiction|inversion 1].
    - split.
      + intros (Hk & Hj & Hrest).
        constructor; [split; [exact Hk|exact Hj]|apply IH, Hrest].
      + inversion 1 as [|? ? ? ? [Hk Hr] Hrest]; subst. cbn in Hk, Hr.
        split; [exact Hk|]. split; [exact Hr|]. apply IH. assumption. }
  split; intros (l & fields & ? & ? & ? & H); exists l, fields;
    repeat split; try assumption; apply Hall, H.
Qed.

(** A representation survives a change of the store that keeps its
    cells. *)
Lemma represents_in_mono (P Q : loc -> Prop) (h h' : heap) :
  (forall l, P l -> Q l) ->
  (forall l c, P l -> h !! l = Some c -> h' !! l = Some c) ->
  forall j v, represents_in P h j v -> represents_in Q h' j v.
Proof.
  intros HPQ Hkeep.
  induction j as [| b | r | s | js IH | jfs IH] using json_nested_ind;
    intros v H; try exact H.
  - apply represents_in_arr in H as (l & items & -> & Hl & Hc & Hall).
    apply represents_in_arr. exists l, items.
    repeat split; [apply HPQ, Hl|eapply Hkeep; eassumption|].
    clear Hc. revert items Hall.
    induction IH as [|j js Hj _ IHjs]; intros items Hall;
      inversion Hall; subst; constructor; auto.
  - apply represents_in_obj in H as (l & fields & -> & Hl & Hc & Hall).
    apply represents_in_obj. exists l, fields.
    repeat split; [apply HPQ, Hl|eapply Hkeep; eassumption|].
    clear Hc. revert fields Hall.
    induction IH as [|[k j] js Hj _ IHjs]; intros fields Hall;
      inversion Hall as [|? [k' x] ? ? [Hk Hr] Hrest]; subst; constructor; auto.
    split; [exact Hk|]. apply Hj, Hr.
Qed.

Lemma Forall2_obj_set (R : json -> val -> Prop) (k : string) (j : json) (v : val)
      (acc : list (string * json)) (fs : list (string * val)) :
  Forall2 (field_rel R) acc fs -> R j v ->
  Forall2 (field_rel R) (obj_set k j acc) (obj_set k v fs).
Proof.
  intros Hall Hjv. induction Hall as [|[k1 j1] [k2 v2] acc fs [Hk Hr] Hrest IH].
  - constructor; [split; [reflexivity|exact Hjv]|constructor].
  - cbn in Hk, Hr. subst k2. cbn [obj_set].
    destruct (String.eqb k1 k).
    + constructor; [split; [reflexivity|exact Hjv]|exact Hrest].
    + constructor; [split; [reflexivity|exact Hr]|exact IH].
Qed.

Lemma Forall2_index_entries (R : json -> val -> Prop) (js : list json)
      (items : list val) :
  Forall2 R js items ->
  forall i, Forall2 (field_rel R) (index_entries i js) (index_entries i items).
Proof.
  induction 1 as [|j x js items Hjx _ IH]; intros i; cbn [index_entries];
    constructor; [split; [reflexivity|exact Hjx]|apply IH].
Qed.

Lemma depth_arr_elem (js : list json) (j : json) :
  In j js -> depth j < depth (JArr js).
Proof.
  cbn [depth]. induction js as [|x r IH]; [intros []|].
  intros [->|H]; [lia|]. specialize (IH H). lia.
Qed.

Lemma depth_obj_field (jfs : list (string * json)) (kv : string * json) :
  In kv jfs -> depth kv.2 < depth (JObj jfs).
Proof.
  cbn [depth]. induction jfs as [|[k x] r IH]; [intros []|].
  intros [<-|H]; [cbn; lia|]. specialize (IH H). lia.
Qed.

Section Refine.
Variables searchValue replaceValue : string.

Local Abbreviation rvm := (replaceValuesInMetadata searchValue replaceValue).
Local Abbreviation rloop := (loop searchValue replaceValue).
Local Abbreviation tree_rvm :=
  (Redaction.replaceValuesInMetadata searchValue replaceValue).
Local Abbreviation tree_value :=
  (RedactionFacts.replaced_value searchValue replaceValue).

(** One assignment of the loop on trees. *)
Definition step (o : list (string * json)) (kv : string * json)
  : list (string * json) :=
  obj_set kv.1 (tree_value kv.2) o.

(** [Object.entries] of a tree. *)
Definition tree_entries (j : json) : list (string * json) :=
  match j with
  | JObj fields => fields
  | JArr items => index_entries 0 items
  | _ => []
  end.

Lemma tree_rvm_fold (j : json) :
  match j with
  | JObj _ | JArr _ => tree_rvm j = JObj (fold_left step (tree_entries j) [])
  | _ => tree_rvm j = j
  end.
Proof.
  destruct j as [| | | |items|fields]; try reflexivity.
  - cbn [Redaction.replaceValuesInMetadata tree_entries]. f_equal.
    generalize 0. generalize (@nil (string * json)).
    induction items as [|x r IH]; intros acc i; [reflexivity|].
    cbn [index_entries fold_left]. rewrite <- IH. reflexivity.
  - apply RedactionFacts.rvm_object.
Qed.

(** What a call gives on a represented tree: a result, representing the
    tree-level result in the old cells and the new ones. *)
Definition refines (self : heap -> val -> option (heap * val)) (n : nat) : Prop :=
  forall (P : loc -> Prop) h j v,
    represents_in P h j v -> (forall l, P l -> l < length h) -> depth j < n ->
    exists h' v',
      self h v = Some (h', v') /\
      represents_in (fun l => P l \/ length h <= l) h' (tree_rvm j) v'.

Lemma replace_item_refines (P Q : loc -> Prop) (h h' : heap) :
  (forall l, P l -> Q l) ->
  (forall l c, P l -> h !! l = Some c -> h' !! l = Some c) ->
  forall js items,
    Forall2 (represents_in P h) js items ->
    Forall2 (represents_in Q h')
      (map (Redaction.replace_item searchValue replaceValue) js)
      (map (replace_item searchValue replaceValue) items).
Proof.
  intros HPQ Hkeep. induction 1 as [|j x js items Hjx _ IH]; cbn [map];
    constructor; [|exact IH].
  destruct j; cbn [represents_in] in Hjx; try (subst x; reflexivity).
  - apply represents_in_arr in Hjx as Hjx'. destruct Hjx' as (l & its & -> & _).
    cbn [Redaction.replace_item replace_item].
    eapply represents_in_mono; eassumption.
  - apply represents_in_obj in Hjx as Hjx'. destruct Hjx' as (l & fs & -> & _).
    cbn [Redaction.replace_item replace_item].
    eapply represents_in_mono; eassumption.
Qed.

Lemma loop_refines (self : heap -> val -> option (heap * val)) (n : nat)
      (h0 : heap) (P : loc -> Prop) :
  call_spec self -> refines self n ->
  (forall l, P l -> l < length h0) ->
  forall jentries entries,
    Forall2 (field_rel (fun j v => represents_in P h0 j v /\ depth j < n))
      jentries entries ->
    forall acc fs h,
      extends h0 h -> h !! length h0 = Some (CObj fs) ->
      Forall2 (field_rel (represents_in (fun l => P l \/ length h0 < l) h)) acc fs ->
      exists h' fs',
        rloop self (length h0) entries h = Some h' /\
        extends h0 h' /\ h' !! length h0 = Some (CObj fs') /\
        Forall2 (field_rel (represents_in (fun l => P l \/ length h0 < l) h'))
          (fold_left step jentries acc) fs'.
Proof.
  intros Hspec Hself HP. set (Q := fun l => P l \/ length h0 < l).
  induction 1 as [|[k j] [k' v] jentries entries [Hk [Hjv Hd]] _ IH];
    intros acc fs h He Hc Hacc.
  - exists h, fs. cbn. auto.
  - cbn in Hk, Hjv, Hd. subst k'.
    assert (length h0 < length h) as Hlt by (apply lookup_lt_Some in Hc; exact Hc).
    assert (forall l, Q l -> l <> length h0) as HQ.
    { intros l [Hl|Hl]; [apply HP in Hl|]; lia. }
    (* one assignment, from a store [h1] that extends [h] *)
    assert (forall h1 j1 v1,
              extends h h1 -> represents_in Q h1 j1 v1 ->
              tree_value j = j1 ->
              exists h' fs',
                rloop self (length h0) entries (set_prop (length h0) k v1 h1)
                = Some h' /\
                extends h0 h' /\ h' !! length h0 = Some (CObj fs') /\
                Forall2 (field_rel (represents_in Q h'))
                  (fold_left step ((k, j) :: jentries) acc) fs') as Hpush.
    { intros h1 j1 v1 He1 Hr1 Hj1.
      pose proof (extends_lookup _ _ _ _ He1 Hc) as Hc1.
      cbn [fold_left]. unfold step at 2. cbn [fst snd]. rewrite Hj1.
      apply (IH (obj_set k j1 acc) (obj_set k v1 fs)).
      - apply extends_set_prop; [lia|]. eapply extends_trans; eassumption.
      - apply set_prop_same, Hc1.
      - apply Forall2_obj_set.
        + eapply Forall2_impl; [exact Hacc|].
          intros [ka ja] [kf vf] [Hka Hra]. split; [exact Hka|].
          cbn [fst snd] in *. eapply represents_in_mono; [| |exact Hra]; [auto|].
          intros l c Hl Hlc. rewrite set_prop_other by (apply HQ, Hl).
          eapply extends_lookup; eassumption.
        + eapply represents_in_mono; [| |exact Hr1]; [auto|].
          intros l c Hl Hlc. rewrite set_prop_other by (apply HQ, Hl). exact Hlc. }
    assert (forall l c, P l -> h0 !! l = Some c -> h !! l = Some c) as Hold.
    { intros l c _ Hl. eapply extends_lookup; eassumption. }
    destruct j as [|b|r|s|js|jfs].
    + cbn [represents_in] in Hjv. subst v. cbn [loop].
      apply (Hpush h JNull VNull); [apply extends_refl|reflexivity|reflexivity].
    + cbn [represents_in] in Hjv. subst v. cbn [loop].
      apply (Hpush h (JBool b) (VBool b)); [apply extends_refl|reflexivity|reflexivity].
    + cbn [represents_in] in Hjv. subst v. cbn [loop].
      apply (Hpush h (JNum r) (VNum r)); [apply extends_refl|reflexivity|reflexivity].
    + cbn [represents_in] in Hjv. subst v. cbn [loop].
      apply (Hpush h (JStr (replace_value searchValue replaceValue s))
               (VStr (replace_value searchValue replaceValue s)));
        [apply extends_refl|reflexivity|reflexivity].
    + apply represents_in_arr in Hjv as (a & items & -> & Ha & Hca & Hitems).
      cbn [loop]. rewrite (Hold _ _ Ha Hca). cbn [alloc].
      apply (Hpush (h ++ [CArr (map (replace_item searchValue replaceValue) items)])
               (JArr (map (Redaction.replace_item searchValue replaceValue) js))
               (VRef (length h))); [eexists; reflexivity| |reflexivity].
      apply represents_in_arr. eexists _, _. split; [reflexivity|].
      split; [right; exact Hlt|]. split; [apply list_lookup_middle; reflexivity|].
      apply (replace_item_refines P Q h0); [left; assumption| |exact Hitems].
      intros l c Hl Hlc. apply lookup_app_l_Some. eapply Hold; eassumption.
    + apply represents_in_obj in Hjv as Hjv'.
      destruct Hjv' as (a & fields & -> & Ha & Hca & Hfields).
      cbn [loop]. rewrite (Hold _ _ Ha Hca).
      destruct (Hself P h (JObj jfs) (VRef a)) as (h1 & v1 & Hcall & Hres).
      * eapply represents_in_mono; [| |exact Hjv]; [auto|exact Hold].
      * intros l Hl. apply HP in Hl. lia.
      * exact Hd.
      * rewrite Hcall. destruct (Hspec _ _ _ _ Hcall) as (He1 & _).
        apply (Hpush h1 (tree_rvm (JObj jfs)) v1); [exact He1| |reflexivity].
        eapply represents_in_mono; [| |exact Hres]; [|auto].
        intros l [Hl|Hl]; [left; exact Hl|right; lia].
Qed.

Lemma with_depth (P : loc -> Prop) (h : heap) (n : nat) (js : list json)
      (items : list val) :
  Forall2 (represents_in P h) js items ->
  (forall j, In j js -> depth j < n) ->
  Forall2 (fun j v => represents_in P h j v /\ depth j < n) js items.
Proof.
  induction 1 as [|j x js items Hjx _ IH]; intros Hd; constructor.
  - split; [exact Hjx|]. apply Hd. left. reflexivity.
  - apply IH. intros j' Hj'. apply Hd. right. exact Hj'.
Qed.

Lemma fields_with_depth (P : loc -> Prop) (h : heap) (n : nat)
      (jfs : list (string * json)) (fields : list (string * val)) :
  Forall2 (field_rel (represents_in P h)) jfs fields ->
  (forall kv, In kv jfs -> depth kv.2 < n) ->
  Forall2 (field_rel (fun j v => represents_in P h j v /\ depth j < n)) jfs fields.
Proof.
  induction 1 as [|jf f jfs fields [Hk Hr] _ IH]; intros Hd; constructor.
  - split; [exact Hk|]. split; [exact Hr|]. apply Hd. left. reflexivity.
  - apply IH. intros j' Hj'. apply Hd. right. exact Hj'.
Qed.

Lemma rvm_refines (fuel : nat) : refines (rvm fuel) fuel.
Proof.
  induction fuel as [|n IH]; intros P h j v Hjv HP Hd; [lia|].
  assert (forall entries jentries,
            Forall2 (field_rel (fun j v => represents_in P h j v /\ depth j < n))
              jentries entries ->
            exists h' v',
              match rloop (rvm n) (length h) entries (h ++ [CObj []]) with
              | Some h2 => Some (h2, VRef (length h))
              | None => None
              end = Some (h', v') /\
              represents_in (fun l => P l \/ length h <= l) h'
                (JObj (fold_left step jentries [])) v') as Hloop.
  { intros entries jentries Hent.
    destruct (loop_refines (rvm n) n h P (rvm_call_spec _ _ n) IH HP
                jentries entries Hent [] [] (h ++ [CObj []])
                ltac:(eexists; reflexivity)
                ltac:(apply list_lookup_middle; reflexivity)
                ltac:(constructor))
      as (h' & fs' & -> & He & Hc & Hall).
    eexists _, _. split; [reflexivity|].
    apply represents_in_obj. exists (length h), fs'.
    split; [reflexivity|]. split; [right; lia|]. split; [exact Hc|].
    eapply Forall2_impl; [exact Hall|].
    intros [ka ja] [kf vf] [Hka Hra]. split; [exact Hka|]. cbn [fst snd] in *.
    eapply represents_in_mono; [| |exact Hra]; [|auto].
    intros l [Hl|Hl]; [left; exact Hl|right; lia]. }
  pose proof (tree_rvm_fold j) as Hfold.
  destruct j as [|b|r|s|js|jfs].
  1-4: cbn [represents_in] in Hjv; subst v; exists h; eexists;
       (split; [reflexivity|]); reflexivity.
  - apply represents_in_arr in Hjv as (l & items & -> & Hl & Hc & Hall).
    cbn [replaceValuesInMetadata]. rewrite Hc. cbn [alloc entries_of].
    rewrite Hfold. apply Hloop. cbn [tree_entries].
    apply Forall2_index_entries, with_depth; [exact Hall|].
    intros j Hj. apply depth_arr_elem in Hj. lia.
  - apply represents_in_obj in Hjv as (l & fields & -> & Hl & Hc & Hall).
    cbn [replaceValuesInMetadata]. rewrite Hc. cbn [alloc entries_of].
    rewrite Hfold. apply Hloop. cbn [tree_entries].
    apply fields_with_depth; [exact Hall|].
    intros kv Hkv. apply depth_obj_field in Hkv. lia.
Qed.

(** The cells of a representation exist. *)
Lemma represents_in_bounded (P : loc -> Prop) (h : heap) :
  forall j v, represents_in P h j v ->
              represents_in (fun l => P l /\ l < length h) h j v.
Proof.
  induction j as [| b | r | s | js IH | jfs IH] using json_nested_ind;
    intros v H; try exact H.
  - apply represents_in_arr in H as (l & items & -> & Hl & Hc & Hall).
    apply represents_in_arr. exists l, items.
    repeat split; [exact Hl|eapply lookup_lt_Some; exact Hc|exact Hc|].
    clear Hc. revert items Hall.
    induction IH as [|j js Hj _ IHjs]; intros items Hall;
      inversion Hall; subst; constructor; auto.
  - apply represents_in_obj in H as (l & fields & -> & Hl & Hc & Hall).
    apply represents_in_obj. exists l, fields.
    repeat split; [exact Hl|eapply lookup_lt_Some; exact Hc|exact Hc|].
    clear Hc. revert fields Hall.
    induction IH as [|[k j] js Hj _ IHjs]; intros fields Hall;
      inversion Hall as [|? [k' x] ? ? [Hk Hr] Hrest]; subst; constructor; auto.
    split; [exact Hk|]. apply Hj, Hr.
Qed.

End Refine.

(** *** The claim on the store *)

Definition shared_input : json :=
  JObj [("tags", JArr [JObj [("name", JStr "x")]])].

(** [shared_input] in the store: the inner object at 0, the array at 1,
    the metadata object at 2. *)
Definition shared_store : heap :=
  [CObj [("name", VStr "x")]; CArr [VRef 0]; CObj [("tags", VRef 1)]].

Example shared_store_is_stored : store shared_input [] = (VRef 2, shared_store).
Proof. reflexivity. Qed.




End HeapRefinement.

(** ** The microsite client: partial success *)

Module MicrositeFacts.
Import JsString JsStringFacts Json Credentials Sanitize SanitizeFacts Remote Microsite.

(** A reply the default [validateStatus] accepts. *)
Definition accepted (rp : reply) : bool :=
  match rp with
  | Status s _ => valid ValidateDefault s
  | NoResponse _ => false
  end.

(** The message of the error axios raises on a reply. *)
Definition failure_message (rp : reply) : string :=
  match rp with
  | Status s _ => "Request failed with status code " +:+ pretty s
  | NoResponse msg => msg
  end.

Definition is_delete (e : event) : bool :=
  match e with
  | Request rq _ => match rq_method rq with DELETE => true | _ => false end
  | _ => false
  end.

Definition is_sleep (e : event) : bool :=
  match e with Sleep _ => true | _ => false end.

(** A POST to [path]. *)
Definition is_post_to (path : string) (e : event) : bool :=
  match e with
  | Request rq _ =>
      match rq_method rq with
      | POST => String.eqb (rq_path rq) path
      | _ => false
      end
  | _ => false
  end.

Definition page_template : string :=
  "/conf/site-templates/settings/wcm/templates/page-template".

(** The entry of [pages] for a page that was created. *)
Definition page_of (this : client) (sitePath pageName : string) : page_result :=
  {| pagePath := sitePath +:+ "/" +:+ pageName;
     pageName := pageName;
     pageTitle := capitalize pageName;
     url := authorUrl this +:+ "/editor.html" +:+ sitePath +:+ "/" +:+ pageName
            +:+ ".html" |}.

Definition page_request (sitePath pageName : string) : request :=
  post_form (sitePath +:+ "/" +:+ pageName)
    (page_form (capitalize pageName) page_template).

(** What one page leaves in the trace: its POST, and on failure the
    warning. *)
Definition page_events (sitePath : string) (pr : string * reply) : list event :=
  Request (page_request sitePath pr.1) pr.2 ::
  if accepted pr.2 then []
  else [ConsoleWarn ("Could not create page " +:+ pr.1
                     +:+ ": Failed to create page: " +:+ failure_message pr.2)].

Definition created_page (this : client) (sitePath : string) (pr : string * reply)
  : option page_result :=
  if accepted pr.2 then Some (page_of this sitePath pr.1) else None.

Lemma createPage_run (this : client) (sitePath pageName : string)
      (rem : remote) (t : list event) :
  let rp := rem t (page_request sitePath pageName) in
  createPage this
    {| pc_sitePath := sitePath; pc_pageName := pageName;
       pc_pageTitle := capitalize pageName; pc_templatePath := None |} rem t
  = (if accepted rp then Ok (page_of this sitePath pageName)
     else Throw (Error ("Failed to create page: " +:+ failure_message rp)),
     t ++ [Request (page_request sitePath pageName) rp]).
Proof.
  cbn zeta. unfold createPage, try_catch, bind, axios, ret, throw.
  cbn [pc_sitePath pc_pageName pc_pageTitle pc_templatePath default].
  fold page_template. fold (page_request sitePath pageName).
  destruct (rem t (page_request sitePath pageName)) as [s d|msg];
    cbn [accepted failure_message rq_validate page_request post_form].
  - destruct (valid ValidateDefault s); cbn [message]; [|reflexivity].
    unfold page_of. rewrite !append_assoc. reflexivity.
  - reflexivity.
Qed.

Lemma create_pages_run (this : client) (sitePath : string) (pages : list string) :
  forall (createdPages : list page_result) (rem : remote) (t : list event),
  exists replies,
    length replies = length pages /\
    create_pages this sitePath pages createdPages rem t
    = (Ok (createdPages ++ omap (created_page this sitePath) (zip pages replies)),
       t ++ flat_map (page_events sitePath) (zip pages replies)).
Proof.
  induction pages as [|p rest IH]; intros created rem t.
  - exists []. split; [reflexivity|]. cbn. rewrite !app_nil_r. reflexivity.
  - cbn [create_pages]. unfold bind at 1. unfold try_catch at 1. unfold bind at 1.
    rewrite createPage_run.
    set (rp := rem t (page_request sitePath p)).
    destruct (accepted rp) eqn:Hacc.
    + unfold ret at 1.
      destruct (IH (created ++ [page_of this sitePath p]) rem
                  (t ++ [Request (page_request sitePath p) rp]))
        as (replies & Hlen & ->).
      exists (rp :: replies). split; [simpl; lia|].
      cbn [zip zip_with omap flat_map list_omap]. unfold created_page at 2, page_events at 2.
      cbn [fst snd]. rewrite Hacc. rewrite <- !app_assoc. reflexivity.
    + unfold bind at 1, console_warn, emit, ret at 1. cbn [message Error].
      destruct (IH created rem
                  ((t ++ [Request (page_request sitePath p) rp]) ++
                   [ConsoleWarn ("Could not create page " +:+ p +:+ ": "
                                 +:+ "Failed to create page: " +:+ failure_message rp)]))
        as (replies & Hlen & ->).
      exists (rp :: replies). split; [simpl; lia|].
      cbn [zip zip_with omap flat_map list_omap]. unfold created_page at 2, page_events at 2.
      cbn [fst snd]. rewrite Hacc. rewrite <- !app_assoc. reflexivity.
Qed.

(** The configuration [createMicrosite] passes to [createSite]. *)
Definition site_part (cfg : microsite_config) : site_config :=
  {| sc_siteName :=
       if negb (truthy (mc_siteName cfg)) && truthy (mc_siteTitle cfg)
       then Some (derive_name (get (mc_siteTitle cfg)))
       else mc_siteName cfg;
     sc_siteTitle := mc_siteTitle cfg;
     sc_templatePath := mc_templatePath cfg;
     sc_parentPath := Some (default "/content" (mc_parentPath cfg));
     sc_language := None;
     sc_country := None |}.

Definition microsite_message (created : list page_result) : string :=
  "Microsite created with " +:+ pretty (length created)
  +:+ " pages (structure similar to /content/demo/main.html)".

Lemma createSite_success (this : client) (sc : site_config) (rem : remote)
      (t t1 : list event) (sr : site_result) :
  createSite this sc rem t = (Ok sr, t1) -> sr_success sr = true.
Proof.
  unfold createSite, try_catch, bind, axios, ret, throw.
  destruct (negb (truthy (sc_siteTitle sc))); [discriminate|].
  match goal with |- context [rem t ?rq] => destruct (rem t rq) as [s d|msg] end;
    [|discriminate].
  match goal with |- context [valid ?v s] => destruct (valid v s) end;
    [|discriminate].
  intros E. injection E as <- _. reflexivity.
Qed.

Lemma page_events_no_delete (sitePath : string) (attempts : list (string * reply)) :
  Forall (fun e => is_delete e = false) (flat_map (page_events sitePath) attempts).
Proof.
  induction attempts as [|[p rp] r IH]; [constructor|].
  cbn [flat_map]. apply Forall_app. split; [|exact IH].
  unfold page_events. cbn [fst snd].
  destruct (accepted rp); repeat constructor.
Qed.

Lemma created_count (this : client) (sitePath : string) (pages : list string) :
  forall replies, length replies = length pages ->
    length (omap (created_page this sitePath) (zip pages replies))
    + length (filter (fun rp => accepted rp = false) replies)
    = length pages.
Proof.
  induction pages as [|p r IH]; intros [|rp replies] Hlen; simpl in Hlen;
    try discriminate; [reflexivity|].
  injection Hlen as Hlen. specialize (IH replies Hlen).
  cbn [zip zip_with omap list_omap]. unfold created_page at 1. cbn [fst snd].
  rewrite filter_cons.
  destruct (accepted rp) eqn:Hacc.
  - rewrite decide_False by discriminate. cbn [length]. lia.
  - rewrite decide_True by reflexivity. cbn [length]. lia.
Qed.

(** C4. When the creation of the site root succeeds, [createMicrosite]
    returns with [success: true] whatever the page requests are
    answered; each refused page leaves a warning in the console; the
    [pages] of the result are the pages whose request was accepted,
    in the order asked; no DELETE follows, so neither the site root nor
    a page already created is rolled back; and the result lists as many
    pages fewer than asked as requests were refused. *)
Theorem createMicrosite_partial_success (this : client) (cfg : microsite_config)
        (rem : remote) (t t1 : list event) (sr : site_result) :
  createSite this (site_part cfg) rem t = (Ok sr, t1) ->
  exists replies,
    let pages := default default_pages (mc_pages cfg) in
    let attempts := zip pages replies in
    let created := omap (created_page this (sr_sitePath sr)) attempts in
    length replies = length pages /\
    createMicrosite this cfg rem t
    = (Ok {| mr_site := sr; mr_pages := created;
             mr_message := microsite_message created |},
       t1 ++ flat_map (page_events (sr_sitePath sr)) attempts) /\
    sr_success sr = true /\
    Forall (fun e => is_delete e = false)
      (flat_map (page_events (sr_sitePath sr)) attempts) /\
    length created + length (filter (fun rp => accepted rp = false) replies)
    = length pages.
Proof.
  intros Hsite.
  destruct (create_pages_run this (sr_sitePath sr)
              (default default_pages (mc_pages cfg)) [] rem t1)
    as (replies & Hlen & Hrun).
  exists replies. cbn zeta. split; [exact Hlen|]. split; [|split; [|split]].
  - unfold createMicrosite, try_catch. unfold bind at 1.
    fold (site_part cfg) in *.
    change ({| sc_siteName := _; sc_siteTitle := _; sc_templatePath := _;
               sc_parentPath := _; sc_language := _; sc_country := _ |})
      with (site_part cfg).
    rewrite Hsite. unfold bind at 1. rewrite Hrun. reflexivity.
  - eapply createSite_success, Hsite.
  - apply page_events_no_delete.
  - apply created_count, Hlen.
Qed.

Definition demo_client : client :=
  new_client "http://localhost:4502/" (Basic "admin" "admin").

Definition demo_config : microsite_config :=
  {| mc_siteName := None; mc_siteTitle := Some "Demo";
     mc_templatePath := None; mc_parentPath := None; mc_pages := None |}.

(** A repository that refuses the page [about] and accepts the rest. *)
Definition about_fails : remote := fun _ rq =>
  if String.eqb (rq_path rq) "/content/demo/about"
  then Status 500 (JStr "")
  else Status 201 (JStr "").

Definition demo_site : site_result :=
  {| sr_success := true; sr_sitePath := "/content/demo"; sr_siteName := "demo";
     sr_siteTitle := "Demo";
     sr_authorUrl := "http://localhost:4502/editor.html/content/demo.html";
     sr_message := "Site created successfully" |}.

Lemma createMicrosite_partial_success_witness :
  exists replies,
    length replies = 3 /\
    (createMicrosite demo_client demo_config about_fails []).1
    = Ok {| mr_site := demo_site;
            mr_pages := omap (created_page demo_client "/content/demo")
                             (zip default_pages replies);
            mr_message := microsite_message
                            (omap (created_page demo_client "/content/demo")
                                  (zip default_pages replies)) |}.
Proof.
  destruct (createMicrosite_partial_success demo_client demo_config about_fails
              [] (createSite demo_client (site_part demo_config) about_fails []).2
              demo_site ltac:(vm_compute; reflexivity))
    as (replies & Hlen & E & _).
  exists replies. split; [exact Hlen|]. rewrite E. reflexivity.
Defined.

(** The run of the specification's example: one page of three fails. *)
Example createMicrosite_about_fails :
  exists r t',
    createMicrosite demo_client demo_config about_fails [] = (Ok r, t') /\
    sr_success (mr_site r) = true /\
    map pageName (mr_pages r) = ["main"; "contact"].
Proof. eexists _, _. split; [vm_compute; reflexivity|]. split; reflexivity. Qed.

End MicrositeFacts.

(** ** The asset client *)

Module AssetsFacts.
Import JsString JsStringFacts Json Credentials Remote Assets.

(** C8. A call of [renameAsset] whose [assetPath] does not start with
    [/content/dam/] fails with a validation error, and the trace is the
    one it started from: no HEAD probe and no move has been sent. *)
Theorem renameAsset_validates_before_network (this : client)
        (assetPath newName : string) (rem : remote) (t : list event) :
  startsWith assetPath asset_root = false ->
  exists reason,
    renameAsset this assetPath newName rem t
    = (Throw (Error ("Failed to rename asset: " +:+ reason)), t) /\
    (reason = "Asset path and new name are required" \/
     reason = "Asset path must start with /content/dam/").
Proof.
  intros Hroot. unfold renameAsset, try_catch, throw.
  destruct (negb (nonempty assetPath) || negb (nonempty newName)).
  - eexists. split; [reflexivity|]. left. reflexivity.
  - rewrite Hroot. eexists. split; [reflexivity|]. right. reflexivity.
Qed.

Definition asset_client : client :=
  new_client "http://localhost:4502" (Basic "admin" "admin").

Lemma renameAsset_validates_before_network_witness :
  startsWith "/content/site/logo.png" asset_root = false /\
  forall rem : remote,
    renameAsset asset_client "/content/site/logo.png" "new.png" rem []
    = (Throw (Error "Failed to rename asset: Asset path must start with /content/dam/"),
       []).
Proof.
  split; [reflexivity|]. intros rem.
  destruct (renameAsset_validates_before_network asset_client
              "/content/site/logo.png" "new.png" rem [] eq_refl)
    as (reason & E & [->| ->]).
  - exfalso. vm_compute in E. discriminate E.
  - exact E.
Defined.

(** *** [updateAssetMetadata] with merge *)

(** The write of [updatedMetadata] to the metadata node of [assetPath]. *)
Definition metadata_write (assetPath : string) (updatedMetadata : list (string * json))
  : request :=
  {| rq_method := POST;
     rq_path := assetPath +:+ "/jcr:content/metadata";
     rq_query := [];
     rq_body := Form (form_pairs updatedMetadata);
     rq_validate := ValidateBelow400Or412 |}.

(** The existing metadata a run has read: the body of the accepted reply
    to its GET, or the empty object. *)
Fixpoint existing_read (evs : list event) : json :=
  match evs with
  | [] => JObj []
  | Request rq rp :: rest =>
      match rq_method rq with
      | GET =>
          match rp with
          | Status s d =>
              if valid ValidateDefault s then or_empty_object d else JObj []
          | NoResponse _ => JObj []
          end
      | _ => existing_read rest
      end
  | _ :: rest => existing_read rest
  end.

Lemma obj_get_set {A} (k k' : string) (v : A) (o : list (string * A)) :
  obj_get k (obj_set k' v o) = if String.eqb k' k then Some v else obj_get k o.
Proof.
  induction o as [|[k0 v0] o IH]; simpl.
  - destruct (String.eqb k' k); reflexivity.
  - destruct (String.eqb_spec k0 k') as [->|Hne]; simpl.
    + destruct (String.eqb k' k); reflexivity.
    + rewrite IH. destruct (String.eqb_spec k0 k) as [->|Hne']; [|reflexivity].
      destruct (String.eqb_spec k' k) as [->|_]; [congruence|reflexivity].
Qed.

Lemma obj_get_not_key {A} (k : string) (o : list (string * A)) :
  k ∉ keys o -> obj_get k o = None.
Proof.
  unfold keys. induction o as [|[k0 v0] o IH]; simpl; intros H; [reflexivity|].
  apply not_elem_of_cons in H as [Hne Hnin].
  destruct (String.eqb_spec k0 k) as [->|_]; [congruence|]. apply IH, Hnin.
Qed.

(** With distinct names in [source], assigning them one after the other
    is an override of [target] by [source]. *)
Lemma obj_get_assign (k : string) (source : list (string * json)) :
  NoDup (keys source) ->
  forall target,
    obj_get k (assign target source)
    = match obj_get k source with
      | Some v => Some v
      | None => obj_get k target
      end.
Proof.
  unfold assign, keys.
  induction source as [|[k0 v0] r IH]; intros Hnd target; [reflexivity|].
  simpl in Hnd. apply NoDup_cons in Hnd as [Hk Hr].
  cbn [fold_left fst snd]. rewrite IH by exact Hr. cbn [obj_get].
  rewrite obj_get_set.
  destruct (String.eqb_spec k0 k) as [->|_]; [|reflexivity].
  rewrite obj_get_not_key by exact Hk. reflexivity.
Qed.

Lemma shallow_merge_override (existingMetadata : json)
      (metadata : list (string * json)) (k : string) :
  NoDup (keys metadata) -> NoDup (keys (spread_entries existingMetadata)) ->
  obj_get k (shallow_merge existingMetadata metadata)
  = match obj_get k metadata with
    | Some v => Some v
    | None => obj_get k (spread_entries existingMetadata)
    end.
Proof.
  intros Hm He. unfold shallow_merge.
  rewrite obj_get_assign by exact Hm. rewrite obj_get_assign by exact He.
  destruct (obj_get k metadata); [reflexivity|].
  destruct (obj_get k (spread_entries existingMetadata)); reflexivity.
Qed.

Lemma form_pairs_app (a b : list (string * json)) :
  form_pairs (a ++ b) = form_pairs a ++ form_pairs b.
Proof. unfold form_pairs. apply flat_map_app. Qed.


(** A repository whose asset has a title and two subjects, and that
    answers a write with 412. *)
Definition soft_remote : remote := fun _ rq =>
  match rq_method rq with
  | GET => Status 200 (JObj [("dc:title", JStr "Old");
                             ("dc:subject", JArr [JStr "a"; JStr "b"])])
  | POST => Status 412 (JStr "")
  | _ => Status 200 (JStr "")
  end.


End AssetsFacts.

(** ** The overwrite flow of the [aem-create-microsite] tool *)

Module ToolFacts.
Import JsString JsStringFacts Json Credentials Sanitize SanitizeFacts Remote
       Microsite MicrositeFacts Tool.

Definition count (p : event -> bool) (evs : list event) : nat :=
  length (List.filter p evs).

(** The DELETE [deleteSite] sends (default [validateStatus]), and the
    direct one of the fallback ([status < 500]). *)
Definition is_structured_delete (sitePath : string) (e : event) : bool :=
  match e with
  | Request rq _ =>
      match rq_method rq, rq_validate rq with
      | DELETE, ValidateDefault => String.eqb (rq_path rq) sitePath
      | _, _ => false
      end
  | _ => false
  end.

Definition is_direct_delete (sitePath : string) (e : event) : bool :=
  match e with
  | Request rq _ =>
      match rq_method rq, rq_validate rq with
      | DELETE, ValidateBelow500 => String.eqb (rq_path rq) sitePath
      | _, _ => false
      end
  | _ => false
  end.

Definition is_settle_delay (e : event) : bool :=
  match e with Sleep 500 => true | _ => false end.

(** The reply is one the direct DELETE returns rather than throws. *)
Definition returned (rp : reply) : bool :=
  match rp with
  | Status s _ => valid ValidateBelow500 s
  | NoResponse _ => false
  end.

(** [isNotFound], read off the message of the [deleteSite] error. *)
Definition not_found_hint (rp : reply) : bool :=
  includes ("Failed to delete site: " +:+ failure_message rp) "404"
  || includes ("Failed to delete site: " +:+ failure_message rp) "not found".

(** The five ways through the [if (overwrite)] block. *)
Inductive delete_phase (sitePath : string) : list event -> Prop :=
| deleted_by_deleteSite rp line :
    accepted rp = true ->
    delete_phase sitePath
      [Request (delete_request sitePath ValidateDefault) rp;
       ConsoleLog line; Sleep 500]
| settled_by_direct_delete rp s d line :
    accepted rp = false -> s < 500 -> s = 200 \/ s = 204 \/ s = 404 ->
    delete_phase sitePath
      [Request (delete_request sitePath ValidateDefault) rp;
       Request (delete_request sitePath ValidateBelow500) (Status s d);
       ConsoleLog line; Sleep 500]
| refused_by_direct_delete rp s d line :
    accepted rp = false -> s < 500 -> s <> 200 -> s <> 204 -> s <> 404 ->
    delete_phase sitePath
      [Request (delete_request sitePath ValidateDefault) rp;
       Request (delete_request sitePath ValidateBelow500) (Status s d);
       ConsoleWarn line]
| direct_delete_thrown_not_found rp rp' :
    accepted rp = false -> returned rp' = false -> not_found_hint rp = true ->
    delete_phase sitePath
      [Request (delete_request sitePath ValidateDefault) rp;
       Request (delete_request sitePath ValidateBelow500) rp';
       Sleep 500]
| direct_delete_thrown rp rp' line1 line2 line3 :
    accepted rp = false -> returned rp' = false -> not_found_hint rp = false ->
    delete_phase sitePath
      [Request (delete_request sitePath ValidateDefault) rp;
       Request (delete_request sitePath ValidateBelow500) rp';
       ConsoleWarn line1; ConsoleWarn line2; ConsoleWarn line3].

Lemma deleteSite_run (this : client) (sitePath : string) (rem : remote)
      (t : list event) :
  let rp := rem t (delete_request sitePath ValidateDefault) in
  deleteSite this sitePath rem t
  = (if accepted rp then Ok tt
     else Throw (Error ("Failed to delete site: " +:+ failure_message rp)),
     t ++ [Request (delete_request sitePath ValidateDefault) rp]).
Proof.
  cbn zeta. unfold deleteSite, try_catch, bind, axios, ret, throw.
  destruct (rem t (delete_request sitePath ValidateDefault)) as [s d|msg];
    cbn [accepted failure_message rq_validate delete_request]; [|reflexivity].
  destruct (valid ValidateDefault s); reflexivity.
Qed.

Lemma overwrite_existing_run (aemClient : client) (sitePath : string)
      (rem : remote) (t : list event) :
  exists evs,
    overwrite_existing aemClient sitePath rem t = (Ok tt, t ++ evs) /\
    delete_phase sitePath evs.
Proof.
  unfold overwrite_existing. unfold bind at 1. unfold try_catch at 1.
  unfold bind at 1. rewrite deleteSite_run.
  set (rp := rem t (delete_request sitePath ValidateDefault)).
  destruct (accepted rp) eqn:Hacc.
  - unfold bind, console_log, sleep, emit, ret.
    eexists. split; [rewrite <- !app_assoc; reflexivity|]. cbn [app].
    apply deleted_by_deleteSite, Hacc.
  - unfold try_catch at 1. unfold bind at 1. unfold axios at 1.
    set (t1 := t ++ [Request (delete_request sitePath ValidateDefault) rp]).
    destruct (rem t1 (delete_request sitePath ValidateBelow500)) as [s d|msg] eqn:Hrp'.
    + cbn [rq_validate delete_request].
      destruct (valid ValidateBelow500 s) eqn:Hv.
      * cbn [status]. assert (s < 500) as Hlt by (apply Nat.ltb_lt, Hv).
        destruct (Nat.eqb_spec s 200) as [E200|N200];
          [|destruct (Nat.eqb_spec s 204) as [E204|N204];
            [|destruct (Nat.eqb_spec s 404) as [E404|N404]]];
          cbn [orb]; unfold bind, console_log, console_warn, sleep, emit, ret;
          subst t1.
        -- eexists. split; [rewrite <- !app_assoc; reflexivity|]. cbn [app].
           apply settled_by_direct_delete; auto.
        -- eexists. split; [rewrite <- !app_assoc; reflexivity|]. cbn [app].
           apply settled_by_direct_delete; auto.
        -- eexists. split; [rewrite <- !app_assoc; reflexivity|]. cbn [app].
           apply settled_by_direct_delete; auto.
        -- eexists. split; [rewrite <- !app_assoc; reflexivity|]. cbn [app].
           apply refused_by_direct_delete; auto.
      * assert (has_status
                  {| err_name := "AxiosError";
                     message := "Request failed with status code " +:+ pretty s;
                     err_response := Some {| status := s; data := d |} |} 404
                = false) as Hst.
        { unfold has_status. cbn [err_response status].
          apply Nat.eqb_neq. intros ->. discriminate Hv. }
        rewrite Hst, orb_false_r. cbn [message Error].
        fold (not_found_hint rp).
        destruct (not_found_hint rp) eqn:Hnf; cbn [negb];
          unfold bind, console_warn, sleep, emit, ret; subst t1.
        -- eexists. split; [rewrite <- !app_assoc; reflexivity|]. cbn [app].
           apply direct_delete_thrown_not_found; auto.
        -- eexists. split; [rewrite <- !app_assoc; reflexivity|]. cbn [app].
           apply direct_delete_thrown; auto.
    + cbn [has_status err_response]. rewrite orb_false_r. cbn [message Error].
      fold (not_found_hint rp).
      destruct (not_found_hint rp) eqn:Hnf; cbn [negb];
        unfold bind, console_warn, sleep, emit, ret; subst t1.
      * eexists. split; [rewrite <- !app_assoc; reflexivity|]. cbn [app].
        apply direct_delete_thrown_not_found; auto.
      * eexists. split; [rewrite <- !app_assoc; reflexivity|]. cbn [app].
        apply direct_delete_thrown; auto.
Qed.

(** *** The create step *)

(** The path [createSite] posts to. *)
Definition site_path_of (sc : site_config) : string :=
  default "/content" (sc_parentPath sc) +:+ "/"
  +:+ sanitize (if truthy (sc_siteName sc) then get (sc_siteName sc)
                else derive_name (get (sc_siteTitle sc))).

Lemma createSite_events (this : client) (sc : site_config) (rem : remote)
      (t : list event) :
  truthy (sc_siteTitle sc) = true ->
  exists o rq rp,
    createSite this sc rem t = (o, t ++ [Request rq rp]) /\
    rq_method rq = POST /\ rq_path rq = site_path_of sc /\
    forall sr, o = Ok sr -> sr_sitePath sr = site_path_of sc.
Proof.
  intros Ht. unfold createSite, try_catch, bind, axios, ret, throw.
  rewrite Ht. cbn [negb].
  match goal with |- context [rem t ?rq] =>
    set (q := rq); destruct (rem t q) as [s d|msg] eqn:Hrp end.
  - cbn [rq_validate q post_form].
    destruct (valid ValidateDefault s);
      eexists _, q, _; (split; [reflexivity|]); (split; [reflexivity|]);
      (split; [reflexivity|]); intros sr E; [|discriminate E].
    injection E as <-. reflexivity.
  - eexists _, q, _. split; [reflexivity|]. split; [reflexivity|].
    split; [reflexivity|]. discriminate.
Qed.

Lemma count_app (p : event -> bool) (a b : list event) :
  count p (a ++ b) = count p a + count p b.
Proof. unfold count. rewrite List.filter_app, length_app. reflexivity. Qed.

Lemma page_path_differs (sitePath pageName : string) :
  String.eqb (sitePath +:+ "/" +:+ pageName) sitePath = false.
Proof.
  apply String.eqb_neq. intros E.
  apply (f_equal String.length) in E. rewrite !length_append in E.
  simpl in E. lia.
Qed.

Lemma page_events_counts (sitePath : string) (attempts : list (string * reply)) :
  count is_delete (flat_map (page_events sitePath) attempts) = 0 /\
  count is_sleep (flat_map (page_events sitePath) attempts) = 0 /\
  count (is_post_to sitePath) (flat_map (page_events sitePath) attempts) = 0.
Proof.
  induction attempts as [|[p rp] r (IH1 & IH2 & IH3)]; [auto|].
  cbn [flat_map]. rewrite !count_app, IH1, IH2, IH3.
  unfold page_events. cbn [fst snd].
  assert (is_post_to sitePath (Request (page_request sitePath p) rp) = false) as Hp.
  { cbn. apply page_path_differs. }
  unfold count.
  destruct (accepted rp); cbn [List.filter is_delete is_sleep rq_method page_request
                                post_form]; rewrite Hp; auto.
Qed.

Lemma createMicrosite_events (this : client) (cfg : microsite_config)
      (rem : remote) (t : list event) :
  truthy (mc_siteTitle cfg) = true ->
  exists o evs,
    createMicrosite this cfg rem t = (o, t ++ evs) /\
    count is_delete evs = 0 /\ count is_sleep evs = 0 /\
    count (is_post_to (site_path_of (site_part cfg))) evs = 1.
Proof.
  intros Ht.
  destruct (createSite_events this (site_part cfg) rem t Ht)
    as (o & rq & rp & Hsite & Hm & Hp & Hsr).
  assert (count is_delete [Request rq rp] = 0 /\
          count is_sleep [Request rq rp] = 0 /\
          count (is_post_to (site_path_of (site_part cfg))) [Request rq rp] = 1)
    as (H1 & H2 & H3).
  { unfold count. cbn [List.filter is_delete is_sleep is_post_to].
    rewrite Hm, Hp, String.eqb_refl. auto. }
  unfold createMicrosite, try_catch. unfold bind at 1.
  change ({| sc_siteName := _; sc_siteTitle := _; sc_templatePath := _;
             sc_parentPath := _; sc_language := _; sc_country := _ |})
    with (site_part cfg).
  rewrite Hsite. destruct o as [sr|e].
  - unfold bind at 1.
    destruct (create_pages_run this (sr_sitePath sr)
                (default default_pages (mc_pages cfg)) [] rem (t ++ [Request rq rp]))
      as (replies & _ & ->).
    unfold ret. eexists _, _. split; [rewrite <- app_assoc; reflexivity|].
    rewrite !count_app, H1, H2, H3, (Hsr sr eq_refl).
    destruct (page_events_counts (site_path_of (site_part cfg))
                (zip (default default_pages (mc_pages cfg)) replies))
      as (-> & -> & ->). auto.
  - unfold throw. eexists _, _. split; [reflexivity|]. auto.
Qed.

(** *** The handler *)

(** The parameters the handler gives to the resolver. *)
Definition cred_part (inv : invocation) : cred_params :=
  {| p_authorUrl := i_authorUrl inv; p_server := None; p_token := token inv;
     p_username := username inv; p_password := password inv |}.

(** The configuration the handler gives to [createMicrosite]. *)
Definition microsite_part (inv : invocation) : microsite_config :=
  {| mc_siteName := siteName inv;
     mc_siteTitle := Some (siteTitle inv);
     mc_templatePath := Some (template_path (default standard (templateType inv)));
     mc_parentPath := Some (default "/content" (parentPath inv));
     mc_pages := Some (default default_pages (pages inv)) |}.

Lemma derive_name_truthy (title : string) :
  title <> "" -> truthy (Some (derive_name title)) = true.
Proof.
  intros H. unfold truthy, derive_name. apply negb_true_iff, String.eqb_neq.
  apply replace_run_nonempty. destruct title; simpl; congruence.
Qed.

(** The path the handler deletes is the path [createSite] posts to. *)
Lemma site_path_agrees (inv : invocation) :
  siteTitle inv <> "" ->
  site_path inv = Some (site_path_of (site_part (microsite_part inv))).
Proof.
  intros Ht.
  assert (truthy (Some (siteTitle inv)) = true) as Htt
      by (apply negb_true_iff, String.eqb_neq, Ht).
  unfold site_path, final_site_name, site_path_of, site_part, microsite_part.
  cbn [mc_siteName mc_siteTitle mc_parentPath sc_siteName sc_siteTitle
       sc_parentPath default get].
  rewrite Htt, andb_true_r.
  destruct (truthy (siteName inv)) eqn:Hn; cbn [negb].
  - rewrite Hn. destruct (siteName inv) as [n|]; [reflexivity|discriminate Hn].
  - rewrite derive_name_truthy by exact Ht. reflexivity.
Qed.

Lemma delete_phase_counts (sitePath : string) (evs : list event) :
  delete_phase sitePath evs ->
  count (is_structured_delete sitePath) evs = 1 /\
  count (is_direct_delete sitePath) evs <= 1 /\
  count (is_post_to sitePath) evs = 0 /\
  count is_sleep evs = count is_settle_delay evs /\
  count is_sleep evs <= 1.
Proof.
  intros H. unfold count.
  destruct H; cbn [List.filter is_structured_delete is_direct_delete is_post_to
                    is_sleep is_settle_delay rq_method rq_validate rq_path
                    delete_request];
    rewrite ?String.eqb_refl; cbn [length]; repeat split; lia.
Qed.


Definition demo_invocation : invocation :=
  {| siteName := None; siteTitle := "Demo"; i_authorUrl := None;
     username := Some "admin"; password := Some "admin"; token := None;
     templateType := None; pages := None; parentPath := None;
     overwrite := Some true |}.

(** A repository where [deleteSite] fails, the direct DELETE finds
    nothing, and every POST is accepted. *)
Definition stale_remote : remote := fun _ rq =>
  match rq_method rq, rq_validate rq with
  | DELETE, ValidateDefault => Status 500 (JStr "")
  | DELETE, _ => Status 404 (JStr "")
  | _, _ => Status 201 (JStr "")
  end.


(** The run of the witness: the delete phase takes the fallback, waits,
    and the site root is posted once. *)
Example overwrite_run_on_stale_remote :
  exists reply evs,
    create_microsite_tool CredentialsFacts.no_env demo_invocation stale_remote []
    = (Ok reply, evs) /\
    map (fun e => match e with
                  | Request rq _ => Some (rq_method rq, rq_path rq)
                  | _ => None
                  end)
        (List.filter (fun e => match e with
                               | Request _ _ | Sleep _ => true
                               | _ => false
                               end) evs)
    = [Some (DELETE, "/content/demo"); Some (DELETE, "/content/demo"); None;
       Some (POST, "/content/demo"); Some (POST, "/content/demo/main");
       Some (POST, "/content/demo/about"); Some (POST, "/content/demo/contact")].
Proof. eexists _, _. split; vm_compute; reflexivity. Qed.

End ToolFacts.

(** ** The protocol adapter: failure mapping *)

Module AdapterFacts.
Import JsString Json Remote Adapter.

Section Runtime.
Variable base64_utf8 : string -> string.
Variable JSON_parse : string -> json + string.
Variable stack_of : js_error -> string.
Variable create_server : E unit.
Variable exchange : compatible_request -> E http_result.
Variable create_logger : E unit.
Variable timestamp : string.
Variable env_LOG_LEVEL : option string.

Local Abbreviation handle :=
  (handleMcpRequest base64_utf8 JSON_parse stack_of create_server exchange
     env_LOG_LEVEL).
Local Abbreviation run_main :=
  (main base64_utf8 JSON_parse stack_of create_server exchange create_logger
     timestamp env_LOG_LEVEL).

(** [req] is not bound where the [catch] block reads it. *)
Lemma req_not_in_catch_scope : resolve catch_scope "req" = Throw (ReferenceError "req").
Proof. reflexivity. Qed.

(** When the [try] block throws, so does the [catch] block. *)
Lemma handleMcpRequest_rethrows (params : ow_params) :
  create_server = Ok tt ->
  exchange_fails base64_utf8 JSON_parse exchange params ->
  handle params = Throw (ReferenceError "req").
Proof.
  intros Hs [e He]. unfold handleMcpRequest. rewrite Hs. cbn [ebind].
  rewrite He. reflexivity.
Qed.

(** Whatever the verbosity, a POST whose exchange fails is answered by
    the [catch] block of [main]: 500, code -32603, and no error data. *)
Lemma main_on_failed_exchange (params : ow_params) :
  create_logger = Ok tt ->
  toLowerCase <$> __ow_method params = Some "post" ->
  create_server = Ok tt ->
  exchange_fails base64_utf8 JSON_parse exchange params ->
  run_main params
  = {| statusCode := 500;
       headers := [("Access-Control-Allow-Origin", "*");
                   ("Content-Type", "application/json")];
       body := Stringified
         (error_envelope "-32603" "Unhandled server error: req is not defined"
            None) |}.
Proof.
  intros Hl Hm Hs Hf. unfold main, route. rewrite Hl, Hm.
  rewrite handleMcpRequest_rethrows by assumption. reflexivity.
Qed.

End Runtime.

(** *** The failing input: a body that is not JSON, in debug mode *)

Definition reject_json : string -> json + string :=
  fun _ => inr "Unexpected token n in JSON at position 1".

Definition some_stack : js_error -> string :=
  fun e => err_name e +:+ ": " +:+ message e +:+ "
    at parseRequestBody (index.js:79:15)".

Definition idle_exchange : compatible_request -> E http_result :=
  fun _ => Ok {| statusCode := 200; headers := []; body := Text "" |}.

Definition bad_body_post : ow_params :=
  {| __ow_method := Some "post";
     __ow_body := Some (JStr "{not json");
     __ow_headers := None;
     mcp_session_id := None;
     param_LOG_LEVEL := Some "debug" |}.

Definition debug_main : ow_params -> http_result :=
  main (fun s => s) reject_json some_stack (Ok tt) idle_exchange (Ok tt)
    "2024-01-01T00:00:00.000Z" (Some "debug").

Definition error_message (b : result_body) : option json :=
  match envelope_error b with
  | Some e => get_prop e "message"
  | None => None
  end.

(** C7, on the code.  With [LOG_LEVEL=debug], a POST whose body does not
    parse is answered with status 500 and code -32603, by the [catch]
    block of [main] and not by that of [handleMcpRequest]: the message is
    the one of the [ReferenceError], and the error carries no data, hence
    no stack trace. *)
Theorem debug_parse_failure_has_no_stack :
  parseRequestBody (fun s => s) reject_json bad_body_post
  = Throw (Error "Failed to parse request body: Unexpected token n in JSON at position 1") /\
  statusCode (debug_main bad_body_post) = 500 /\
  error_code (body (debug_main bad_body_post)) = Some (JNum "-32603") /\
  error_message (body (debug_main bad_body_post))
  = Some (JStr "Unhandled server error: req is not defined") /\
  error_data (body (debug_main bad_body_post)) = None /\
  has_stack (body (debug_main bad_body_post)) = false.
Proof. repeat split; reflexivity. Qed.

End AdapterFacts.

(** ** Names derived from titles *)

Module NamingFacts.
Import JsString JsStringFacts Sanitize SanitizeFacts MicrositeMore.

(** What a replacement of runs by a hyphen is made of: hyphens, and
    code units of the input that are not in the class. *)
Lemma replace_run_chars (cls P : ascii -> bool) (s before : string) (skip : nat) :
  P "-"%char = true ->
  (forall c, In c (list_ascii_of_string s) -> cls c = false -> P c = true) ->
  forallb P (list_ascii_of_string (replace_scan (match_run cls) "-" before skip s))
  = true.
Proof.
  intros Hh. revert before skip.
  induction s as [|c r IH]; intros before skip H.
  - destruct skip; reflexivity.
  - assert (forall d, In d (list_ascii_of_string r) -> cls d = false -> P d = true)
      as Hr by (intros d Hd; apply H; right; exact Hd).
    destruct skip as [|k]; [|apply IH, Hr].
    cbn [replace_scan]. unfold match_run. cbn [run_length].
    destruct (cls c) eqn:Hc.
    + cbn. rewrite Hh. apply IH, Hr.
    + cbn. rewrite (H c) by (try left; auto). apply IH, Hr.
Qed.

Lemma lower_char_idem (c : ascii) : lower_char (lower_char c) = lower_char c.
Proof. each_char c. Qed.

Definition lower_fixed (c : ascii) : bool := Ascii.eqb (lower_char c) c.

Lemma toLowerCase_lower_fixed (s : string) :
  forallb lower_fixed (list_ascii_of_string (toLowerCase s)) = true.
Proof.
  induction s as [|c r IH]; [reflexivity|]. cbn. rewrite IH, andb_true_r.
  unfold lower_fixed. rewrite lower_char_idem. apply Ascii.eqb_refl.
Qed.

Lemma toLowerCase_fixed (s : string) :
  forallb lower_fixed (list_ascii_of_string s) = true -> toLowerCase s = s.
Proof.
  induction s as [|c r IH]; [reflexivity|]. cbn. intros H.
  apply andb_true_iff in H as [Hc Hr]. apply Ascii.eqb_eq in Hc.
  rewrite Hc, IH by exact Hr. reflexivity.
Qed.

(** A derived name is in lower case and free of white space, so deriving
    it again changes nothing. *)
Lemma derive_name_fixed (title : string) :
  derive_name (derive_name title) = derive_name title.
Proof.
  unfold derive_name at 1. rewrite toLowerCase_fixed.
  - unfold replace_g. apply replace_scan_run_none.
    apply (replace_run_chars is_space (fun c => negb (is_space c))).
    + reflexivity.
    + intros c _ ->. reflexivity.
  - apply replace_run_chars; [reflexivity|].
    intros c Hc _. pose proof (toLowerCase_lower_fixed title) as H.
    rewrite forallb_forall in H. apply H, Hc.
Qed.

(** X1. For every title, sanitizing the name derived from it gives what
    sanitizing the title itself gives: the site lands on the same node
    whether the name is derived by the client, derived by the handler
    first, or the title is passed as the name. *)
Theorem sanitize_derive_name (title : string) :
  sanitize (derive_name title) = sanitize title.
Proof.
  unfold sanitize. fold (derive_name (derive_name title)). fold (derive_name title).
  rewrite derive_name_fixed. reflexivity.
Qed.

Definition drop_other (c : ascii) : string :=
  if negb (is_name_char c) then "" else String c "".

Lemma fragment_name_expand (title : string) :
  fragment_name title = expand drop_other (derive_name title).
Proof.
  unfold fragment_name, replace_g.
  apply (replace_scan_class _ "" (fun _ => "")). reflexivity.
Qed.

Lemma expand_drop_other (s : string) :
  forallb is_name_char (list_ascii_of_string (expand drop_other s)) = true
  /\ String.length (expand drop_other s) <= String.length s
  /\ (forallb is_name_char (list_ascii_of_string s) = true ->
      expand drop_other s = s).
Proof.
  induction s as [|c r (IH1 & IH2 & IH3)]; [repeat split; auto|].
  cbn [expand]. unfold drop_other at 1 3 5.
  destruct (is_name_char c) eqn:Hc; cbn [negb]; cbn.
  - rewrite Hc, IH1. split; [reflexivity|]. split; [lia|].
    intros H. rewrite IH3 by exact H. reflexivity.
  - split; [exact IH1|]. split; [lia|]. rewrite Hc. discriminate.
Qed.

(** X2. The name of a content fragment holds only code units of
    [[a-z0-9-]]: what the sanitizer of site names turns into a hyphen is
    dropped here.  The name of a title over [[a-z0-9-]] is the title;
    the name of a title of other code units only is empty. *)
Theorem fragment_name_chars :
  (forall title,
     forallb is_name_char (list_ascii_of_string (fragment_name title)) = true) /\
  (forall title,
     forallb is_name_char (list_ascii_of_string title) = true ->
     fragment_name title = title) /\
  (forall title,
     forallb (fun c => negb (is_name_char (lower_char c)) && negb (is_space c))
       (list_ascii_of_string title) = true ->
     fragment_name title = "").
Proof.
  split; [|split].
  - intros title. rewrite fragment_name_expand. apply expand_drop_other.
  - intros title H. rewrite fragment_name_expand.
    assert (derive_name title = title) as ->.
    { unfold derive_name. rewrite toLowerCase_fixed.
      - apply replace_scan_run_none. rewrite forallb_forall in *.
        intros c Hc. rewrite name_char_not_space; [reflexivity|]. apply H, Hc.
      - rewrite forallb_forall in *. intros c Hc. unfold lower_fixed.
        rewrite name_char_lower by (apply H, Hc). apply Ascii.eqb_refl. }
    apply expand_drop_other, H.
  - intros title H. rewrite fragment_name_expand. unfold derive_name, replace_g.
    rewrite replace_scan_run_none.
    + induction title as [|c r IH]; [reflexivity|]. cbn in *.
      apply andb_true_iff in H as [Hc Hr]. apply andb_true_iff in Hc as [Hc _].
      unfold drop_other at 1. rewrite Hc. cbn. apply IH, Hr.
    + clear -H. induction title as [|c r IH]; [reflexivity|]. cbn in *.
      apply andb_true_iff in H as [Hc Hr]. apply andb_true_iff in Hc as [_ Hc].
      rewrite IH by exact Hr. rewrite andb_true_r.
      revert Hc. clear. each_char c.
Qed.

Lemma fragment_name_chars_witness :
  forallb is_name_char (list_ascii_of_string "summer-2024") = true /\
  fragment_name "summer-2024" = "summer-2024" /\
  forallb (fun c => negb (is_name_char (lower_char c)) && negb (is_space c))
    (list_ascii_of_string "!?!") = true /\
  fragment_name "!?!" = "".
Proof.
  split; [reflexivity|]. split.
  - apply (proj1 (proj2 fragment_name_chars)). reflexivity.
  - split; [reflexivity|]. apply (proj2 (proj2 fragment_name_chars)). reflexivity.
Defined.

End NamingFacts.

(** ** Escaping keeps values apart *)

Module EscapingMore.
Import JsString JsStringFacts Escaping EscapingFacts.

(** Where the backslash is itself escaped, the escaped text determines
    the input. *)
Lemma backslash_before_inj (special : list ascii) (a b : string) :
  "\"%char ∈ special ->
  backslash_before special a = backslash_before special b -> a = b.
Proof.
  intros Hb. unfold backslash_before. revert b.
  induction a as [|c r IH]; intros [|d q]; cbn [expand].
  - reflexivity.
  - destruct (bool_decide (d ∈ special)); discriminate.
  - destruct (bool_decide (c ∈ special)); discriminate.
  - destruct (bool_decide (c ∈ special)) eqn:Hc;
      destruct (bool_decide (d ∈ special)) eqn:Hd; cbn; intros E.
    + injection E as -> E. f_equal. apply IH, E.
    + injection E as <- E. apply bool_decide_eq_false in Hd. contradiction.
    + injection E as -> E. apply bool_decide_eq_false in Hc. contradiction.
    + injection E as -> E. f_equal. apply IH, E.
Qed.

(** X3. Each of the three escapers is injective: two different values
    never give the same predicate text or the same pattern. *)
Theorem escapers_injective :
  (forall a b, escapeGlobValue a = escapeGlobValue b -> a = b) /\
  (forall a b, escapeLikeValue a = escapeLikeValue b -> a = b) /\
  (forall a b, escapeRegex a = escapeRegex b -> a = b).
Proof.
  split; [|split]; intros a b.
  - rewrite !escapeGlobValue_spec. apply backslash_before_inj.
    apply list_elem_of_In. cbn. auto 20.
  - rewrite !escapeLikeValue_spec. apply backslash_before_inj.
    apply list_elem_of_In. cbn. auto 20.
  - rewrite !escapeRegex_spec. apply backslash_before_inj.
    apply list_elem_of_In. cbn. auto 20.
Qed.

(** The plain text of a search: no code unit of it is a pattern
    character of the expression built from it. *)
Lemma match_literal_ci_matches (lit s : string) (n : nat) :
  match_literal_ci lit s = Some n ->
  n = String.length lit /\ prefix_ci lit s = true.
Proof.
  unfold match_literal_ci. destruct (prefix_ci lit s); [|discriminate].
  intros [= <-]. split; reflexivity.
Qed.

(** X4. The expression that [replaceValuesInMetadata] builds from a
    search value matches at a position exactly when the search value
    itself, compared without regard to case, starts there; the match has
    the length of the search value.  No code unit of the search value
    acts as a pattern operator. *)
Theorem search_value_is_matched_literally (searchValue s : string) :
  RegExp_gi (escapeRegex searchValue) s
  = if prefix_ci searchValue s then Some (String.length searchValue) else None.
Proof. rewrite RegExp_gi_escapeRegex. reflexivity. Qed.

End EscapingMore.

(** ** Paths *)

Module PathFacts.
Import JsString JsStringFacts Remote Assets.

Lemma split_on_nonempty (sep : ascii) (s : string) : split_on sep s <> [].
Proof.
  induction s as [|c r IH]; cbn; [discriminate|].
  destruct (Ascii.eqb c sep); [discriminate|].
  destruct (split_on sep r); [contradiction|discriminate].
Qed.

Lemma join_cons (sep x : string) (l : list string) :
  l <> [] -> join sep (x :: l) = x +:+ sep +:+ join sep l.
Proof. destruct l; [contradiction|reflexivity]. Qed.

(** Splitting at a separator and joining with it gives the string
    back. *)
Lemma join_split_on (sep : ascii) (s : string) :
  join (String sep "") (split_on sep s) = s.
Proof.
  induction s as [|c r IH]; [reflexivity|]. cbn [split_on].
  destruct (Ascii.eqb_spec c sep) as [->|Hne].
  - rewrite join_cons by apply split_on_nonempty. rewrite IH. reflexivity.
  - pose proof (split_on_nonempty sep r) as Hn.
    destruct (split_on sep r) as [|p ps]; [contradiction|].
    destruct ps as [|p' ps].
    + cbn in *. congruence.
    + rewrite <- IH. rewrite !join_cons by discriminate. reflexivity.
Qed.

Definition no_sep (sep : ascii) (s : string) : bool :=
  forallb (fun c => negb (Ascii.eqb c sep)) (list_ascii_of_string s).

Lemma split_on_no_sep (sep : ascii) (s : string) :
  no_sep sep s = true -> split_on sep s = [s].
Proof.
  induction s as [|c r IH]; [reflexivity|]. unfold no_sep. cbn.
  intros H. apply andb_true_iff in H as [Hc Hr]. apply negb_true_iff in Hc.
  rewrite Hc. fold (no_sep sep r) in Hr. rewrite IH by exact Hr. reflexivity.
Qed.

(** The pieces of a split hold no separator. *)
Lemma split_on_pieces (sep : ascii) (s : string) :
  Forall (fun p => no_sep sep p = true) (split_on sep s).
Proof.
  induction s as [|c r IH]; cbn [split_on].
  - repeat constructor.
  - destruct (Ascii.eqb c sep) eqn:Hc.
    + constructor; [reflexivity|exact IH].
    + destruct (split_on sep r) as [|p ps]; [repeat constructor; cbn; rewrite Hc; reflexivity|].
      inversion IH as [|? ? Hp Hps]; subst. constructor; [|exact Hps].
      unfold no_sep in *. cbn. rewrite Hc, Hp. reflexivity.
Qed.

Lemma split_on_app (sep : ascii) (a b : string) :
  split_on sep (a +:+ String sep b) = split_on sep a ++ split_on sep b.
Proof.
  induction a as [|c r IH]; cbn [String.append split_on].
  - rewrite Ascii.eqb_refl. reflexivity.
  - rewrite IH. destruct (Ascii.eqb c sep); [reflexivity|].
    pose proof (split_on_nonempty sep r) as Hn.
    destruct (split_on sep r); [contradiction|reflexivity].
Qed.

Lemma basename_no_slash (path : string) : no_sep "/" (basename path) = true.
Proof.
  unfold basename, pop. pose proof (split_on_pieces "/" path) as H.
  pose proof (split_on_nonempty "/" path) as Hn.
  destruct (last (split_on "/" path)) as [x|] eqn:E.
  - cbn. rewrite Forall_forall in H. apply H.
    apply last_Some in E as [l' ->].
    apply list_elem_of_In, in_or_app. right. left. reflexivity.
  - apply last_None in E. contradiction.
Qed.

(** [pathParts.slice(0, -1).join('/')] *)
Definition parent_of (path : string) : string :=
  join "/" (slice_init (split_on "/" path)).

Lemma parent_basename_of_child (parent name : string) :
  no_sep "/" name = true ->
  parent_of (parent +:+ "/" +:+ name) = parent
  /\ basename (parent +:+ "/" +:+ name) = name.
Proof.
  intros Hn. unfold parent_of, basename, slice_init, pop.
  change (parent +:+ "/" +:+ name) with (parent +:+ String "/" name).
  rewrite split_on_app, (split_on_no_sep _ name) by exact Hn.
  rewrite removelast_last, last_snoc. split; [apply join_split_on|reflexivity].
Qed.

Lemma removelast_last_join (sep : string) (l : list string) (x : string) :
  l <> [] -> join sep (l ++ [x]) = join sep l +:+ sep +:+ x.
Proof.
  induction l as [|y l IH]; [contradiction|]. intros _.
  destruct l as [|z l].
  - reflexivity.
  - change ((y :: z :: l) ++ [x]) with (y :: ((z :: l) ++ [x])).
    rewrite (join_cons sep y ((z :: l) ++ [x])) by (cbn; discriminate).
    rewrite IH by discriminate.
    rewrite (join_cons sep y (z :: l)) by discriminate.
    rewrite !append_assoc. reflexivity.
Qed.

(** A path with a slash is its parent, a slash and its last segment. *)
Lemma parent_slash_basename (path : string) :
  no_sep "/" path = false ->
  parent_of path +:+ "/" +:+ basename path = path.
Proof.
  intros Hs. unfold parent_of, basename, slice_init, pop.
  pose proof (join_split_on "/" path) as J.
  pose proof (split_on_nonempty "/" path) as Hn.
  destruct (exists_last Hn) as (l & x & E). rewrite E in *.
  rewrite removelast_last, last_snoc. cbn [default].
  destruct l as [|y l].
  - exfalso. cbn in J. subst x.
    pose proof (split_on_pieces "/" path) as H. rewrite E in H.
    inversion H; subst. congruence.
  - rewrite removelast_last_join in J by discriminate. exact J.
Qed.

(** [authorUrl.replace(/\/$/, '')] takes one trailing slash away and
    nothing else. *)
Lemma drop_trailing_slash_snoc (s : string) (c : ascii) :
  drop_trailing_slash (s +:+ String c "")
  = if Ascii.eqb c "/" then s else s +:+ String c "".
Proof.
  induction s as [|d r IH]; [cbn; destruct (Ascii.eqb c "/"); reflexivity|].
  cbn [String.append].
  assert (drop_trailing_slash (String d (r +:+ String c ""))
          = String d (drop_trailing_slash (r +:+ String c ""))) as ->
    by (destruct r; reflexivity).
  rewrite IH. destruct (Ascii.eqb c "/"); reflexivity.
Qed.

(** X5. The constructor of a client removes exactly one trailing slash
    of the URL: a URL that ends in another code unit, and the empty one,
    are kept, and of two trailing slashes one remains. *)
Theorem new_client_drops_one_trailing_slash (creds : Credentials.credentials) :
  (forall url, authorUrl (new_client (url +:+ "/") creds) = url) /\
  (forall url c, c <> "/"%char ->
     authorUrl (new_client (url +:+ String c "") creds) = url +:+ String c "") /\
  authorUrl (new_client "" creds) = "".
Proof.
  split; [|split]; [intros url|intros url c Hc|reflexivity]; cbn [new_client authorUrl];
    rewrite drop_trailing_slash_snoc.
  - reflexivity.
  - apply Ascii.eqb_neq in Hc. rewrite Hc. reflexivity.
Qed.

Lemma new_client_drops_one_trailing_slash_witness :
  authorUrl (new_client ("https://aem.example//") (Credentials.Bearer "t"))
  = "https://aem.example/" /\
  "x"%char <> "/"%char /\
  authorUrl (new_client "https://aem.ex" (Credentials.Bearer "t")) = "https://aem.ex".
Proof.
  split.
  - apply (proj1 (new_client_drops_one_trailing_slash _) "https://aem.example/").
  - split; [discriminate|].
    apply (proj1 (proj2 (new_client_drops_one_trailing_slash _)) "https://aem.e" "x"%char).
    discriminate.
Defined.

End PathFacts.

(** ** [renameAsset]: the protocol *)

Module RenameFacts.
Import JsString JsStringFacts Json Credentials Remote Assets MicrositeFacts PathFacts.

(** [newPath] *)
Definition new_path (assetPath newName : string) : string :=
  parent_of assetPath +:+ "/" +:+ basename newName.

Definition move_request (assetPath newPath : string) : request :=
  {| rq_method := POST; rq_path := assetPath;
     rq_query := [(":operation", "move"); (":dest", newPath)];
     rq_body := JsonBody (JObj []);
     rq_validate := ValidateDefault |}.

Definition renamed (assetPath newName : string) : rename_result :=
  {| rn_success := true;
     rn_oldPath := assetPath;
     rn_newPath := new_path assetPath newName;
     rn_newName := basename newName;
     rn_message := "Asset renamed from " +:+ quote +:+ basename assetPath
                   +:+ quote +:+ " to " +:+ quote +:+ basename newName +:+ quote |}.

(** A reply with status 404. *)
Definition not_found (rp : reply) : bool :=
  match rp with
  | Status s _ => Nat.eqb s 404
  | NoResponse _ => false
  end.

#[local] Arguments valid : simpl never.

Lemma not_found_refused (rp : reply) : not_found rp = true -> accepted rp = false.
Proof.
  destruct rp as [s d|m]; [|discriminate]. cbn. intros H.
  apply Nat.eqb_eq in H as ->. reflexivity.
Qed.

(** The reply a hypothesis speaks of, found in the goal and taken apart. *)
Ltac reply_of H s d m :=
  match goal with
  | |- context [match ?r with Status _ _ => _ | NoResponse _ => _ end] =>
      first [ change (accepted r = true) in H
            | change (accepted r = false) in H
            | change (not_found r = true) in H ];
      destruct r as [s d|m]; cbn in H
  end.

Section Run.
Variable this : client.
Variables assetPath newName : string.
Variable rem : remote.
Variable t : list event.

Local Abbreviation newPath := (new_path assetPath newName).
Local Abbreviation rp1 := (rem t (head_request assetPath)).
Local Abbreviation t1 := (t ++ [Request (head_request assetPath) rp1]).
Local Abbreviation rp2 := (rem t1 (head_request newPath)).
Local Abbreviation t2 := (t1 ++ [Request (head_request newPath) rp2]).
Local Abbreviation rp3 := (rem t2 (move_request assetPath newPath)).
Local Abbreviation t3 := (t2 ++ [Request (move_request assetPath newPath) rp3]).

Hypothesis given : nonempty assetPath = true /\ nonempty newName = true.
Hypothesis in_dam : startsWith assetPath asset_root = true.

Lemma renameAsset_source_refused :
  accepted rp1 = false ->
  renameAsset this assetPath newName rem t
  = (Throw (Error ("Failed to rename asset: "
                   +:+ if not_found rp1
                       then "Asset not found at path: " +:+ assetPath
                       else failure_message rp1)), t1).
Proof.
  destruct given as [Ha Hn]. intros H1.
  unfold renameAsset, try_catch, bind, throw, ret, axios.
  rewrite Ha, Hn, in_dam. cbn [negb orb].
  destruct rp1 as [s d|m] eqn:E1; cbn in H1 |- *.
  - rewrite H1. unfold has_status. cbn.
    destruct (Nat.eqb s 404); reflexivity.
  - reflexivity.
Qed.

Lemma renameAsset_target_present :
  accepted rp1 = true -> accepted rp2 = true ->
  renameAsset this assetPath newName rem t
  = (Throw (Error ("Failed to rename asset: Asset already exists at target path: "
                   +:+ newPath)), t2).
Proof.
  destruct given as [Ha Hn]. intros H1 H2.
  unfold renameAsset, try_catch, bind, throw, ret, axios.
  rewrite Ha, Hn, in_dam. cbn [negb orb].
  unfold new_path, parent_of in *.
  reply_of H1 s d m; [|discriminate]. cbn. rewrite H1.
  reply_of H2 s2 d2 m2; [|discriminate]. cbn. rewrite H2.
  reflexivity.
Qed.

Lemma renameAsset_target_absent :
  accepted rp1 = true -> not_found rp2 = true ->
  renameAsset this assetPath newName rem t
  = (if accepted rp3 then Ok (renamed assetPath newName)
     else Throw (Error ("Failed to rename asset: " +:+ failure_message rp3)),
     t3).
Proof.
  destruct given as [Ha Hn]. intros H1 H2.
  unfold renameAsset, try_catch, bind, throw, ret, axios, renamed, move_request.
  rewrite Ha, Hn, in_dam. cbn [negb orb].
  unfold new_path, parent_of in *.
  reply_of H1 s d m; [|discriminate]. cbn. rewrite H1.
  reply_of H2 s2 d2 m2; [|discriminate].
  apply Nat.eqb_eq in H2 as ->. cbn.
  change (valid ValidateDefault 404) with false. cbn.
  match goal with
  | |- context [accepted ?r] => destruct r as [s3 d3|m3]
  end; cbn.
  - destruct (valid ValidateDefault s3); reflexivity.
  - reflexivity.
Qed.

End Run.

(** X6. A call of [renameAsset] that passes validation probes the
    source, then the target, and only then moves.  A source probe that
    is not accepted ends the call after one request; a target probe that
    is accepted ends it after two, with [Asset already exists at target
    path]: no move is sent onto an existing asset.  After a target
    probe answered 404 the move to [newPath] is the third and last
    request, and the call succeeds exactly when it is accepted. *)
Theorem renameAsset_probes_before_moving (this : client)
        (assetPath newName : string) (rem : remote) (t : list event) :
  nonempty assetPath = true -> nonempty newName = true ->
  startsWith assetPath asset_root = true ->
  let newPath := new_path assetPath newName in
  let rp1 := rem t (head_request assetPath) in
  let t1 := t ++ [Request (head_request assetPath) rp1] in
  let rp2 := rem t1 (head_request newPath) in
  let t2 := t1 ++ [Request (head_request newPath) rp2] in
  let rp3 := rem t2 (move_request assetPath newPath) in
  let t3 := t2 ++ [Request (move_request assetPath newPath) rp3] in
  (accepted rp1 = false ->
   renameAsset this assetPath newName rem t
   = (Throw (Error ("Failed to rename asset: "
                    +:+ if not_found rp1
                        then "Asset not found at path: " +:+ assetPath
                        else failure_message rp1)), t1)) /\
  (accepted rp1 = true -> accepted rp2 = true ->
   renameAsset this assetPath newName rem t
   = (Throw (Error ("Failed to rename asset: Asset already exists at target path: "
                    +:+ newPath)), t2)) /\
  (accepted rp1 = true -> not_found rp2 = true ->
   renameAsset this assetPath newName rem t
   = (if accepted rp3 then Ok (renamed assetPath newName)
      else Throw (Error ("Failed to rename asset: " +:+ failure_message rp3)),
      t3)).
Proof.
  intros Ha Hn Hd. cbv zeta. split; [|split].
  - apply renameAsset_source_refused; auto.
  - apply renameAsset_target_present; auto.
  - apply renameAsset_target_absent; auto.
Qed.

(** A repository where [/content/dam/ford/old.png] exists and
    [/content/dam/ford/new.png] does not. *)
Definition ford_dam : remote := fun _ rq =>
  match rq_method rq with
  | HEAD => if String.eqb (rq_path rq) "/content/dam/ford/old.png"
            then Status 200 JNull else Status 404 JNull
  | _ => Status 201 JNull
  end.

Definition dam_client : client :=
  new_client "http://localhost:4502" (Basic "admin" "admin").

Lemma renameAsset_probes_before_moving_witness :
  renameAsset dam_client "/content/dam/ford/old.png" "new.png" ford_dam []
  = (Ok (renamed "/content/dam/ford/old.png" "new.png"),
     [Request (head_request "/content/dam/ford/old.png") (Status 200 JNull);
      Request (head_request "/content/dam/ford/new.png") (Status 404 JNull);
      Request (move_request "/content/dam/ford/old.png" "/content/dam/ford/new.png")
        (Status 201 JNull)]).
Proof.
  exact (proj2 (proj2 (renameAsset_probes_before_moving dam_client
                         "/content/dam/ford/old.png" "new.png" ford_dam []
                         eq_refl eq_refl eq_refl)) eq_refl eq_refl).
Defined.

(** What a successful call returns. *)
Lemma renameAsset_ok (this : client) (assetPath newName : string)
      (rem : remote) (t t' : list event) (r : rename_result) :
  renameAsset this assetPath newName rem t = (Ok r, t') ->
  r = renamed assetPath newName /\ startsWith assetPath asset_root = true.
Proof.
  unfold renameAsset, try_catch, bind, throw, ret, axios, renamed, new_path, parent_of.
  destruct (negb (nonempty assetPath) || negb (nonempty newName));
    [discriminate|].
  destruct (startsWith assetPath asset_root); [|discriminate].
  cbn [negb]. intros E.
  repeat (case_match; try discriminate; simplify_eq; cbn in * ).
  all: split; reflexivity.
Qed.

(** X7. A successful [renameAsset] leaves the asset in its folder: the
    new path has the parent of the old one, and its last segment is the
    returned new name, which is the last segment of the name asked for
    and holds no slash.  Renaming to the asset's own name targets the
    asset's own path. *)
Theorem renameAsset_stays_in_folder (this : client) (assetPath newName : string)
        (rem : remote) (t t' : list event) (r : rename_result) :
  renameAsset this assetPath newName rem t = (Ok r, t') ->
  parent_of (rn_newPath r) = parent_of assetPath /\
  basename (rn_newPath r) = rn_newName r /\
  rn_newName r = basename newName /\
  no_sep "/" (rn_newName r) = true /\
  (basename newName = basename assetPath -> rn_newPath r = assetPath).
Proof.
  intros E. apply renameAsset_ok in E as [-> Hd]. cbn [renamed rn_newPath rn_newName].
  pose proof (basename_no_slash newName) as Hn.
  destruct (parent_basename_of_child (parent_of assetPath) (basename newName) Hn)
    as [Hp Hb].
  unfold new_path. repeat split; try assumption.
  intros ->. apply parent_slash_basename.
  unfold startsWith, asset_root in Hd.
  destruct assetPath as [|c r]; [discriminate|]. cbn [String.prefix] in Hd.
  destruct (ascii_dec "/" c) as [<-|]; [reflexivity|discriminate].
Qed.

Lemma renameAsset_stays_in_folder_witness :
  parent_of "/content/dam/ford/new.png" = parent_of "/content/dam/ford/old.png" /\
  basename "/content/dam/ford/new.png" = "new.png".
Proof.
  destruct (renameAsset_stays_in_folder dam_client "/content/dam/ford/old.png"
              "elsewhere/new.png" ford_dam [] _ _ eq_refl) as (Hp & Hb & _).
  split; [exact Hp|exact Hb].
Defined.

End RenameFacts.

(** ** [updateAssetMetadata]: the probe, and the call without merge *)

Module UpdateFacts.
Import JsString JsStringFacts Json Credentials Remote Assets MicrositeFacts.
Import AssetsFacts RenameFacts.

#[local] Arguments valid : simpl never.
#[local] Arguments form_pairs : simpl never.

(** A reply the write accepts: a status below 400, or 412. *)
Definition stored (rp : reply) : bool :=
  match rp with
  | Status s _ => valid ValidateBelow400Or412 s
  | NoResponse _ => false
  end.

Definition updated (assetPath : string) (updatedMetadata : list (string * json))
  : update_result :=
  {| up_success := true;
     up_assetPath := assetPath;
     up_metadata := updatedMetadata;
     up_message := "Metadata updated for asset: " +:+ basename assetPath |}.

Lemma nonempty_keys (metadata : list (string * json)) :
  metadata <> [] -> Nat.eqb (length (keys metadata)) 0 = false.
Proof. destruct metadata; [contradiction|reflexivity]. Qed.

(** X8. [updateAssetMetadata] writes nothing to an asset it has not
    seen: when the HEAD probe of the asset is not accepted, with merge
    or without, the probe is the only request of the call, and the call
    fails - with [Asset not found at path] on a 404, with the message of
    the probe's failure otherwise. *)
Theorem updateAssetMetadata_writes_after_probe_only (this : client)
        (assetPath : string) (metadata : list (string * json))
        (merge : option bool) (rem : remote) (t : list event) :
  nonempty assetPath = true -> metadata <> [] ->
  startsWith assetPath asset_root = true ->
  let rp := rem t (head_request assetPath) in
  accepted rp = false ->
  updateAssetMetadata this assetPath metadata merge rem t
  = (Throw (Error ("Failed to update asset metadata: "
                   +:+ if not_found rp
                       then "Asset not found at path: " +:+ assetPath
                       else failure_message rp)),
     t ++ [Request (head_request assetPath) rp]).
Proof.
  intros Ha Hm Hd rp H1. subst rp.
  unfold updateAssetMetadata, try_catch, bind, throw, ret, axios.
  rewrite Ha, (nonempty_keys _ Hm), Hd. cbn [negb orb].
  reply_of H1 s d m; cbn.
  - rewrite H1. unfold has_status. cbn. destruct (Nat.eqb s 404); reflexivity.
  - reflexivity.
Qed.

(** A repository without the asset. *)
Definition empty_dam : remote := fun _ _ => Status 404 JNull.

Lemma updateAssetMetadata_writes_after_probe_only_witness :
  updateAssetMetadata dam_client "/content/dam/ford/old.png"
    [("dc:title", JStr "Old")] None empty_dam []
  = (Throw (Error "Failed to update asset metadata: Asset not found at path: /content/dam/ford/old.png"),
     [Request (head_request "/content/dam/ford/old.png") (Status 404 JNull)]).
Proof.
  apply (updateAssetMetadata_writes_after_probe_only dam_client
           "/content/dam/ford/old.png" [("dc:title", JStr "Old")] None
           empty_dam []); [reflexivity|discriminate|reflexivity|reflexivity].
Defined.

(** X9. With [merge] false and the asset seen, [updateAssetMetadata]
    reads nothing: the second and last request is the write of the
    form of the input alone, and on an accepted write the input is
    what the call returns as the metadata. *)
Theorem updateAssetMetadata_without_merge_writes_input (this : client)
        (assetPath : string) (metadata : list (string * json))
        (rem : remote) (t : list event) :
  nonempty assetPath = true -> metadata <> [] ->
  startsWith assetPath asset_root = true ->
  let rp1 := rem t (head_request assetPath) in
  let t1 := t ++ [Request (head_request assetPath) rp1] in
  let rp2 := rem t1 (metadata_write assetPath metadata) in
  accepted rp1 = true ->
  updateAssetMetadata this assetPath metadata (Some false) rem t
  = (if stored rp2 then Ok (updated assetPath metadata)
     else Throw (Error ("Failed to update asset metadata: "
                        +:+ failure_message rp2)),
     t1 ++ [Request (metadata_write assetPath metadata) rp2]).
Proof.
  intros Ha Hm Hd rp1 t1 rp2 H1. subst rp1 t1 rp2.
  unfold updateAssetMetadata, try_catch, bind, throw, ret, axios,
    updated, metadata_write.
  rewrite Ha, (nonempty_keys _ Hm), Hd. cbn [negb orb default].
  reply_of H1 s d m; [|discriminate]. cbn. rewrite H1.
  match goal with
  | |- context [stored ?r] => destruct r as [s2 d2|m2]
  end; cbn.
  - destruct (valid ValidateBelow400Or412 s2); reflexivity.
  - reflexivity.
Qed.

(** A repository that has every asset and stores what it is sent. *)
Definition full_dam : remote := fun _ rq =>
  match rq_method rq with
  | POST => Status 200 JNull
  | _ => Status 200 (JObj [("dc:title", JStr "Old"); ("dc:creator", JStr "Ann")])
  end.

Lemma updateAssetMetadata_without_merge_writes_input_witness :
  updateAssetMetadata dam_client "/content/dam/ford/old.png"
    [("dc:title", JStr "New")] (Some false) full_dam []
  = (Ok (updated "/content/dam/ford/old.png" [("dc:title", JStr "New")]),
     [Request (head_request "/content/dam/ford/old.png")
        (Status 200 (JObj [("dc:title", JStr "Old"); ("dc:creator", JStr "Ann")]));
      Request {| rq_method := POST;
                 rq_path := "/content/dam/ford/old.png/jcr:content/metadata";
                 rq_query := [];
                 rq_body := Form [("dc:title", "New")];
                 rq_validate := ValidateBelow400Or412 |}
        (Status 200 JNull)]).
Proof.
  apply (updateAssetMetadata_without_merge_writes_input dam_client
           "/content/dam/ford/old.png" [("dc:title", JStr "New")] full_dam []);
    [reflexivity|discriminate|reflexivity|reflexivity].
Defined.

End UpdateFacts.

(** ** [createMicrosite] and the handler: what is not sent *)

Module MicrositeAbortFacts.
Import JsString JsStringFacts Json Credentials Sanitize Remote Microsite Tool.
Import MicrositeFacts ToolFacts.

#[local] Arguments valid : simpl never.

(** The POST of the site root. *)
Definition site_request (sc : site_config) : request :=
  post_form (site_path_of sc)
    [("jcr:primaryType", "cq:Page");
     ("jcr:content/jcr:primaryType", "cq:PageContent");
     ("jcr:content/jcr:title", get (sc_siteTitle sc));
     ("jcr:content/cq:template", default standard_template (sc_templatePath sc));
     ("jcr:content/sling:resourceType", "core/wcm/components/page/v3/page");
     ("jcr:content/language", default "en" (sc_language sc));
     ("jcr:content/country", default "US" (sc_country sc))].

Lemma createMicrosite_without_title (this : client) (cfg : microsite_config)
      (rem : remote) (t : list event) :
  truthy (mc_siteTitle cfg) = false ->
  createMicrosite this cfg rem t
  = (Throw (Error "Failed to create microsite: Failed to create site: siteTitle is required"),
     t).
Proof.
  intros Ht. unfold createMicrosite, try_catch, bind, createSite, throw.
  cbn [sc_siteTitle]. rewrite Ht. reflexivity.
Qed.

Lemma createMicrosite_site_refused (this : client) (cfg : microsite_config)
      (rem : remote) (t : list event) :
  truthy (mc_siteTitle cfg) = true ->
  accepted (rem t (site_request (site_part cfg))) = false ->
  createMicrosite this cfg rem t
  = (Throw (Error ("Failed to create microsite: Failed to create site: "
                   +:+ failure_message (rem t (site_request (site_part cfg))))),
     t ++ [Request (site_request (site_part cfg))
             (rem t (site_request (site_part cfg)))]).
Proof.
  intros Ht Hrp.
  unfold createMicrosite, createSite, try_catch, bind, throw, ret, axios.
  unfold site_request, site_path_of, site_part in *.
  cbn [sc_siteName sc_siteTitle sc_templatePath sc_parentPath sc_language
       sc_country default] in *.
  rewrite Ht in Hrp |- *. cbn [negb].
  match goal with
  | |- context [match ?r with Status _ _ => _ | NoResponse _ => _ end] =>
      change (accepted r = false) in Hrp; destruct r as [s d|m]; cbn in Hrp
  end.
  - cbn. rewrite Hrp. reflexivity.
  - reflexivity.
Qed.

(** X10. [createMicrosite] creates no page under a site root it could
    not create.  Without a title it fails before any request; when the
    POST of the site root is not accepted, that POST is the only
    request of the call.  Either way the failure carries the prefixes of
    both levels. *)
Theorem createMicrosite_stops_without_site_root (this : client)
        (cfg : microsite_config) (rem : remote) (t : list event) :
  (truthy (mc_siteTitle cfg) = false ->
   createMicrosite this cfg rem t
   = (Throw (Error "Failed to create microsite: Failed to create site: siteTitle is required"),
      t)) /\
  (truthy (mc_siteTitle cfg) = true ->
   let rq := site_request (site_part cfg) in
   let rp := rem t rq in
   accepted rp = false ->
   createMicrosite this cfg rem t
   = (Throw (Error ("Failed to create microsite: Failed to create site: "
                    +:+ failure_message rp)),
      t ++ [Request rq rp])).
Proof.
  split.
  - apply createMicrosite_without_title.
  - cbv zeta. apply createMicrosite_site_refused.
Qed.

(** A repository that refuses every write. *)
Definition read_only : remote := fun _ _ => Status 403 JNull.

Lemma createMicrosite_stops_without_site_root_witness :
  createMicrosite demo_client demo_config read_only []
  = (Throw (Error "Failed to create microsite: Failed to create site: Request failed with status code 403"),
     [Request (site_request (site_part demo_config)) (Status 403 JNull)]).
Proof.
  exact (proj2 (createMicrosite_stops_without_site_root demo_client demo_config
                  read_only []) eq_refl eq_refl).
Defined.

Lemma createMicrosite_any_title (this : client) (cfg : microsite_config)
      (rem : remote) (t : list event) :
  exists o evs,
    createMicrosite this cfg rem t = (o, t ++ evs) /\
    count is_delete evs = 0 /\ count is_sleep evs = 0.
Proof.
  destruct (truthy (mc_siteTitle cfg)) eqn:Ht.
  - destruct (createMicrosite_events this cfg rem t Ht) as (o & evs & E & Hd & Hs & _).
    exists o, evs. auto.
  - eexists _, []. rewrite app_nil_r.
    split; [apply createMicrosite_without_title, Ht|]. auto.
Qed.

(** X11. The handler of [aem-create-microsite] always returns a reply:
    whatever the repository does, no error leaves it.  Without
    credentials it returns before any request.  With [overwrite] absent
    or false it sends no DELETE and waits for nothing. *)
Theorem create_microsite_tool_without_overwrite (env : environment)
        (inv : invocation) (rem : remote) (t : list event) :
  exists reply evs,
    create_microsite_tool env inv rem t = (Ok reply, t ++ evs) /\
    (forall error, getAEMCredentials env (cred_part inv) = AuthError error ->
       reply = AuthRequired error /\ evs = []) /\
    (default false (overwrite inv) = false ->
     count is_delete evs = 0 /\ count is_sleep evs = 0).
Proof.
  unfold create_microsite_tool. fold (cred_part inv).
  destruct (getAEMCredentials env (cred_part inv)) as [error|url creds].
  { exists (AuthRequired error), []. rewrite app_nil_r.
    split; [reflexivity|]. split; [|auto]. intros ? [= <-]. auto. }
  fold (microsite_part inv).
  destruct (site_path inv) as [sitePath|].
  2:{ eexists _, []. rewrite app_nil_r. split; [reflexivity|].
      split; [discriminate|auto]. }
  destruct (default false (overwrite inv)) eqn:Hov.
  - destruct (overwrite_existing_run (new_client url creds) sitePath rem t)
      as (del_evs & Hdel & _).
    destruct (createMicrosite_any_title (new_client url creds) (microsite_part inv)
                rem (t ++ del_evs)) as (o & evs & E & _).
    unfold try_catch, bind. rewrite Hdel, E. rewrite <- app_assoc.
    destruct o; unfold ret; eexists _, _; (split; [reflexivity|]);
      (split; [discriminate|discriminate]).
  - destruct (createMicrosite_any_title (new_client url creds) (microsite_part inv)
                rem t) as (o & evs & E & Hd & Hs).
    unfold try_catch, bind, ret. rewrite E.
    destruct o; eexists _, _; (split; [reflexivity|]);
      (split; [discriminate|auto]).
Qed.

End MicrositeAbortFacts.

(** ** [listSites] and [verifyPageCreated] *)

Module ReadingFacts.
Import JsString JsStringFacts Json Credentials Remote Microsite MicrositeMore Assets.
Import MicrositeFacts ToolFacts.

#[local] Arguments valid : simpl never.

(** A child that [listSites] lists: not the [jcr:primaryType] property
    itself, and of type [cq:Page]. *)
Definition is_page (kv : string * json) : bool :=
  negb (String.eqb kv.1 "jcr:primaryType")
  && match get_prop kv.2 "jcr:primaryType" with
     | Some (JStr "cq:Page") => true
     | _ => false
     end.

Definition entry_of (parentPath : string) (kv : string * json) : site_entry :=
  {| se_name := kv.1;
     se_path := parentPath +:+ "/" +:+ kv.1;
     se_title := site_title kv.2 kv.1 |}.

(** A property on which the loop throws: [null] under another name than
    [jcr:primaryType]. *)
Definition is_null_child (kv : string * json) : bool :=
  negb (String.eqb kv.1 "jcr:primaryType")
  && match kv.2 with JNull => true | _ => false end.

Lemma list_sites_loop_run (parentPath : string) (entries : list (string * json))
      (sites : list site_entry) (rem : remote) (t : list event) :
  forallb (fun kv => negb (is_null_child kv)) entries = true ->
  list_sites_loop parentPath entries sites rem t
  = (Ok (sites ++ map (entry_of parentPath) (List.filter is_page entries)), t).
Proof.
  revert sites. induction entries as [|[key value] rest IH]; intros sites H.
  - cbn. rewrite app_nil_r. reflexivity.
  - cbn [forallb] in H. apply andb_true_iff in H as [Hkv Hrest].
    cbn [list_sites_loop List.filter]. unfold is_page, is_null_child in *.
    cbn [fst snd] in *.
    destruct (String.eqb key "jcr:primaryType"); cbn [negb andb] in *.
    + apply IH, Hrest.
    + destruct value as [|b|n|s|items|fields]; try discriminate Hkv;
        cbn [get_prop]; try (apply IH, Hrest).
      destruct (obj_get "jcr:primaryType" fields) as [[|b|n|s|items|fs]|];
        try (apply IH, Hrest).
      destruct (String.eqb_spec s "cq:Page") as [->|Hne].
      * rewrite IH by exact Hrest. cbn [map]. rewrite <- app_assoc. reflexivity.
      * assert (forall (A : Type) (x y : A),
                  match s with "cq:Page" => x | _ => y end = y) as E.
        { intros A x y.
          repeat (match goal with
                  | |- context [match ?u with "" => _ | String _ _ => _ end] =>
                      destruct u as [|[[|] [|] [|] [|] [|] [|] [|] [|]] ?]
                  end; try reflexivity).
          exfalso. apply Hne. reflexivity. }
        rewrite !E. apply IH, Hrest.
Qed.

Lemma list_sites_loop_null (parentPath : string) (entries : list (string * json))
      (sites : list site_entry) (rem : remote) (t : list event) :
  existsb is_null_child entries = true ->
  list_sites_loop parentPath entries sites rem t
  = (Throw (TypeError "Cannot read properties of null (reading 'jcr:primaryType')"),
     t).
Proof.
  revert sites. induction entries as [|[key value] rest IH]; intros sites H;
    [discriminate|].
  cbn [existsb] in H. cbn [list_sites_loop]. unfold is_null_child in H at 1.
  cbn [fst snd] in H.
  destruct (String.eqb key "jcr:primaryType"); cbn [negb andb orb] in H.
  - apply IH, H.
  - destruct value as [|b|n|s|items|fields]; [reflexivity|..]; cbn [orb] in H;
      cbn [get_prop]; try (apply IH, H).
    destruct (obj_get "jcr:primaryType" fields) as [[|b|n|s|items|fs]|];
      try (apply IH, H).
    repeat (match goal with
            | |- context [match ?u with "" => _ | String _ _ => _ end] =>
                destruct u as [|[[|] [|] [|] [|] [|] [|] [|] [|]] ?]
            end; try (apply IH, H)).
Qed.

(** X12. [listSites] sends one GET, of [<parentPath>.1.json].  From an
    accepted reply whose body is an object without [null] properties it
    returns, in the order of the body, exactly the children of type
    [cq:Page], each with the path [<parentPath>/<name>] and the title of
    its [jcr:content], or its name where that title is missing or falsy.
    A [null] property makes the whole call fail: the pages before it are
    not returned. *)
Theorem listSites_lists_the_pages (this : client) (parentPath : string)
        (rem : remote) (t : list event) (s : nat) (fields : list (string * json)) :
  let rq := get_request (parentPath +:+ ".1.json") in
  rem t rq = Status s (JObj fields) ->
  valid ValidateDefault s = true ->
  listSites this (Some parentPath) rem t
  = (if existsb is_null_child fields
     then Throw (Error "Failed to list sites: Cannot read properties of null (reading 'jcr:primaryType')")
     else Ok (map (entry_of parentPath) (List.filter is_page fields)),
     t ++ [Request rq (Status s (JObj fields))]).
Proof.
  intros rq Hrp Hs. subst rq.
  unfold listSites, try_catch, bind, axios, ret, throw.
  change (default "/content" (Some parentPath)) with parentPath. cbv zeta.
  rewrite Hrp. cbn [rq_validate get_request]. rewrite Hs.
  cbn [data truthy_json spread_entries].
  destruct (existsb is_null_child fields) eqn:Hn.
  - rewrite list_sites_loop_null by exact Hn. reflexivity.
  - rewrite list_sites_loop_run; [reflexivity|].
    clear -Hn. induction fields as [|kv r IH]; [reflexivity|].
    cbn in *. apply orb_false_iff in Hn as [-> Hr]. apply IH, Hr.
Qed.

Definition content_tree : json :=
  JObj [("jcr:primaryType", JStr "sling:OrderedFolder");
        ("demo", JObj [("jcr:primaryType", JStr "cq:Page");
                       ("jcr:content", JObj [("jcr:title", JStr "Demo")])]);
        ("dam", JObj [("jcr:primaryType", JStr "sling:Folder")]);
        ("draft", JObj [("jcr:primaryType", JStr "cq:Page")])].

Definition content_remote : remote := fun _ _ => Status 200 content_tree.

Lemma listSites_lists_the_pages_witness :
  listSites demo_client (Some "/content") content_remote []
  = (Ok [ {| se_name := "demo"; se_path := "/content/demo"; se_title := JStr "Demo" |};
          {| se_name := "draft"; se_path := "/content/draft"; se_title := JStr "draft" |} ],
     [Request (get_request "/content.1.json") (Status 200 content_tree)]).
Proof.
  exact (listSites_lists_the_pages demo_client "/content" content_remote [] 200 _
           eq_refl eq_refl).
Defined.

(** A reply in which [verifyPageCreated] sees the page: status 200 and
    a body of type [cq:Page] with a [jcr:content]. *)
Definition shows_page (rp : reply) : bool :=
  match rp with
  | Status s d => valid Validate200Or404 s
                  && page_with_content {| status := s; data := d |}
  | NoResponse _ => false
  end.

Lemma probe_round (pagePath : string) (rem : remote) (t : list event) :
  try_catch
    (response <- axios (probe_request pagePath) ;;
     ret (page_with_content response))
    (fun error => ret false) rem t
  = (Ok (shows_page (rem t (probe_request pagePath))),
     t ++ [Request (probe_request pagePath) (rem t (probe_request pagePath))]).
Proof.
  unfold try_catch, bind, axios, ret.
  destruct (rem t (probe_request pagePath)) as [s d|m]; cbn; [|reflexivity].
  destruct (valid Validate200Or404 s); reflexivity.
Qed.

(** The events of the probes answered [replies]: a wait between two
    probes, none after the last. *)
Fixpoint rounds (pagePath : string) (delayMs : nat) (replies : list reply)
  : list event :=
  match replies with
  | [] => []
  | [rp] => [Request (probe_request pagePath) rp]
  | rp :: rest =>
      Request (probe_request pagePath) rp :: Sleep delayMs
      :: rounds pagePath delayMs rest
  end.

Lemma rounds_cons (pagePath : string) (delayMs : nat) (rp : reply)
      (replies : list reply) :
  replies <> [] ->
  rounds pagePath delayMs (rp :: replies)
  = Request (probe_request pagePath) rp :: Sleep delayMs
    :: rounds pagePath delayMs replies.
Proof. destruct replies; [contradiction|reflexivity]. Qed.

Lemma verify_rounds_run (pagePath : string) (delayMs n : nat)
      (rem : remote) (t : list event) :
  exists replies,
    verify_rounds pagePath delayMs n rem t
    = (Ok (existsb shows_page replies), t ++ rounds pagePath delayMs replies) /\
    length replies <= n /\
    (0 < n -> replies <> []) /\
    Forall (fun rp => shows_page rp = false) (removelast replies) /\
    (existsb shows_page replies = false -> length replies = n).
Proof.
  revert t. induction n as [|k IH]; intros t.
  - exists []. rewrite app_nil_r. cbn.
    split; [reflexivity|]. split; [lia|]. split; [lia|].
    split; [constructor|reflexivity].
  - cbn [verify_rounds]. unfold bind at 1. rewrite probe_round.
    set (rp := rem t (probe_request pagePath)).
    destruct (shows_page rp) eqn:Hrp.
    + exists [rp]. unfold ret. cbn. rewrite Hrp.
      split; [reflexivity|]. split; [lia|]. split; [discriminate|].
      split; [constructor|discriminate].
    + unfold bind at 1.
      destruct k as [|k'].
      * exists [rp]. unfold ret. cbn. rewrite Hrp.
        split; [reflexivity|]. split; [lia|]. split; [discriminate|].
        split; [constructor|reflexivity].
      * unfold sleep, emit.
        destruct (IH ((t ++ [Request (probe_request pagePath) rp]) ++ [Sleep delayMs]))
          as (replies & E & Hle & Hne & Hall & Hf).
        specialize (Hne ltac:(lia)).
        exists (rp :: replies).
        rewrite rounds_cons by exact Hne. cbn [existsb length]. rewrite Hrp.
        cbn [orb].
        split; [rewrite E, <- !app_assoc; reflexivity|].
        split; [lia|]. split; [discriminate|]. split.
        { destruct replies as [|rp' replies]; [contradiction|].
          change (removelast (rp :: rp' :: replies))
            with (rp :: removelast (rp' :: replies)).
          constructor; [exact Hrp|exact Hall]. }
        intros Hb. rewrite (Hf Hb). reflexivity.
Qed.

(** X13. [verifyPageCreated] never throws, whatever the repository
    does.  Its trace is a row of probes of [<pagePath>.json], at most
    [maxRetries] of them (5 by default), with a wait of [delayMs] (1000
    by default) between two probes and none after the last.  No probe
    but the last shows the page with its [jcr:content]; the answer is
    [true] exactly when the last one does, and [false] only after all
    [maxRetries] probes. *)
Theorem verifyPageCreated_is_bounded (this : client) (pagePath : string)
        (maxRetries delayMs : option nat) (rem : remote) (t : list event) :
  exists replies,
    verifyPageCreated this pagePath maxRetries delayMs rem t
    = (Ok (existsb shows_page replies),
       t ++ rounds pagePath (default 1000 delayMs) replies) /\
    length replies <= default 5 maxRetries /\
    Forall (fun rp => shows_page rp = false) (removelast replies) /\
    (existsb shows_page replies = false ->
     length replies = default 5 maxRetries).
Proof.
  unfold verifyPageCreated.
  destruct (verify_rounds_run pagePath (default 1000 delayMs)
              (default 5 maxRetries) rem t)
    as (replies & E & Hle & _ & Hall & Hf).
  exists replies. auto.
Qed.

(** A page that shows up at the third probe. *)
Definition slow_remote : remote := fun t _ =>
  if Nat.ltb (length t) 4 then Status 404 JNull
  else Status 200 (JObj [("jcr:primaryType", JStr "cq:Page");
                         ("jcr:content", JObj [])]).

Example verifyPageCreated_third_probe :
  verifyPageCreated demo_client "/content/demo/main" None (Some 200) slow_remote []
  = (Ok true,
     [Request (probe_request "/content/demo/main") (Status 404 JNull);
      Sleep 200;
      Request (probe_request "/content/demo/main") (Status 404 JNull);
      Sleep 200;
      Request (probe_request "/content/demo/main")
        (Status 200 (JObj [("jcr:primaryType", JStr "cq:Page");
                           ("jcr:content", JObj [])]))]).
Proof. reflexivity. Qed.

End ReadingFacts.

(** ** [createComponent] and [createContentFragment]: the requests sent *)

Module ScaffoldFacts.
Import JsString JsStringFacts Json Credentials Sanitize Remote Microsite MicrositeMore.
Import Assets MicrositeFacts.

#[local] Arguments valid : simpl never.

(** A reply the request's own [validateStatus] accepts. *)
Definition passes (rq : request) (rp : reply) : bool :=
  match rp with
  | Status s _ => valid (rq_validate rq) s
  | NoResponse _ => false
  end.

(** Sending [reqs] in order from the trace [t], up to and including the
    first request that is not accepted: the events this leaves, and
    whether all were accepted. *)
Fixpoint sent (rem : remote) (t : list event) (reqs : list request) : list event :=
  match reqs with
  | [] => []
  | rq :: rest =>
      Request rq (rem t rq) ::
      if passes rq (rem t rq)
      then sent rem (t ++ [Request rq (rem t rq)]) rest
      else []
  end.

Fixpoint all_pass (rem : remote) (t : list event) (reqs : list request) : bool :=
  match reqs with
  | [] => true
  | rq :: rest =>
      passes rq (rem t rq) && all_pass rem (t ++ [Request rq (rem t rq)]) rest
  end.

Definition is_ok {A} (o : outcome A) : bool :=
  match o with Ok _ => true | Throw _ => false end.

(** [m] sends the requests [reqs] in order, stops at the first that is
    not accepted, and succeeds exactly when all are accepted. *)
Definition follows {A} (m : M A) (reqs : list request) : Prop :=
  forall rem t,
    (m rem t).2 = t ++ sent rem t reqs /\
    is_ok (m rem t).1 = all_pass rem t reqs.

Lemma sent_app (rem : remote) (t : list event) (p q : list request) :
  sent rem t (p ++ q)
  = sent rem t p ++ (if all_pass rem t p then sent rem (t ++ sent rem t p) q else [])
  /\ all_pass rem t (p ++ q)
     = all_pass rem t p && all_pass rem (t ++ sent rem t p) q.
Proof.
  revert t. induction p as [|rq rest IH]; intros t.
  - cbn. rewrite app_nil_r. auto.
  - cbn. destruct (passes rq (rem t rq)).
    + destruct (IH (t ++ [Request rq (rem t rq)])) as [E1 E2].
      rewrite E1, E2, <- !app_assoc. auto.
    + auto.
Qed.

Lemma follows_ret {A} (a : A) : follows (ret a) [].
Proof. intros rem t. cbn. rewrite app_nil_r. auto. Qed.

Lemma follows_axios (rq : request) : follows (axios rq) [rq].
Proof.
  intros rem t. unfold axios. cbn [sent all_pass passes].
  destruct (rem t rq) as [s d|m]; [|cbn; auto].
  destruct (valid (rq_validate rq) s) eqn:E; cbn; rewrite E; auto.
Qed.

Lemma follows_bind {A B} (m : M A) (k : A -> M B) (p q : list request) :
  follows m p -> (forall a, follows (k a) q) -> follows (bind m k) (p ++ q).
Proof.
  intros Hm Hk rem t. unfold bind.
  destruct (Hm rem t) as [Ht Ho]. destruct (sent_app rem t p q) as [-> ->].
  destruct (m rem t) as [[a|e] t']; cbn in Ht, Ho; subst t'; rewrite <- Ho.
  - destruct (Hk a rem (t ++ sent rem t p)) as [Ht' Ho'].
    rewrite Ht', <- app_assoc. auto.
  - cbn. rewrite app_nil_r. auto.
Qed.

(** A [catch] that throws again changes neither. *)
Lemma follows_rethrow {A} (m : M A) (f : js_error -> js_error)
      (reqs : list request) :
  follows m reqs -> follows (try_catch m (fun e => throw (f e))) reqs.
Proof.
  intros Hm rem t. unfold try_catch, throw. destruct (Hm rem t) as [Ht Ho].
  destruct (m rem t) as [[a|e] t']; auto.
Qed.

(** *** The plan of [createComponent] *)

Definition field_request (itemsPath : string) (property : dialog_property)
           (index : nat) : request :=
  post_form (itemsPath +:+ "/field" +:+ pretty index)
    ([("jcr:primaryType", "nt:unstructured");
      ("sling:resourceType",
       "granite/ui/components/coral/foundation/form/" +:+ dp_type property);
      ("fieldLabel", dp_label property);
      ("name", "./" +:+ dp_name property)]
     ++ if dp_required property then [("required", "true")] else []).

Fixpoint field_requests (itemsPath : string) (properties : list dialog_property)
         (i : nat) : list request :=
  match properties with
  | [] => []
  | prop :: rest =>
      field_request itemsPath prop i :: field_requests itemsPath rest (S i)
  end.

Definition dialog_requests (componentPath : string)
           (properties : list dialog_property) : list request :=
  post_form (componentPath +:+ "/cq:dialog")
    [("jcr:primaryType", "nt:unstructured");
     ("sling:resourceType", "cq/gui/components/authoring/dialog")]
  :: post_form ((componentPath +:+ "/cq:dialog") +:+ "/content/items")
       [("jcr:primaryType", "nt:unstructured")]
  :: field_requests ((componentPath +:+ "/cq:dialog") +:+ "/content/items")
       properties 0.

Definition file_request (filePath content : string) : request :=
  post_form filePath
    [("jcr:primaryType", "nt:file");
     ("jcr:content/jcr:primaryType", "nt:resource");
     ("jcr:content/jcr:data", content);
     ("jcr:content/jcr:mimeType", "text/html")].

(** The node, the dialog with one field per property when there are
    properties, and the template file. *)
Definition plan (cfg : component_config) : list request :=
  let name := derive_name (get (cc_componentName cfg)) in
  let fullPath := get (cc_componentPath cfg) +:+ "/" +:+ name in
  let properties := default [] (cc_properties cfg) in
  [post_form fullPath
     [("jcr:primaryType", "cq:Component");
      ("jcr:title", get (cc_componentTitle cfg));
      ("componentGroup",
       default "Custom Components" (cc_componentGroup cfg));
      ("jcr:description", get (cc_componentTitle cfg) +:+ " component")]]
  ++ (match properties with
      | [] => []
      | _ => dialog_requests fullPath properties
      end)
  ++ [file_request (fullPath +:+ "/" +:+ name +:+ ".html")
        (generateHTLTemplate (get (cc_componentName cfg)) properties)].

Lemma create_fields_follows (this : client) (itemsPath : string)
      (properties : list dialog_property) (i : nat) :
  follows (create_fields this itemsPath properties i)
    (field_requests itemsPath properties i).
Proof.
  revert i. induction properties as [|prop rest IH]; intros i.
  - apply follows_ret.
  - cbn [create_fields field_requests].
    apply (follows_bind _ _ [_] _); [|intros _; apply IH].
    unfold createDialogField. apply follows_rethrow.
    apply (follows_bind _ _ [_] []); [apply follows_axios|].
    intros _. apply follows_ret.
Qed.

Lemma createComponentDialog_follows (this : client) (componentPath : string)
      (properties : list dialog_property) :
  follows (createComponentDialog this componentPath properties)
    (dialog_requests componentPath properties).
Proof.
  unfold createComponentDialog, dialog_requests. apply follows_rethrow.
  apply (follows_bind _ _ [_] _); [apply follows_axios|]. intros _.
  apply (follows_bind _ _ [_] _); [apply follows_axios|]. intros _.
  apply create_fields_follows.
Qed.

Lemma createFile_follows (this : client) (filePath content : string) :
  follows (createFile this filePath content) [file_request filePath content].
Proof.
  unfold createFile. apply follows_rethrow.
  apply (follows_bind _ _ [_] []); [apply follows_axios|].
  intros _. apply follows_ret.
Qed.

Definition required_given (cfg : component_config) : bool :=
  truthy (cc_componentName cfg) && truthy (cc_componentTitle cfg)
  && truthy (cc_componentPath cfg).

(** X14. [createComponent] without a name, a title or a path fails
    before any request.  Otherwise it sends the requests of its plan in
    order - the component node, then for a component with properties
    the dialog, its items node and one field per property, then the
    template file - and stops at the first request that is not
    accepted; it succeeds exactly when all are.  The plan has two
    requests for a component without properties and four more than
    there are properties otherwise. *)
Theorem createComponent_follows_its_plan (this : client) (cfg : component_config)
        (rem : remote) (t : list event) :
  (required_given cfg = false ->
   createComponent this cfg rem t
   = (Throw (Error "Failed to create component: componentName, componentTitle, and componentPath are required"),
      t)) /\
  (required_given cfg = true ->
   (createComponent this cfg rem t).2 = t ++ sent rem t (plan cfg) /\
   is_ok (createComponent this cfg rem t).1 = all_pass rem t (plan cfg)) /\
  length (plan cfg)
  = match default [] (cc_properties cfg) with
    | [] => 2
    | properties => length properties + 4
    end.
Proof.
  unfold required_given. split; [|split].
  - intros H. unfold createComponent, try_catch, throw.
    destruct (truthy (cc_componentName cfg)), (truthy (cc_componentTitle cfg)),
      (truthy (cc_componentPath cfg)); try discriminate H; reflexivity.
  - intros H. apply andb_true_iff in H as [H H3]. apply andb_true_iff in H as [H1 H2].
    revert rem t. change (follows (createComponent this cfg) (plan cfg)).
    unfold createComponent, plan. apply follows_rethrow. cbv zeta.
    rewrite H1, H2, H3. cbn [negb orb].
    apply (follows_bind _ _ [_] _); [apply follows_axios|]. intros _.
    apply follows_bind.
    + destruct (default [] (cc_properties cfg)) as [|p ps];
        [apply follows_ret|apply createComponentDialog_follows].
    + intros _. apply (follows_bind _ _ [_] []); [apply createFile_follows|].
      intros _. apply follows_ret.
  - unfold plan. cbv zeta. rewrite !length_app.
    destruct (default [] (cc_properties cfg)) as [|p ps]; [reflexivity|].
    unfold dialog_requests. cbn [length].
    assert (forall path l i, length (field_requests path l i) = length l) as E.
    { intros path. induction l as [|x l IH]; intros i; cbn; [reflexivity|].
      rewrite IH. reflexivity. }
    rewrite E. cbn [length]. lia.
Qed.

(** A component with one property, and a repository that refuses the
    items node of a dialog. *)
Definition hero : component_config :=
  {| cc_componentName := Some "Hero Banner";
     cc_componentTitle := Some "Hero Banner";
     cc_componentPath := Some "/apps/demo/components";
     cc_componentGroup := None;
     cc_properties :=
       Some [ {| dp_name := "heading"; dp_type := "textfield";
                 dp_label := "Heading"; dp_required := true |} ] |}.

Definition no_items : remote := fun _ rq =>
  if String.eqb (rq_path rq)
       "/apps/demo/components/hero-banner/cq:dialog/content/items"
  then Status 500 JNull else Status 201 JNull.

Lemma createComponent_follows_its_plan_witness :
  length (plan hero) = 5 /\
  map (fun e => match e with
                | Request rq rp => (rq_path rq, passes rq rp)
                | _ => ("", false)
                end)
    (createComponent demo_client hero no_items []).2
  = [("/apps/demo/components/hero-banner", true);
     ("/apps/demo/components/hero-banner/cq:dialog", true);
     ("/apps/demo/components/hero-banner/cq:dialog/content/items", false)] /\
  is_ok (createComponent demo_client hero no_items []).1 = false.
Proof.
  destruct (createComponent_follows_its_plan demo_client hero no_items [])
    as (_ & H & Hn).
  destruct (H eq_refl) as [E1 E2].
  split; [exact Hn|]. split; [rewrite E1|rewrite E2]; reflexivity.
Defined.

(** *** [createContentFragment] *)

Definition fragment_given (cfg : fragment_config) : bool :=
  truthy (fc_fragmentTitle cfg) && truthy (fc_fragmentPath cfg)
  && truthy (fc_modelPath cfg).

Definition fragment_request (cfg : fragment_config) : request :=
  post_form (get (fc_fragmentPath cfg) +:+ "/"
             +:+ fragment_name (get (fc_fragmentTitle cfg)))
    ([("jcr:primaryType", "dam:Asset");
      ("jcr:content/contentFragment", "true");
      ("jcr:content/jcr:title", get (fc_fragmentTitle cfg));
      ("jcr:content/cq:model", get (fc_modelPath cfg));
      ("jcr:content/data/cq:model", get (fc_modelPath cfg))]
     ++ map (fun kv => ("jcr:content/data/master/" +:+ kv.1, to_string kv.2))
          (default [] (fc_fields cfg))).

(** X15. [createContentFragment] without a title, a path or a model
    fails before any request.  Otherwise it sends one POST, to
    [<fragmentPath>/<name>] with the name derived from the title, and
    succeeds exactly when that POST is accepted; the form carries the
    title as given and every field under [jcr:content/data/master/]
    with its value as a string. *)
Theorem createContentFragment_posts_once (this : client) (cfg : fragment_config)
        (rem : remote) (t : list event) :
  (fragment_given cfg = false ->
   createContentFragment this cfg rem t
   = (Throw (Error "Failed to create content fragment: fragmentTitle, fragmentPath, and modelPath are required"),
      t)) /\
  (fragment_given cfg = true ->
   let rq := fragment_request cfg in
   (createContentFragment this cfg rem t).2 = t ++ [Request rq (rem t rq)] /\
   is_ok (createContentFragment this cfg rem t).1 = passes rq (rem t rq) /\
   forall r, (createContentFragment this cfg rem t).1 = Ok r ->
             fr_fullPath r = rq_path rq /\
             fr_fragmentTitle r = get (fc_fragmentTitle cfg)).
Proof.
  unfold fragment_given. split.
  - intros H. unfold createContentFragment, try_catch, throw.
    destruct (truthy (fc_fragmentTitle cfg)), (truthy (fc_fragmentPath cfg)),
      (truthy (fc_modelPath cfg)); try discriminate H; reflexivity.
  - intros H. apply andb_true_iff in H as [H H3]. apply andb_true_iff in H as [H1 H2].
    cbv zeta. unfold createContentFragment, try_catch, bind, axios, ret, throw.
    rewrite H1, H2, H3. cbn [negb orb]. fold (fragment_request cfg).
    destruct (rem t (fragment_request cfg)) as [s d|m]; cbn.
    + destruct (valid ValidateDefault s); cbn.
      * split; [reflexivity|]. split; [reflexivity|].
        intros x [= <-]. split; reflexivity.
      * split; [reflexivity|]. split; [reflexivity|discriminate].
    + split; [reflexivity|]. split; [reflexivity|discriminate].
Qed.

Definition teaser_fragment : fragment_config :=
  {| fc_fragmentTitle := Some "Summer Sale!";
     fc_fragmentPath := Some "/content/dam/fragments";
     fc_modelPath := Some "/conf/demo/models/teaser";
     fc_fields := Some [("headline", JStr "Summer"); ("discount", JNum "20")] |}.

Definition accepting : remote := fun _ _ => Status 201 JNull.

Lemma createContentFragment_posts_once_witness :
  (createContentFragment demo_client teaser_fragment accepting []).2
  = [Request
       (post_form "/content/dam/fragments/summer-sale"
          [("jcr:primaryType", "dam:Asset");
           ("jcr:content/contentFragment", "true");
           ("jcr:content/jcr:title", "Summer Sale!");
           ("jcr:content/cq:model", "/conf/demo/models/teaser");
           ("jcr:content/data/cq:model", "/conf/demo/models/teaser");
           ("jcr:content/data/master/headline", "Summer");
           ("jcr:content/data/master/discount", "20")])
       (Status 201 JNull)].
Proof.
  exact (proj1 (proj2 (createContentFragment_posts_once demo_client teaser_fragment
                         accepting []) eq_refl)).
Defined.

End ScaffoldFacts.

(** ** [searchAssets]: one query, one metadata read per hit *)

Module SearchRunFacts.
Import JsString JsStringFacts Json Credentials Remote Assets AssetSearch.
Import MicrositeFacts ReadingFacts.

#[local] Arguments valid : simpl never.

(** The read of the metadata of one hit. *)
Definition metadata_request (assetPath : string) : request :=
  get_request (assetPath +:+ "/jcr:content/metadata.json").

Definition request_of (e : event) : option request :=
  match e with Request rq _ => Some rq | _ => None end.

(** What one hit leaves in the trace after its read: a warning when the
    read was answered 401. *)
Definition hit_warning (assetPath : string) (rp : reply) : list event :=
  match rp with
  | Status s _ =>
      if Nat.eqb s 401
      then [ConsoleWarn ("Warning: Could not fetch metadata for " +:+ assetPath
                         +:+ " due to authentication error")]
      else []
  | NoResponse _ => []
  end.

Lemma accepted_not_401 (s : nat) :
  valid ValidateDefault s = true -> Nat.eqb s 401 = false.
Proof.
  unfold valid. intros H. apply andb_true_iff in H as [_ H].
  apply Nat.ltb_lt in H. apply Nat.eqb_neq. lia.
Qed.

Lemma process_hit_run (this : client) (searchValue replaceValue : option string)
      (assetPath : string) (rem : remote) (t : list event) :
  exists r,
    process_hit this searchValue replaceValue assetPath rem t
    = (Ok r, t ++ Request (metadata_request assetPath)
                    (rem t (metadata_request assetPath))
               :: hit_warning assetPath (rem t (metadata_request assetPath))) /\
    ar_path r = assetPath /\ ar_name r = basename assetPath /\
    ar_url r = authorUrl this +:+ assetPath /\
    (accepted (rem t (metadata_request assetPath)) = false ->
     ar_title r = JStr (basename assetPath) /\ ar_metadata r = JObj []).
Proof.
  unfold process_hit, bind, try_catch, axios, ret, console_warn, emit.
  fold (metadata_request assetPath).
  destruct (rem t (metadata_request assetPath)) as [s d|m];
    cbn [rq_validate metadata_request get_request hit_warning accepted].
  - destruct (valid ValidateDefault s) eqn:Hv.
    + rewrite (accepted_not_401 s Hv). cbn [fst snd data].
      destruct (apply_replace _ _ _ _) as [a md]. eexists. split; [reflexivity|].
      cbn. repeat split; discriminate.
    + unfold has_status. cbn [err_response status].
      destruct (Nat.eqb s 401); cbn [fst snd]; unfold apply_replace;
        destruct (supplied searchValue); cbn;
        eexists; (split; [rewrite <- ?app_assoc; reflexivity|]);
        cbn; repeat split.
  - unfold has_status. cbn [err_response fst snd]. unfold apply_replace.
    destruct (supplied searchValue); cbn;
      eexists; (split; [reflexivity|]); cbn; repeat split.
Qed.

(** The path of a hit, when it has one that is a string. *)
Definition path_of (hit : json) : option string :=
  match hit with
  | JNull => None
  | _ => match get_prop hit "path" with
         | Some (JStr assetPath) => Some assetPath
         | _ => None
         end
  end.

Lemma path_of_hit_run (hit : json) (rem : remote) (t : list event) :
  match path_of hit with
  | Some assetPath => path_of_hit hit rem t = (Ok assetPath, t)
  | None => exists e, path_of_hit hit rem t = (Throw e, t)
                      /\ err_name e = "TypeError"
  end.
Proof.
  unfold path_of, path_of_hit, throw, ret.
  destruct hit as [|b|n|s|items|fields]; cbn [get_prop];
    try (eexists; split; reflexivity).
  destruct (obj_get "path" fields) as [[|b|n|s|items|fs]|];
    try reflexivity; eexists; split; reflexivity.
Qed.

Lemma search_hits_run (this : client) (searchValue replaceValue : option string)
      (hits : list json) (paths : list string) (rem : remote) :
  Forall2 (fun hit assetPath => path_of hit = Some assetPath) hits paths ->
  forall (results : list asset_result) (t : list event),
  exists rs evs,
    search_hits this searchValue replaceValue hits results rem t
    = (Ok (results ++ rs), t ++ evs) /\
    map ar_path rs = paths /\
    omap request_of evs = map metadata_request paths /\
    Forall (fun a => ar_name a = basename (ar_path a)
                     /\ ar_url a = authorUrl this +:+ ar_path a) rs.
Proof.
  induction 1 as [|hit assetPath hits paths Hp _ IH]; intros results t.
  - exists [], []. rewrite !app_nil_r. repeat split. constructor.
  - cbn [search_hits]. unfold bind at 1.
    pose proof (path_of_hit_run hit rem t) as Hh. rewrite Hp in Hh. rewrite Hh.
    unfold bind at 1.
    destruct (process_hit_run this searchValue replaceValue assetPath rem t)
      as (r & -> & Hpath & Hname & Hurl & _).
    destruct (IH (results ++ [r])
                (t ++ Request (metadata_request assetPath)
                        (rem t (metadata_request assetPath))
                   :: hit_warning assetPath (rem t (metadata_request assetPath))))
      as (rs & evs & -> & Hps & Hrq & Hall).
    exists (r :: rs), (Request (metadata_request assetPath)
                         (rem t (metadata_request assetPath))
                       :: hit_warning assetPath (rem t (metadata_request assetPath))
                       ++ evs).
    split; [rewrite <- !app_assoc; reflexivity|].
    split; [cbn; congruence|]. split.
    + change (omap request_of (?e :: ?l)) with
        (metadata_request assetPath
         :: omap request_of
              (hit_warning assetPath (rem t (metadata_request assetPath)) ++ evs)).
      rewrite omap_app.
      assert (omap request_of
                (hit_warning assetPath (rem t (metadata_request assetPath))) = [])
        as ->.
      { unfold hit_warning. destruct (rem t _) as [s d|m]; [|reflexivity].
        destruct (Nat.eqb s 401); reflexivity. }
      cbn. rewrite Hrq. reflexivity.
    + constructor; [|exact Hall]. rewrite Hpath, Hname, Hurl. auto.
Qed.

(** Whatever the hits are, the trace only grows. *)
Lemma search_hits_extends (this : client) (searchValue replaceValue : option string)
      (hits : list json) (results : list asset_result)
      (rem : remote) (t : list event) :
  exists o evs,
    search_hits this searchValue replaceValue hits results rem t = (o, t ++ evs).
Proof.
  revert results t. induction hits as [|hit hits IH]; intros results t.
  - exists (Ok results), []. rewrite app_nil_r. reflexivity.
  - cbn [search_hits]. unfold bind at 1.
    pose proof (path_of_hit_run hit rem t) as Hh.
    destruct (path_of hit) as [assetPath|].
    + rewrite Hh. unfold bind at 1.
      destruct (process_hit_run this searchValue replaceValue assetPath rem t)
        as (r & -> & _).
      destruct (IH (results ++ [r])
                  (t ++ Request (metadata_request assetPath)
                          (rem t (metadata_request assetPath))
                     :: hit_warning assetPath (rem t (metadata_request assetPath))))
        as (o & evs & ->).
      eexists _, _. rewrite <- app_assoc. reflexivity.
    + destruct Hh as (e & -> & _). exists (Throw e), []. rewrite app_nil_r.
      reflexivity.
Qed.

Lemma prefix_app_l (p a b : string) :
  String.prefix p a = true -> String.prefix p (a +:+ b) = true.
Proof.
  revert a. induction p as [|c p IH]; intros a;
    [intros _; destruct (a +:+ b); reflexivity|].
  destruct a as [|d a]; [discriminate|]. cbn [String.prefix String.append].
  destruct (ascii_dec c d); [apply IH|discriminate].
Qed.

Lemma includes_app_l (a b sub : string) :
  includes a sub = true -> includes (a +:+ b) sub = true.
Proof.
  induction a as [|c a IH]; cbn [includes String.append].
  - rewrite orb_false_r. destruct sub; [|discriminate]. intros _.
    destruct b; reflexivity.
  - intros H. apply orb_true_iff in H as [H|H].
    + apply (prefix_app_l _ (String c a) b) in H. cbn [String.append] in H.
      rewrite H. reflexivity.
    + rewrite (IH H). apply orb_true_r.
Qed.

Section Runtime.
Variable params_toString : list (string * string) -> string.
Variable light_bulb : string.

Local Abbreviation search := (searchAssets params_toString light_bulb).
Local Abbreviation unauthorized := (unauthorized_message params_toString light_bulb).

(** The failure of the whole search on a 401 of the query. *)
Definition unauthorized_failure (this : client) (cfg : search_config) : string :=
  "Failed to search assets: " +:+ unauthorized this cfg.

Lemma unauthorized_failure_shape (this : client) (cfg : search_config) :
  String.prefix
    "Failed to search assets: Failed to search assets: Request failed with status code 401"
    (unauthorized_failure this cfg) = true /\
  includes (unauthorized_failure this cfg) "401" = true /\
  includes (unauthorized_failure this cfg)
    (if uses_token this then "Authentication Method: Bearer token"
     else "Authentication Method: username/password") = true.
Proof.
  unfold unauthorized_failure, unauthorized_message. cbv zeta.
  destruct (uses_token this).
  - rewrite <- !append_assoc. split; [|split].
    + do 11 apply prefix_app_l. reflexivity.
    + do 11 apply includes_app_l. reflexivity.
    + do 9 apply includes_app_l. rewrite !append_assoc. vm_compute. reflexivity.
  - rewrite <- !append_assoc. split; [|split].
    + do 8 apply prefix_app_l. reflexivity.
    + do 8 apply includes_app_l. reflexivity.
    + do 6 apply includes_app_l. rewrite !append_assoc. vm_compute. reflexivity.
Qed.

Lemma searchAssets_extends (this : client) (cfg : search_config)
      (rem : remote) (t : list event) :
  exists o evs,
    search this cfg rem t
    = (o, t ++ Request (querybuilder_request cfg)
                 (rem t (querybuilder_request cfg)) :: evs).
Proof.
  unfold searchAssets, try_catch, bind, axios, throw, ret.
  destruct (rem t (querybuilder_request cfg)) as [s d|m].
  2:{ eexists _, _. reflexivity. }
  cbn [rq_validate querybuilder_request]. fold (querybuilder_request cfg).
  destruct (valid ValidateDefault s).
  2:{ destruct (has_status _ 401); eexists _, _; reflexivity. }
  cbn [data]. destruct (hits_of d) as [hits|].
  2:{ eexists _, _. reflexivity. }
  unfold iterate, throw, ret.
  destruct hits as [|b|n|str|items|fields]; try (eexists _, _; reflexivity).
  - destruct (search_hits_extends this (q_searchValue cfg) (q_replaceValue cfg)
                (chars_of str) [] rem
                (t ++ [Request (querybuilder_request cfg) (Status s d)]))
      as (o & evs & ->).
    destruct o; eexists _, _; rewrite <- app_assoc; reflexivity.
  - destruct (search_hits_extends this (q_searchValue cfg) (q_replaceValue cfg)
                items [] rem
                (t ++ [Request (querybuilder_request cfg) (Status s d)]))
      as (o & evs & ->).
    destruct o; eexists _, _; rewrite <- app_assoc; reflexivity.
Qed.

(** X16. After an accepted query, [searchAssets] reads the metadata of
    every hit once, in the order of the hits, and returns one result per
    hit in that order, whatever the replies to these reads are: a read
    that fails does not fail the search.  Every result has
    the last segment of its path as its name and the author URL before
    its path as its URL; [count] is the number of results and [total]
    is the [total] of the reply, or 0.  A reply without hits gives an
    empty result after the query alone. *)
Theorem searchAssets_reads_every_hit (this : client) (cfg : search_config)
        (rem : remote) (t : list event) (s : nat) (d : json) :
  let q := querybuilder_request cfg in
  rem t q = Status s d -> valid ValidateDefault s = true ->
  (hits_of d = None ->
   exists r, search this cfg rem t = (Ok r, t ++ [Request q (Status s d)]) /\
             sr_results r = [] /\ sr_count r = 0 /\ sr_total r = total_of d) /\
  (forall hits paths,
     hits_of d = Some (JArr hits) ->
     Forall2 (fun hit assetPath => path_of hit = Some assetPath) hits paths ->
     exists r evs,
       search this cfg rem t = (Ok r, t ++ Request q (Status s d) :: evs) /\
       map ar_path (sr_results r) = paths /\
       omap request_of evs = map metadata_request paths /\
       sr_count r = length paths /\
       sr_total r = total_of d /\
       Forall (fun a => ar_name a = basename (ar_path a)
                        /\ ar_url a = authorUrl this +:+ ar_path a)
         (sr_results r)).
Proof.
  intros q Hq Hs. subst q. split.
  - intros Hh. unfold searchAssets, try_catch, bind, axios, throw, ret.
    rewrite Hq. cbn [rq_validate querybuilder_request]. rewrite Hs.
    cbn [data]. rewrite Hh. eexists. split; [reflexivity|]. cbn. auto.
  - intros hits paths Hh Hp.
    destruct (search_hits_run this (q_searchValue cfg) (q_replaceValue cfg)
                hits paths rem Hp []
                (t ++ [Request (querybuilder_request cfg) (Status s d)]))
      as (rs & evs & E & Hps & Hrq & Hall).
    unfold searchAssets, try_catch, bind, axios, throw, ret.
    rewrite Hq. cbn [rq_validate querybuilder_request]. rewrite Hs.
    cbn [data]. rewrite Hh. unfold iterate, ret.
    fold (querybuilder_request cfg). rewrite E.
    eexists _, evs. split; [rewrite <- app_assoc; reflexivity|].
    cbn [sr_results sr_count sr_total app].
    rewrite <- Hps at 3. rewrite length_map. auto 10.
Qed.

Lemma searchAssets_refused (this : client) (cfg : search_config)
      (rem : remote) (t : list event) (s : nat) (d : json) :
  rem t (querybuilder_request cfg) = Status s d ->
  valid ValidateDefault s = false ->
  search this cfg rem t
  = (Throw (Error (if Nat.eqb s 401 then unauthorized_failure this cfg
                   else "Failed to search assets: Request failed with status code "
                        +:+ pretty s)),
     t ++ [Request (querybuilder_request cfg) (Status s d)]).
Proof.
  intros Hq Hs. unfold searchAssets, try_catch, bind, axios, throw, ret.
  rewrite Hq. cbn [rq_validate querybuilder_request]. rewrite Hs.
  unfold has_status. cbn [err_response status].
  destruct (Nat.eqb s 401); reflexivity.
Qed.

(** X17. A query that is not accepted is the only request of
    [searchAssets].  On status 401 the failure names the way of
    authentication the client uses - [Bearer token] for a client with a
    token, [username/password] otherwise - and carries the prefix
    [Failed to search assets: ] twice; on another status it is the
    prefix once, then the message of the refusal. *)
Theorem searchAssets_refused_query (this : client) (cfg : search_config)
        (rem : remote) (t : list event) (s : nat) (d : json) :
  let q := querybuilder_request cfg in
  rem t q = Status s d -> valid ValidateDefault s = false ->
  search this cfg rem t
  = (Throw (Error (if Nat.eqb s 401 then unauthorized_failure this cfg
                   else "Failed to search assets: Request failed with status code "
                        +:+ pretty s)),
     t ++ [Request q (Status s d)]) /\
  String.prefix
    "Failed to search assets: Failed to search assets: Request failed with status code 401"
    (unauthorized_failure this cfg) = true /\
  includes (unauthorized_failure this cfg)
    (if uses_token this then "Authentication Method: Bearer token"
     else "Authentication Method: username/password") = true.
Proof.
  intros q Hq Hs. subst q. split.
  - apply searchAssets_refused; assumption.
  - destruct (unauthorized_failure_shape this cfg) as (H1 & _ & H3). auto.
Qed.

End Runtime.

(** A repository with two hits under [/content/dam/ford], whose metadata
    it does not give to this client. *)
Definition ford_hits : json :=
  JObj [("success", JBool true); ("total", JNum "2");
        ("hits", JArr [JObj [("path", JStr "/content/dam/ford/a.png")];
                       JObj [("path", JStr "/content/dam/ford/b.png")]])].

Definition guarded_dam : remote := fun _ rq =>
  if String.eqb (rq_path rq) "/bin/querybuilder.json"
  then Status 200 ford_hits else Status 403 JNull.

Definition ford_query : search_config :=
  {| q_query := Some "ford"; q_filename := None; q_title := None;
     q_damPath := None; q_limit := None; q_offset := None;
     q_searchValue := None; q_replaceValue := None |}.

Definition plain_params : list (string * string) -> string :=
  fun ps => join "&" (map (fun kv => kv.1 +:+ "=" +:+ kv.2) ps).

Lemma searchAssets_reads_every_hit_witness :
  exists r evs,
    searchAssets plain_params "*" demo_client ford_query guarded_dam []
    = (Ok r, Request (querybuilder_request ford_query) (Status 200 ford_hits) :: evs) /\
    map ar_path (sr_results r) = ["/content/dam/ford/a.png"; "/content/dam/ford/b.png"] /\
    omap request_of evs
    = [metadata_request "/content/dam/ford/a.png";
       metadata_request "/content/dam/ford/b.png"].
Proof.
  destruct (proj2 (searchAssets_reads_every_hit plain_params "*" demo_client
                     ford_query guarded_dam [] 200 ford_hits eq_refl eq_refl)
              _ ["/content/dam/ford/a.png"; "/content/dam/ford/b.png"] eq_refl)
    as (r & evs & E & Hp & Hrq & _).
  { repeat constructor. }
  exists r, evs. auto.
Defined.

Definition locked_dam : remote := fun _ _ => Status 401 JNull.

Lemma searchAssets_refused_query_witness :
  searchAssets plain_params "*" demo_client ford_query locked_dam []
  = (Throw (Error (unauthorized_failure plain_params "*" demo_client ford_query)),
     [Request (querybuilder_request ford_query) (Status 401 JNull)]).
Proof.
  exact (proj1 (searchAssets_refused_query plain_params "*" demo_client ford_query
                  locked_dam [] 401 JNull eq_refl eq_refl)).
Defined.

End SearchRunFacts.

(** ** The other handlers: what they check before they send *)

Module ToolsFacts.
Import JsString JsStringFacts Json Credentials Remote Microsite Assets AssetSearch Tools.
Import MicrositeFacts SearchRunFacts.

#[local] Arguments valid : simpl never.

Definition delete_params (authorUrl username password token : option string)
  : cred_params :=
  {| p_authorUrl := authorUrl; p_server := None; p_token := token;
     p_username := username; p_password := password |}.

(** X18. The handler of [aem-delete-site] sends nothing unless
    [confirm] is true: without it the reply is the cancellation, with or
    without credentials.  With it and without credentials nothing is
    sent either.  With both, the one request is the DELETE of
    [sitePath] as given, and the reply tells whether it was accepted;
    no error leaves the handler. *)
Theorem delete_site_tool_needs_confirmation (env : environment) (sitePath : string)
        (authorUrl username password token : option string)
        (rem : remote) (t : list event) :
  delete_site_tool env sitePath authorUrl username password token false rem t
  = (Ok DeletionCancelled, t) /\
  delete_site_tool env sitePath authorUrl username password token true rem t
  = match getAEMCredentials env
            (delete_params authorUrl username password token) with
    | AuthError error => (Ok (DeleteAuthRequired error), t)
    | AuthOk url creds =>
        let rq := delete_request sitePath ValidateDefault in
        (Ok (if accepted (rem t rq)
             then SiteDeleted ("Site deleted: " +:+ sitePath)
             else DeleteFailed ("Failed to delete site: "
                                +:+ failure_message (rem t rq))),
         t ++ [Request rq (rem t rq)])
    end.
Proof.
  split; [reflexivity|].
  unfold delete_site_tool, try_catch, bind, ret. cbn [negb].
  fold (delete_params authorUrl username password token).
  destruct (getAEMCredentials env _) as [error|url creds]; [reflexivity|].
  unfold deleteSite, try_catch, bind, axios, ret, throw. cbv zeta.
  destruct (rem t (delete_request sitePath ValidateDefault)) as [s d|m]; cbn.
  - destruct (valid ValidateDefault s); reflexivity.
  - reflexivity.
Qed.

Section Runtime.
Variable params_toString : list (string * string) -> string.
Variable light_bulb : string.

Local Abbreviation tool := (search_assets_tool params_toString light_bulb).

Definition search_params_given (inv : search_invocation) : bool :=
  truthy (s_query inv) || truthy (s_filename inv) || truthy (s_title inv).

Definition search_credentials (inv : search_invocation) : cred_params :=
  {| p_authorUrl := or_else (s_authorUrl inv) (s_server inv);
     p_server := None; p_token := s_token inv;
     p_username := s_username inv; p_password := s_password inv |}.

(** The configuration the handler passes on. *)
Definition search_part (inv : search_invocation) : search_config :=
  {| q_query := s_query inv;
     q_filename := s_filename inv;
     q_title := s_title inv;
     q_damPath := or_else (s_damPath inv) (Some "/content/dam");
     q_limit := s_limit inv;
     q_offset := s_offset inv;
     q_searchValue := s_searchValue inv;
     q_replaceValue := s_replaceValue inv |}.

(** [searchValue] is given and [replaceValue] is [undefined]. *)
Definition replace_missing (inv : search_invocation) : bool :=
  supplied (s_searchValue inv) && negb (bool_decide (is_Some (s_replaceValue inv))).

(** X19. The handler of [aem-search-assets] always returns a reply,
    and checks before it sends: without a query, a file name or a title
    it asks for one, whatever the credentials; then without credentials
    it asks for them; then with a search value and no replace value it
    asks for the replace value - in all three cases nothing is sent.
    An empty replace value counts as given. *)
Theorem search_assets_tool_checks_first (env : environment)
        (inv : search_invocation) (rem : remote) (t : list event) :
  exists reply evs,
    tool env inv rem t = (Ok reply, t ++ evs) /\
    (search_params_given inv = false ->
     reply = SearchParameterRequired /\ evs = []) /\
    (search_params_given inv = true ->
     forall error,
       getAEMCredentials env (search_credentials inv) = AuthError error ->
       reply = SearchAuthRequired error /\ evs = []) /\
    (search_params_given inv = true ->
     forall url creds,
       getAEMCredentials env (search_credentials inv) = AuthOk url creds ->
       (replace_missing inv = true -> reply = ReplaceValueRequired /\ evs = []) /\
       (replace_missing inv = false ->
        exists rp evs',
          evs = Request (querybuilder_request (search_part inv)) rp :: evs')).
Proof.
  unfold search_assets_tool, search_params_given, replace_missing, try_catch.
  fold (search_credentials inv). fold (search_part inv).
  destruct (truthy (s_query inv)), (truthy (s_filename inv)),
    (truthy (s_title inv)); cbn [negb andb orb].
  8:{ exists SearchParameterRequired, []. rewrite app_nil_r.
      split; [reflexivity|]. split; [auto|]. split; discriminate. }
  all: destruct (getAEMCredentials env (search_credentials inv))
         as [error|url creds];
    [ exists (SearchAuthRequired error), []; rewrite app_nil_r;
      split; [reflexivity|]; split; [discriminate|];
      split; [intros _ ? [= <-]; auto|discriminate]
    | destruct (supplied (s_searchValue inv)
                && negb (bool_decide (is_Some (s_replaceValue inv))));
      [ exists ReplaceValueRequired, []; rewrite app_nil_r;
        split; [reflexivity|]; split; [discriminate|];
        split; [discriminate|]; intros _ ? ? _; split; [auto|discriminate]
      | ] ].
  all: unfold bind;
    destruct (searchAssets_extends params_toString light_bulb
                (new_client url creds) (search_part inv) rem t) as (o & evs & E);
    rewrite E; destruct o as [r|e]; unfold ret;
    eexists _, _; (split; [reflexivity|]); (split; [discriminate|]);
    (split; [discriminate|]); intros _ ? ? _; (split; [discriminate|]);
    intros _; eexists _, _; reflexivity.
Qed.

(** X20. When the query of a search is answered 401, the handler of
    [aem-search-assets] reports the failure of [searchAssets] after
    that one request.  It adds the advice to switch from a token to a
    user name and a password exactly when a token is at hand, as a
    parameter or in the environment, and the environment holds both a
    user name and a password - whichever credentials the client was
    built with, and whether or not a user name and a password were
    given as parameters. *)
Theorem search_assets_tool_token_advice (env : environment)
        (inv : search_invocation) (rem : remote) (t : list event)
        (url : string) (creds : Credentials.credentials) (d : json) :
  search_params_given inv = true ->
  getAEMCredentials env (search_credentials inv) = AuthOk url creds ->
  replace_missing inv = false ->
  let q := querybuilder_request (search_part inv) in
  rem t q = Status 401 d ->
  tool env inv rem t
  = (Ok (SearchFailed
           (unauthorized_failure params_toString light_bulb
              (new_client url creds) (search_part inv))
           (truthy (or_else (s_token inv) (AEM_TOKEN env))
            && (truthy (AEM_USERNAME env) && truthy (AEM_PASSWORD env)))),
     t ++ [Request q (Status 401 d)]).
Proof.
  intros Hg Hc Hr q Hq. subst q.
  pose proof (searchAssets_refused params_toString light_bulb
                (new_client url creds) (search_part inv) rem t 401 d Hq eq_refl)
    as E.
  destruct (unauthorized_failure_shape params_toString light_bulb
              (new_client url creds) (search_part inv)) as (Hp & Hi & _).
  unfold search_assets_tool, try_catch, bind.
  fold (search_credentials inv). fold (search_part inv).
  unfold search_params_given in Hg. unfold replace_missing in Hr.
  assert (negb (truthy (s_query inv)) && negb (truthy (s_filename inv))
          && negb (truthy (s_title inv)) = false) as ->.
  { destruct (truthy (s_query inv)), (truthy (s_filename inv)),
      (truthy (s_title inv)); try reflexivity; discriminate Hg. }
  rewrite Hc, Hr, E. cbn [Nat.eqb message Error]. unfold ret.
  change (Nat.eqb 401 401) with true. cbv iota. cbn [message Error].
  rewrite Hi.
  assert (nonempty (unauthorized_failure params_toString light_bulb
                      (new_client url creds) (search_part inv)) = true) as ->.
  { unfold nonempty.
    destruct (unauthorized_failure _ _ _ _); [discriminate Hp|reflexivity]. }
  cbn [andb]. rewrite andb_assoc. reflexivity.
Qed.

End Runtime.

(** An environment with a token and with a user name and a password,
    for an endpoint of the managed cloud: the resolver chooses the user
    name and the password. *)
Definition full_env : environment :=
  {| AEM_AUTHOR_URL := None; AEM_TOKEN := Some "t0ken";
     AEM_USERNAME := Some "admin"; AEM_PASSWORD := Some "admin";
     LOG_LEVEL := None |}.

Definition ford_search : search_invocation :=
  {| s_query := Some "ford"; s_filename := None; s_title := None;
     s_damPath := None; s_limit := None; s_offset := None;
     s_searchValue := None; s_replaceValue := None;
     s_authorUrl := None; s_server := None;
     s_username := None; s_password := None; s_token := None |}.

Lemma search_assets_tool_token_advice_witness :
  getAEMCredentials full_env (search_credentials ford_search)
  = AuthOk default_author_url (Basic "admin" "admin") /\
  exists message,
    search_assets_tool plain_params "*" full_env ford_search locked_dam []
    = (Ok (SearchFailed message true),
       [Request (querybuilder_request (search_part ford_search)) (Status 401 JNull)]).
Proof.
  split; [reflexivity|]. eexists.
  exact (search_assets_tool_token_advice plain_params "*" full_env ford_search
           locked_dam [] _ _ JNull eq_refl eq_refl eq_refl eq_refl).
Defined.

End ToolsFacts.

(** ** The adapter: bodies, headers and routes *)

Module AdapterMoreFacts.
Import JsString JsStringFacts Json Remote Adapter RequestShim AssetsFacts.

Lemma obj_get_fold {A B} (f : B -> A) (k : string) (l : list (string * B)) :
  NoDup (keys l) ->
  forall o,
    obj_get k (fold_left (fun o kv => obj_set kv.1 (f kv.2) o) l o)
    = match obj_get k l with
      | Some v => Some (f v)
      | None => obj_get k o
      end.
Proof.
  unfold keys.
  induction l as [|[k0 v0] r IH]; intros Hnd o; [reflexivity|].
  cbn in Hnd. apply NoDup_cons in Hnd as [Hk Hr].
  cbn [fold_left fst snd]. rewrite IH by exact Hr. cbn [obj_get].
  rewrite obj_get_set.
  destruct (String.eqb_spec k0 k) as [->|_]; [|reflexivity].
  rewrite obj_get_not_key by exact Hk. reflexivity.
Qed.

(** A method that is none of the three falls through. *)
Lemma method_other {A} (m : option string) (g o p x : A) :
  m <> Some "get" -> m <> Some "options" -> m <> Some "post" ->
  match m with
  | Some "get" => g | Some "options" => o | Some "post" => p | _ => x
  end = x.
Proof.
  intros Hg Ho Hp. destruct m as [m|]; [|reflexivity].
  repeat (match goal with
          | |- context [match ?u with "" => _ | String _ _ => _ end] =>
              destruct u as [|[[|] [|] [|] [|] [|] [|] [|] [|]] ?]
          end; try reflexivity); congruence.
Qed.

Section Runtime.
Variable base64_utf8 : string -> string.
Variable JSON_parse : string -> json + string.
Variable stack_of : js_error -> string.
Variable create_server : E unit.
Variable exchange : compatible_request -> E http_result.
Variable create_logger : E unit.
Variable timestamp : string.
Variable env_LOG_LEVEL : option string.

Local Abbreviation parse_body := (parseRequestBody base64_utf8 JSON_parse).
Local Abbreviation make_request := (createCompatibleRequest base64_utf8 JSON_parse).

(** X21. [parseRequestBody] gives [null] for a body that is missing or
    falsy, and a body that is not a string as it is.  Of a string it
    tries the base64 decoding first: when the decoded text parses, its
    value is the body, whether or not the string itself parses.  The
    string itself is parsed only when the decoded text does not parse;
    when neither parses, the error carries the message of the parse of
    the string itself, not of the decoded text. *)
Theorem parseRequestBody_prefers_decoded (params : ow_params) :
  (forall b, __ow_body params = Some b -> truthy_json b = false ->
             parse_body params = Ok None) /\
  (__ow_body params = None -> parse_body params = Ok None) /\
  (forall b, __ow_body params = Some b -> truthy_json b = true ->
             (forall s, b <> JStr s) -> parse_body params = Ok (Some b)) /\
  (forall s, __ow_body params = Some (JStr s) -> s <> "" ->
     parse_body params
     = match JSON_parse (base64_utf8 s), JSON_parse s with
       | inl decoded, _ => Ok (Some decoded)
       | inr _, inl direct => Ok (Some direct)
       | inr _, inr msg =>
           Throw (Error ("Failed to parse request body: " +:+ msg))
       end).
Proof.
  unfold parseRequestBody, parse. split; [|split; [|split]].
  - intros b -> ->. reflexivity.
  - intros ->. reflexivity.
  - intros b -> -> Hb. destruct b; try reflexivity. destruct (Hb s eq_refl).
  - intros s -> Hs. cbn [truthy_json].
    destruct (String.eqb_spec s "") as [->|_]; [contradiction|]. cbn [negb].
    destruct (JSON_parse (base64_utf8 s)); [reflexivity|].
    destruct (JSON_parse s); reflexivity.
Qed.

(** The headers the shim sets before the header bag is spread. *)
Definition default_headers (params : ow_params) : list (string * option string) :=
  [("content-type", Some "application/json");
   ("accept", Some "application/json, text/event-stream");
   ("mcp-session-id",
    or_else (mcp_session_id params)
      (obj_get "mcp-session-id" (default [] (__ow_headers params))))].

(** X22. In the request [createCompatibleRequest] builds, the header
    bag wins: every header of [__ow_headers] is in the request with its
    value from the bag, over the two defaults and over the
    [mcp-session-id] parameter - also when the bag's value is empty.
    The parameter is used only when the bag has no [mcp-session-id].
    The method is the one given, in upper case, and [GET] for none or
    an empty one; [get] finds a header by the lower-case form of the
    name asked for. *)
Theorem createCompatibleRequest_header_bag_wins (params : ow_params)
        (body : option json) :
  parse_body params = Ok body ->
  NoDup (keys (default [] (__ow_headers params))) ->
  exists req,
    make_request params = Ok req /\
    req_body req = body /\
    req_method req
    = (if truthy (__ow_method params)
       then toUpperCase (default "" (__ow_method params)) else "GET") /\
    (forall name,
       get req name
       = match obj_get (toLowerCase name) (default [] (__ow_headers params)) with
         | Some value => Some value
         | None =>
             default None (obj_get (toLowerCase name) (default_headers params))
         end) /\
    (obj_get "mcp-session-id" (default [] (__ow_headers params)) = None ->
     get req "mcp-session-id"
     = if truthy (mcp_session_id params) then mcp_session_id params else None).
Proof.
  intros Hb Hnd. unfold createCompatibleRequest. rewrite Hb. cbn [ebind].
  eexists. split; [reflexivity|]. cbn [req_body req_method req_headers].
  split; [reflexivity|]. split.
  { destruct (truthy (__ow_method params)) eqn:Hm; [|reflexivity].
    destruct (__ow_method params); [reflexivity|discriminate]. }
  assert (forall name,
            get {| req_method := toUpperCase (default "GET"
                      (if truthy (__ow_method params)
                       then __ow_method params else None));
                   req_headers :=
                     fold_left (fun o kv => obj_set kv.1 (Some kv.2) o)
                       (default [] (__ow_headers params)) (default_headers params);
                   req_body := body |} name
            = match obj_get (toLowerCase name) (default [] (__ow_headers params)) with
              | Some value => Some value
              | None =>
                  default None (obj_get (toLowerCase name) (default_headers params))
              end) as Hget.
  { intros name. unfold get. cbn [req_headers].
    rewrite (obj_get_fold (@Some string)) by exact Hnd.
    destruct (obj_get (toLowerCase name) _); reflexivity. }
  split; [exact Hget|].
  intros Hnone. rewrite Hget.
  change (toLowerCase "mcp-session-id") with "mcp-session-id". rewrite Hnone.
  change (obj_get "mcp-session-id" (default_headers params))
    with (Some (or_else (mcp_session_id params)
                  (obj_get "mcp-session-id" (default [] (__ow_headers params))))).
  rewrite Hnone. unfold or_else.
  destruct (truthy (mcp_session_id params)); reflexivity.
Qed.

Local Abbreviation run_main :=
  (main base64_utf8 JSON_parse stack_of create_server exchange create_logger
     timestamp env_LOG_LEVEL).

(** X23. [main] answers a POST whose request is built and whose
    exchange succeeds with the result of the exchange, unchanged.  The
    method is compared without regard to case.  With a logger, a GET is
    answered by the health check and an OPTIONS by the pre-flight
    answer, and any other method, or none, with status 405 and code
    -32000: in these three cases neither the server nor the exchange has
    a part.  Without a logger the answer is a 500 that is no JSON-RPC
    envelope, whatever the method. *)
Theorem main_routes_by_method (params : ow_params) :
  (forall loggerError,
     create_logger = Throw loggerError ->
     run_main params
     = {| statusCode := 500;
          headers := [("Content-Type", "application/json")];
          body := Stringified
            (JObj [("error", JStr ("Logger creation error: "
                                   +:+ message loggerError))]) |}) /\
  (create_logger = Ok tt ->
   (toLowerCase <$> __ow_method params = Some "get" ->
    run_main params = handleHealthCheck timestamp) /\
   (toLowerCase <$> __ow_method params = Some "options" ->
    run_main params = handleOptionsRequest) /\
   (forall m, toLowerCase <$> __ow_method params = m ->
      m <> Some "get" -> m <> Some "options" -> m <> Some "post" ->
      statusCode (run_main params) = 405 /\
      error_code (body (run_main params)) = Some (JNum "-32000")) /\
   (forall req result,
      toLowerCase <$> __ow_method params = Some "post" ->
      create_server = Ok tt ->
      make_request params = Ok req -> exchange req = Ok result ->
      run_main params = result)).
Proof.
  unfold main, route. split.
  - intros e ->. reflexivity.
  - intros ->. split; [|split; [|split]].
    + intros ->. reflexivity.
    + intros ->. reflexivity.
    + intros m <- Hg Ho Hp. rewrite method_other by assumption.
      split; reflexivity.
    + intros req result -> Hs Hr Hx. unfold handleMcpRequest.
      rewrite Hs, Hr. cbn [ebind etry]. rewrite Hx. reflexivity.
Qed.

End Runtime.

Definition accept_json : string -> json + string :=
  fun s => if String.eqb s "{}" then inl (JObj []) else inr "Unexpected token".

Definition session_post : ow_params :=
  {| __ow_method := Some "post";
     __ow_body := Some (JStr "{}");
     __ow_headers := Some [("mcp-session-id", ""); ("content-type", "text/plain")];
     mcp_session_id := Some "abc";
     param_LOG_LEVEL := None |}.

Lemma createCompatibleRequest_header_bag_wins_witness :
  exists req,
    createCompatibleRequest (fun s => s) accept_json session_post = Ok req /\
    req_method req = "POST" /\
    get req "Mcp-Session-Id" = Some "" /\
    get req "Content-Type" = Some "text/plain" /\
    get req "Accept" = Some "application/json, text/event-stream".
Proof.
  destruct (createCompatibleRequest_header_bag_wins (fun s => s) accept_json
              session_post (Some (JObj [])) eq_refl)
    as (req & E & _ & Hm & Hget & _).
  { apply (bool_decide_unpack _). vm_compute. exact I. }
  exists req. split; [exact E|]. split; [exact Hm|].
  rewrite !Hget. repeat split.
Defined.

End AdapterMoreFacts.

(** ** The response shim *)

Module ShimFacts.
Import JsString JsStringFacts Json Remote Adapter ResponseShim.
Import RedactionFacts AssetsFacts.

Lemma obj_set_keys {A} (k : string) (v : A) (o : list (string * A)) :
  keys (obj_set k v o) = if bool_decide (k ∈ keys o) then keys o else keys o ++ [k].
Proof.
  unfold keys. induction o as [|[k' v'] o IH]; [reflexivity|].
  cbn [obj_set fmap list_fmap fst].
  destruct (String.eqb_spec k' k) as [->|Hne].
  - rewrite bool_decide_eq_true_2 by left. reflexivity.
  - cbn [fmap list_fmap fst]. fold (fmap (M := list) (@fst string A)). rewrite IH.
    destruct (decide (k ∈ o.*1)) as [Hin|Hnin].
    + rewrite !bool_decide_eq_true_2; [reflexivity|by right|done].
    + rewrite !bool_decide_eq_false_2; [reflexivity| |done].
      intros H. apply elem_of_cons in H as [?|?]; congruence.
Qed.

Lemma obj_set_NoDup {A} (k : string) (v : A) (o : list (string * A)) :
  NoDup (keys o) -> NoDup (keys (obj_set k v o)).
Proof.
  intros H. rewrite obj_set_keys. destruct (decide (k ∈ keys o)) as [Hin|Hnin].
  - rewrite bool_decide_eq_true_2 by exact Hin. exact H.
  - rewrite bool_decide_eq_false_2 by exact Hnin.
    apply NoDup_app. split; [exact H|]. split.
    + intros x Hx Hk. apply list_elem_of_singleton in Hk. congruence.
    + apply NoDup_singleton.
Qed.

Lemma fold_obj_set_NoDup {A} (l o : list (string * A)) :
  NoDup (keys o) ->
  NoDup (keys (fold_left (fun o kv => obj_set kv.1 kv.2 o) l o)).
Proof.
  revert o. induction l as [|[k v] l IH]; intros o H; [exact H|].
  cbn [fold_left]. apply IH, obj_set_NoDup, H.
Qed.

(** Copying an object by spreading it gives the object. *)
Lemma spread_copy {A} (o : list (string * A)) :
  NoDup (keys o) -> fold_left (fun o kv => obj_set kv.1 kv.2 o) o [] = o.
Proof.
  intros H. pose proof (assign_distinct (fun x : A => x) o []) as E.
  cbn [app keys] in E. rewrite E by exact H.
  clear. induction o as [|[k v] o IH]; [reflexivity|]. cbn. rewrite IH. reflexivity.
Qed.

Lemma obj_get_fold_other {A} (k : string) (l o : list (string * A)) :
  k ∉ keys l ->
  obj_get k (fold_left (fun o kv => obj_set kv.1 kv.2 o) l o) = obj_get k o.
Proof.
  unfold keys. revert o. induction l as [|[k0 v0] l IH]; intros o H; [reflexivity|].
  cbn in H. apply not_elem_of_cons in H as [Hne Hnin].
  cbn [fold_left fst snd]. rewrite IH by exact Hnin. rewrite obj_get_set.
  destruct (String.eqb_spec k0 k); [congruence|reflexivity].
Qed.

Lemma obj_get_fold_Some {A} (k : string) (l o : list (string * A)) :
  is_Some (obj_get k o) ->
  is_Some (obj_get k (fold_left (fun o kv => obj_set kv.1 kv.2 o) l o)).
Proof.
  revert o. induction l as [|[k0 v0] l IH]; intros o H; [exact H|].
  cbn [fold_left fst snd]. apply IH. rewrite obj_get_set.
  destruct (String.eqb k0 k); [eexists; reflexivity|exact H].
Qed.

Section Runtime.
Variable JSON_stringify : json -> string.

Local Abbreviation step := (ResponseShim.step JSON_stringify).
Local Abbreviation steps := (ResponseShim.steps JSON_stringify).
Local Abbreviation render := (ResponseShim.render JSON_stringify).

(** The call gives a value to the header [name]. *)
Definition sets (c : call) (name : string) : bool :=
  match c with
  | setHeader n _ => String.eqb n name
  | writeHead _ (Some headerObj) => bool_decide (name ∈ keys headerObj)
  | json_ _ => String.eqb "Content-Type" name
  | _ => false
  end.

Lemma step_headers (s : shim) (c : call) :
  NoDup (keys (sh_headers s)) ->
  NoDup (keys (sh_headers (step s c))) /\
  (forall name, is_Some (getHeader s name) -> is_Some (getHeader (step s c) name)) /\
  (forall name, sets c name = false -> getHeader (step s c) name = getHeader s name).
Proof.
  intros H. unfold getHeader.
  destruct c as [code|n v|code [h|]|chunk|chunk|obj|data];
    cbn [ResponseShim.step sh_headers sets default]; try (split; [exact H|]; auto).
  - split; [apply obj_set_NoDup, H|]. split; intros name Hn; rewrite obj_get_set.
    + destruct (String.eqb n name); [eexists; reflexivity|exact Hn].
    + rewrite Hn. reflexivity.
  - rewrite spread_copy by exact H.
    split; [apply fold_obj_set_NoDup, H|]. split; intros name Hn.
    + apply obj_get_fold_Some, Hn.
    + apply obj_get_fold_other. apply bool_decide_eq_false in Hn. exact Hn.
  - rewrite spread_copy by exact H. cbn [fold_left]. auto.
  - split; [apply obj_set_NoDup, H|]. split; intros name Hn; rewrite obj_get_set.
    + destruct (String.eqb _ name); [eexists; reflexivity|exact Hn].
    + rewrite Hn. reflexivity.
Qed.

Lemma steps_headers (calls : list call) (s : shim) :
  NoDup (keys (sh_headers s)) ->
  (forall name, is_Some (getHeader s name) ->
                is_Some (getHeader (steps calls s) name)) /\
  (forall name, forallb (fun c => negb (sets c name)) calls = true ->
                getHeader (steps calls s) name = getHeader s name).
Proof.
  revert s. induction calls as [|c calls IH]; intros s H; [auto|].
  destruct (step_headers s c H) as (H1 & H2 & H3).
  destruct (IH (step s c) H1) as [I1 I2].
  unfold ResponseShim.steps in *. cbn [fold_left forallb]. split.
  - intros name Hn. apply I1, H2, Hn.
  - intros name Hn. apply andb_true_iff in Hn as [Hc Hr].
    apply negb_true_iff in Hc. rewrite I2 by exact Hr. apply H3, Hc.
Qed.

(** X24. Whatever is called on the response shim, the five CORS headers
    it starts with are in its result: no call removes a header.  A
    header keeps the value it started with until a call gives that name
    a value - [setHeader] with the name, [writeHead] with the name in
    its header object, or [json] for [Content-Type]. *)
Theorem shim_keeps_cors_headers (calls : list call) :
  let result := getResult (steps calls createCompatibleResponse) in
  Forall (fun name => is_Some (obj_get name (headers result))) (keys cors_headers) /\
  (forall name,
     forallb (fun c => negb (sets c name)) calls = true ->
     obj_get name (headers result) = obj_get name cors_headers).
Proof.
  assert (NoDup (keys (sh_headers createCompatibleResponse))) as H
    by (apply (bool_decide_unpack _); vm_compute; exact I).
  destruct (steps_headers calls createCompatibleResponse H) as [H1 H2].
  cbv zeta. cbn [getResult headers]. split.
  - apply Forall_forall. intros name Hn. apply H1.
    unfold keys, cors_headers in Hn. cbn in Hn.
    repeat (apply elem_of_cons in Hn as [->|Hn]; [eexists; reflexivity|]).
    inversion Hn.
  - intros name Hn. apply H2, Hn.
Qed.

(** What a call appends to the body. *)
Definition chunk_text (c : call) : string :=
  match c with
  | write chunk | end_ chunk =>
      match given chunk with
      | Some x => render x
      | None => ""
      end
  | _ => ""
  end.

(** The call leaves what is in the body. *)
Definition appends (c : call) : bool :=
  match c with
  | json_ _ => false
  | send data => negb (bool_decide (is_Some (given data)))
  | _ => true
  end.

(** The call marks the headers as sent. *)
Definition finishes (c : call) : bool :=
  match c with
  | writeHead _ _ | end_ _ | json_ _ | send _ => true
  | _ => false
  end.

Definition text_of (calls : list call) : string :=
  fold_right (fun c rest => chunk_text c +:+ rest) "" calls.

Lemma steps_append (calls : list call) (s : shim) :
  forallb appends calls = true ->
  sh_body (steps calls s) = sh_body s +:+ text_of calls.
Proof.
  revert s. induction calls as [|c calls IH]; intros s H.
  - cbn. rewrite append_nil_r. reflexivity.
  - cbn [forallb] in H. apply andb_true_iff in H as [Hc Hr].
    unfold ResponseShim.steps in *. cbn [fold_left text_of fold_right].
    rewrite IH by exact Hr. rewrite <- append_assoc. f_equal.
    destruct c as [code|n v|code h|chunk|chunk|obj|data];
      cbn [ResponseShim.step sh_body chunk_text];
      rewrite ?append_nil_r; try reflexivity.
    + destruct (given chunk); rewrite ?append_nil_r; reflexivity.
    + destruct (given chunk); rewrite ?append_nil_r; reflexivity.
    + discriminate Hc.
    + cbn [appends] in Hc. destruct (given data); [discriminate Hc|].
      reflexivity.
Qed.

Lemma steps_app (a b : list call) (s : shim) :
  steps (a ++ b) s = steps b (steps a s).
Proof. unfold ResponseShim.steps. apply fold_left_app. Qed.

Lemma steps_cons (c : call) (calls : list call) (s : shim) :
  steps (c :: calls) s = steps calls (step s c).
Proof. reflexivity. Qed.

(** X25. The body of the response shim is what was written, in order:
    starting empty, after calls of [write] and [end] - and of [status],
    [setHeader] and [writeHead], which leave the body alone - it is the
    concatenation of the chunks, a string as it is and another value
    through [JSON.stringify]; a chunk that is missing or falsy adds
    nothing.  [json] replaces the body, and so does [send] with a
    truthy value; [send] without one keeps the body.  The headers count
    as sent exactly from the first [writeHead], [end], [json] or
    [send]. *)
Theorem shim_body_is_what_was_written :
  (forall calls,
     forallb appends calls = true ->
     body (getResult (steps calls createCompatibleResponse))
     = Text (text_of calls)) /\
  (forall before obj after s,
     forallb appends after = true ->
     sh_body (steps (before ++ json_ obj :: after) s)
     = JSON_stringify obj +:+ text_of after) /\
  (forall before data after s,
     forallb appends after = true ->
     sh_body (steps (before ++ send data :: after) s)
     = match given data with
       | Some d => render d
       | None => sh_body (steps before s)
       end +:+ text_of after) /\
  (forall calls,
     sh_headersSent (steps calls createCompatibleResponse)
     = existsb finishes calls).
Proof.
  split; [|split; [|split]].
  - intros calls H. cbn [getResult body]. rewrite steps_append by exact H.
    reflexivity.
  - intros before obj after s H.
    rewrite steps_app, steps_cons, steps_append by exact H. reflexivity.
  - intros before data after s H.
    rewrite steps_app, steps_cons, steps_append by exact H.
    cbn [ResponseShim.step sh_body]. reflexivity.
  - intros calls.
    assert (forall s, sh_headersSent (steps calls s)
                      = sh_headersSent s || existsb finishes calls) as E.
    { induction calls as [|c calls IH]; intros s.
      - cbn. rewrite orb_false_r. reflexivity.
      - unfold ResponseShim.steps in *. cbn [fold_left existsb]. rewrite IH.
        destruct c; cbn [ResponseShim.step sh_headersSent finishes];
          rewrite ?orb_true_r, ?orb_false_r, ?orb_true_l; try reflexivity;
          destruct (sh_headersSent s); reflexivity. }
    rewrite E. reflexivity.
Qed.

End Runtime.

Definition show_json : json -> string :=
  fun v => match v with JObj [] => "{}" | _ => "?" end.

Lemma shim_body_is_what_was_written_witness :
  body (getResult
          (ResponseShim.steps show_json
             [status 202; write (Some (JStr "event: message"));
              write None; write (Some (JStr "")); end_ (Some (JObj []))]
             createCompatibleResponse))
  = Text "event: message{}".
Proof.
  exact (proj1 (shim_body_is_what_was_written show_json)
           [status 202; write (Some (JStr "event: message"));
            write None; write (Some (JStr "")); end_ (Some (JObj []))]
           eq_refl).
Defined.

End ShimFacts.

(** ** Search-and-replace: what it leaves alone *)

Module RedactionMore.
Import JsString JsStringFacts Escaping EscapingFacts Json Redaction RedactionFacts.
Import HeapRefinement.

(** [lit] occurs in [s], compared without regard to case. *)
Fixpoint occurs_ci (lit s : string) : bool :=
  prefix_ci lit s
  || match s with
     | "" => false
     | String _ r => occurs_ci lit r
     end.

(** Some string of the value holds the search value. *)
Fixpoint mentions (sv : string) (v : json) : bool :=
  match v with
  | JStr s => occurs_ci sv s
  | JArr items => existsb (mentions sv) items
  | JObj fields => existsb (fun kv => mentions sv kv.2) fields
  | _ => false
  end.

Lemma replace_scan_absent (lit tpl s before : string) :
  occurs_ci lit s = false ->
  replace_scan (match_literal_ci lit) tpl before 0 s = s.
Proof.
  revert before. induction s as [|c r IH]; intros before H.
  - cbn in H. rewrite orb_false_r in H. cbn. unfold match_literal_ci.
    rewrite H. reflexivity.
  - cbn [occurs_ci] in H. apply orb_false_iff in H as [Hp Hr].
    cbn [replace_scan]. unfold match_literal_ci at 1. rewrite Hp.
    rewrite IH by exact Hr. reflexivity.
Qed.

Lemma replace_value_absent (sv rv s : string) :
  occurs_ci sv s = false -> replace_value sv rv s = s.
Proof.
  intros H. unfold replace_value, replace_g. rewrite RegExp_gi_escapeRegex.
  apply replace_scan_absent, H.
Qed.

Lemma rewrite_object_leaves_absent (sv rv : string) (v : json) :
  mentions sv v = false -> rewrite_object_leaves sv rv v = v.
Proof.
  induction v as [| | | |items _|fields IH] using json_nested_ind;
    try reflexivity.
  cbn [mentions rewrite_object_leaves]. intros H. f_equal.
  induction fields as [|[k x] rest IHr]; [reflexivity|].
  cbn [existsb snd] in H. apply orb_false_iff in H as [Hx Hrest].
  apply Forall_cons in IH as [IHx IHrest].
  cbn [map fst snd]. rewrite IHr by assumption. f_equal. f_equal.
  destruct x as [| | |s|items|fs]; try reflexivity.
  - cbn in Hx. rewrite replace_value_absent by exact Hx. reflexivity.
  - f_equal. cbn [mentions] in Hx. clear -Hx.
    induction items as [|y items IHi]; [reflexivity|].
    cbn [existsb] in Hx. apply orb_false_iff in Hx as [Hy Hi].
    cbn [map]. rewrite IHi by exact Hi. f_equal.
    destruct y; try reflexivity. cbn in Hy. cbn.
    rewrite replace_value_absent by exact Hy. reflexivity.
  - apply IHx, Hx.
Qed.


Definition ford_fields : list (string * json) :=
  [("dc:title", JStr "Ford Focus");
   ("dc:subject", JArr [JStr "ford"; JStr "car"]);
   ("tiff:ImageWidth", JNum "1200");
   ("xmp", JObj [("CreatorTool", JStr "Photoshop")])].

Definition ford_metadata : json := JObj ford_fields.


End RedactionMore.

(** ** Credentials that resolve are never empty *)

Module CredentialsMore.
Import JsString Credentials Remote AssetSearch.

Lemma truthy_get (o : option string) : truthy o = true -> get o <> "".
Proof.
  destruct o as [s|]; [|discriminate]. cbn.
  intros H. apply negb_true_iff in H. apply String.eqb_neq, H.
Qed.

Lemma or_else_truthy (a b : option string) :
  truthy (or_else a b) = truthy a || truthy b.
Proof. unfold or_else. destruct (truthy a) eqn:E; [exact E|reflexivity]. Qed.

(** X27. When [getAEMCredentials] resolves, nothing it returns is
    empty: the author URL is not, and neither are the user name and the
    password of basic credentials or the token of bearer credentials.
    A client built from bearer credentials is therefore one that
    [searchAssets] reports as using a token. *)
Theorem resolved_credentials_are_not_empty (env : environment) (params : cred_params)
        (url : string) (creds : Credentials.credentials) :
  getAEMCredentials env params = AuthOk url creds ->
  url <> "" /\
  match creds with
  | Basic username password => username <> "" /\ password <> ""
  | Bearer token => token <> "" /\ uses_token (new_client url creds) = true
  end.
Proof.
  unfold getAEMCredentials.
  set (u := or_else (p_authorUrl params)
              (or_else (p_server params)
                 (or_else (AEM_AUTHOR_URL env) (Some default_author_url)))).
  assert (get u <> "") as Hu.
  { apply truthy_get. unfold u. rewrite !or_else_truthy.
    change (truthy (Some default_author_url)) with true.
    rewrite !orb_true_r. reflexivity. }
  destruct (truthy (or_else (p_username params) (AEM_USERNAME env))) eqn:Hn;
    destruct (truthy (or_else (p_password params) (AEM_PASSWORD env))) eqn:Hp;
    destruct (truthy (or_else (p_token params) (AEM_TOKEN env))) eqn:Ht;
    destruct (includes (get u) "adobeaemcloud.com");
    cbn [andb orb negb]; intros [= <- <-]; (split; [exact Hu|]);
    try (split; apply truthy_get; assumption).
  all: split; [apply truthy_get, Ht|];
    cbn [uses_token new_client Remote.credentials Assets.nonempty];
    unfold Assets.nonempty; apply negb_true_iff, String.eqb_neq, truthy_get, Ht.
Qed.

Lemma resolved_credentials_are_not_empty_witness :
  uses_token (new_client default_author_url (Bearer "t0ken")) = true.
Proof.
  exact (proj2 (proj2 (resolved_credentials_are_not_empty
                         {| AEM_AUTHOR_URL := None; AEM_TOKEN := Some "t0ken";
                            AEM_USERNAME := None; AEM_PASSWORD := None;
                            LOG_LEVEL := None |}
                         {| p_authorUrl := None; p_server := None; p_token := None;
                            p_username := None; p_password := None |}
                         default_author_url (Bearer "t0ken") eq_refl))).
Defined.

End CredentialsMore.

(** ** A conflict at the site root, and a hit whose metadata cannot be read *)

Module ConflictFacts.
Import JsString JsStringFacts Json Credentials Sanitize Remote Microsite Tool Assets.
Import MicrositeFacts ToolFacts MicrositeAbortFacts SearchRunFacts.

#[local] Arguments valid : simpl never.

(** X28. Without [overwrite], when the POST of the site root is
    answered 409, the handler of [aem-create-microsite] reports the
    failure with the flag that the site exists, after that one request:
    nothing is deleted and no page is attempted. *)
Theorem create_microsite_tool_reports_conflict (env : environment)
        (inv : invocation) (rem : remote) (t : list event)
        (url : string) (creds : Credentials.credentials) (d : json) :
  default false (overwrite inv) = false ->
  getAEMCredentials env (cred_part inv) = AuthOk url creds ->
  siteTitle inv <> "" ->
  let rq := site_request (site_part (microsite_part inv)) in
  rem t rq = Status 409 d ->
  create_microsite_tool env inv rem t
  = (Ok (MicrositeFailed
           "Failed to create microsite: Failed to create site: Request failed with status code 409"
           true),
     t ++ [Request rq (Status 409 d)]).
Proof.
  intros Hov Hcred Ht rq Hrq. subst rq.
  pose proof (site_path_agrees inv Ht) as Hsp.
  assert (truthy (mc_siteTitle (microsite_part inv)) = true) as Htt
      by (apply negb_true_iff, String.eqb_neq, Ht).
  pose proof (createMicrosite_site_refused (new_client url creds)
                (microsite_part inv) rem t Htt) as E.
  rewrite Hrq in E. specialize (E eq_refl).
  unfold create_microsite_tool. fold (cred_part inv).
  rewrite Hcred, Hsp, Hov. unfold try_catch, bind, ret.
  fold (microsite_part inv). rewrite E. reflexivity.
Qed.

Definition taken_remote : remote := fun _ _ => Status 409 JNull.

Definition plain_invocation : invocation :=
  {| siteName := None; siteTitle := "Demo"; i_authorUrl := None;
     username := Some "admin"; password := Some "admin"; token := None;
     templateType := None; pages := None; parentPath := None;
     overwrite := None |}.

Definition no_environment : environment :=
  {| AEM_AUTHOR_URL := None; AEM_TOKEN := None; AEM_USERNAME := None;
     AEM_PASSWORD := None; LOG_LEVEL := None |}.

Lemma create_microsite_tool_reports_conflict_witness :
  create_microsite_tool no_environment plain_invocation taken_remote []
  = (Ok (MicrositeFailed
           "Failed to create microsite: Failed to create site: Request failed with status code 409"
           true),
     [Request (site_request (site_part (microsite_part plain_invocation)))
        (Status 409 JNull)]).
Proof.
  apply (create_microsite_tool_reports_conflict no_environment plain_invocation
           taken_remote [] default_author_url (Basic "admin" "admin") JNull);
    [reflexivity|reflexivity|discriminate|reflexivity].
Defined.

(** X29. A hit whose metadata cannot be read stays in the results of a
    search: when the read is not accepted, the loop body still returns
    its result, with the last segment of the path as name and as title
    and an empty metadata object, with or without a search value.  It
    warns on the console exactly when the read was answered 401. *)
Theorem process_hit_survives_failed_read (this : client)
        (searchValue replaceValue : option string) (assetPath : string)
        (rem : remote) (t : list event) :
  let rq := metadata_request assetPath in
  accepted (rem t rq) = false ->
  process_hit this searchValue replaceValue assetPath rem t
  = (Ok {| ar_path := assetPath;
           ar_name := basename assetPath;
           ar_title := JStr (basename assetPath);
           ar_metadata := JObj [];
           ar_url := authorUrl this +:+ assetPath |},
     t ++ Request rq (rem t rq) :: hit_warning assetPath (rem t rq)).
Proof.
  intros rq Hrp. subst rq.
  destruct (process_hit_run this searchValue replaceValue assetPath rem t)
    as (r & E & Hp & Hn & Hu & Hf).
  destruct (Hf Hrp) as [Ht Hm]. rewrite E. f_equal.
  destruct r as [p n ttl md u]. cbn in *. congruence.
Qed.

Lemma process_hit_survives_failed_read_witness :
  process_hit demo_client (Some "ford") (Some "Lincoln") "/content/dam/ford/a.png"
    locked_dam []
  = (Ok {| ar_path := "/content/dam/ford/a.png";
           ar_name := "a.png";
           ar_title := JStr "a.png";
           ar_metadata := JObj [];
           ar_url := "http://localhost:4502/content/dam/ford/a.png" |},
     [Request (metadata_request "/content/dam/ford/a.png") (Status 401 JNull);
      ConsoleWarn "Warning: Could not fetch metadata for /content/dam/ford/a.png due to authentication error"]).
Proof.
  exact (process_hit_survives_failed_read demo_client (Some "ford") (Some "Lincoln")
           "/content/dam/ford/a.png" locked_dam [] eq_refl).
Defined.

End ConflictFacts.
